(** * ski: the game loop, collision engine and yeti pursuit, verified

    A shallow embedding of the React/three-fiber components of the game
    ([Game], [ObstacleTree], [Yeti]) and the properties of their per-frame
    logic.

    Conventions of the embedding.
    - A JavaScript [number] is an exact rational ([Q]); integer-valued
      counters ([score], millisecond clocks) are [Z].  Rounding of IEEE
      doubles is not modelled.
    - [useState] values and [useRef] cells are fields of one record per
      component.  Every callback runs against the state of the latest
      render, and a render separates any two events.
    - [setTimeout] is a list of pending (deadline, action) pairs; the
      wall clock ([Date.now()]) is a field advanced by an explicit event.
    - [Math.random()] and [Math.sin] are inputs of the functions that
      call them. *)

From Stdlib Require Import QArith Qminmax Qabs Qround ZArith List Bool Lia Lqa String.
Import ListNotations.
Open Scope Q_scope.

(** ** JavaScript number primitives *)

Module JS.

Definition lt (a b : Q) : bool := negb (Qle_bool b a).
Definition gt (a b : Q) : bool := lt b a.

(** The [lerp] helper declared in Slope, Yeti and Skiier. *)
Definition lerp (start finish t : Q) : Q := start * (1 - t) + finish * t.

End JS.

(** A reported position [{x, z}]. *)
Record Point : Type := mkPoint { x : Q; z : Q }.

(** The part of a three.js [Object3D] the game logic touches. *)
Record Object3D : Type := mkObject3D {
  position_x : Q;
  position_y : Q;
  position_z : Q;
  scale_y : Q
}.

(** ** Game (session controller, player controller, collision engine) *)

Module Game.

Definition COLLISION_DISTANCE : Q := 0.8.
Definition COLLISION_Z_THRESHOLD : Q := 5.
Definition CRASH_RECOVERY_TIME : Z := 2000.
Definition YETI_APPEARANCE_SCORE : Z := 50.
Definition YETI_ATTACK_DELAY : Z := 5000.
Definition YETI_COLLISION_DISTANCE : Q := 1.2.
Definition YETI_Z_COLLISION_DISTANCE : Q := 3.0.
Definition slopeWidth : Q := 10.
Definition moveSpeed : Q := 0.1.

(** The three callbacks the component hands to [setTimeout]. *)
Inductive Timeout : Type :=
| ClearCrashed        (* () => setCrashed(false) *)
| HideYetiWarning     (* () => setShowYetiWarning(false) *)
| StartYetiAttack.    (* () => { setShowYeti(true); setYetiAttacking(true) } *)

Definition Timeout_eqb (a b : Timeout) : bool :=
  match a, b with
  | ClearCrashed, ClearCrashed => true
  | HideYetiWarning, HideYetiWarning => true
  | StartYetiAttack, StartYetiAttack => true
  | _, _ => false
  end.

(** [useState] cells. *)
Record Hooks : Type := mkHooks {
  position : Q;
  crashed : bool;
  score : Z;
  lookBehind : bool;
  showYeti : bool;
  showYetiWarning : bool;
  yetiAttacking : bool;
  yetiCaught : bool
}.

(** [useRef] cells. *)
Record Refs : Type := mkRefs {
  initialYetiPosition : Q * Q * Q;
  keysPressed : string -> bool;
  obstaclePositions : list Point;
  yetiPosition : option Point;
  lastCrashTime : Z;
  yetiHasAppeared : bool
}.

(** The host: wall clock in milliseconds and pending timeouts. *)
Record Host : Type := mkHost {
  now : Z;
  timeouts : list (Z * Timeout)
}.

Record State : Type := mkState {
  hooks : Hooks;
  refs : Refs;
  host : Host
}.

(** *** Setters *)

Definition setPosition (f : Q -> Q) (s : State) : State :=
  let h := hooks s in
  mkState (mkHooks (f (position h)) (crashed h) (score h) (lookBehind h) (showYeti h)
             (showYetiWarning h) (yetiAttacking h) (yetiCaught h)) (refs s) (host s).

Definition setCrashed (b : bool) (s : State) : State :=
  let h := hooks s in
  mkState (mkHooks (position h) b (score h) (lookBehind h) (showYeti h)
             (showYetiWarning h) (yetiAttacking h) (yetiCaught h)) (refs s) (host s).

Definition setScore (f : Z -> Z) (s : State) : State :=
  let h := hooks s in
  mkState (mkHooks (position h) (crashed h) (f (score h)) (lookBehind h) (showYeti h)
             (showYetiWarning h) (yetiAttacking h) (yetiCaught h)) (refs s) (host s).

Definition setLookBehind (b : bool) (s : State) : State :=
  let h := hooks s in
  mkState (mkHooks (position h) (crashed h) (score h) b (showYeti h)
             (showYetiWarning h) (yetiAttacking h) (yetiCaught h)) (refs s) (host s).

Definition setShowYeti (b : bool) (s : State) : State :=
  let h := hooks s in
  mkState (mkHooks (position h) (crashed h) (score h) (lookBehind h) b
             (showYetiWarning h) (yetiAttacking h) (yetiCaught h)) (refs s) (host s).

Definition setShowYetiWarning (b : bool) (s : State) : State :=
  let h := hooks s in
  mkState (mkHooks (position h) (crashed h) (score h) (lookBehind h) (showYeti h)
             b (yetiAttacking h) (yetiCaught h)) (refs s) (host s).

Definition setYetiAttacking (b : bool) (s : State) : State :=
  let h := hooks s in
  mkState (mkHooks (position h) (crashed h) (score h) (lookBehind h) (showYeti h)
             (showYetiWarning h) b (yetiCaught h)) (refs s) (host s).

Definition setYetiCaught (b : bool) (s : State) : State :=
  let h := hooks s in
  mkState (mkHooks (position h) (crashed h) (score h) (lookBehind h) (showYeti h)
             (showYetiWarning h) (yetiAttacking h) b) (refs s) (host s).

Definition set_initialYetiPosition (p : Q * Q * Q) (s : State) : State :=
  let r := refs s in
  mkState (hooks s) (mkRefs p (keysPressed r) (obstaclePositions r) (yetiPosition r)
                       (lastCrashTime r) (yetiHasAppeared r)) (host s).

Definition set_keysPressed (k : string -> bool) (s : State) : State :=
  let r := refs s in
  mkState (hooks s) (mkRefs (initialYetiPosition r) k (obstaclePositions r) (yetiPosition r)
                       (lastCrashTime r) (yetiHasAppeared r)) (host s).

Definition set_obstaclePositions (l : list Point) (s : State) : State :=
  let r := refs s in
  mkState (hooks s) (mkRefs (initialYetiPosition r) (keysPressed r) l (yetiPosition r)
                       (lastCrashTime r) (yetiHasAppeared r)) (host s).

Definition set_yetiPosition (p : option Point) (s : State) : State :=
  let r := refs s in
  mkState (hooks s) (mkRefs (initialYetiPosition r) (keysPressed r) (obstaclePositions r) p
                       (lastCrashTime r) (yetiHasAppeared r)) (host s).

Definition set_lastCrashTime (t : Z) (s : State) : State :=
  let r := refs s in
  mkState (hooks s) (mkRefs (initialYetiPosition r) (keysPressed r) (obstaclePositions r)
                       (yetiPosition r) t (yetiHasAppeared r)) (host s).

Definition set_yetiHasAppeared (b : bool) (s : State) : State :=
  let r := refs s in
  mkState (hooks s) (mkRefs (initialYetiPosition r) (keysPressed r) (obstaclePositions r)
                       (yetiPosition r) (lastCrashTime r) b) (host s).

(** [setTimeout(cb, ms)]: the callback becomes due [ms] after the current time. *)
Definition setTimeout (cb : Timeout) (ms : Z) (s : State) : State :=
  let e := host s in
  mkState (hooks s) (refs s) (mkHost (now e) (timeouts e ++ [((now e + ms)%Z, cb)])).

Definition set_timeouts (l : list (Z * Timeout)) (s : State) : State :=
  mkState (hooks s) (refs s) (mkHost (now (host s)) l).

Definition set_now (t : Z) (s : State) : State :=
  mkState (hooks s) (refs s) (mkHost t (timeouts (host s))).

(** The state of the first render, the page having been loaded at time [t0]. *)
Definition init (t0 : Z) : State :=
  mkState
    (mkHooks 0 false 0%Z false false false false false)
    (mkRefs (0, 0, 0) (fun _ => false) [] None 0%Z false)
    (mkHost t0 []).

(** *** Crash and catch handlers *)

Definition handleCrash (s : State) : State :=
  if negb (yetiAttacking (hooks s)) then
    let s := setCrashed true s in
    let s := setScore (fun _ => 0%Z) s in
    let s := set_lastCrashTime (now (host s)) s in
    setTimeout ClearCrashed CRASH_RECOVERY_TIME s
  else s.

Definition handleYetiCatch (s : State) : State :=
  let s := setYetiCaught true s in
  setCrashed true s.

(** *** Collision engine *)

(** Calls made by one run of [updateObstaclePositions]. *)
Inductive Signal : Type :=
| TreeCrash (obstacle : Point)   (* handleCrash() was called for this obstacle *)
| YetiCatch.                     (* handleYetiCatch() was called *)

(** The [for (const obstacle of positions)] loop with its [break]: the
    obstacle for which [handleCrash] is called, if any. *)
Fixpoint scanObstacles (playerX : Q) (positions : list Point) : option Point :=
  match positions with
  | [] => None
  | obstacle :: rest =>
      if JS.lt (z obstacle) 0 && JS.gt (z obstacle) (- COLLISION_Z_THRESHOLD) then
        let dx := Qabs (playerX - x obstacle) in
        if JS.lt dx COLLISION_DISTANCE then Some obstacle
        else scanObstacles playerX rest
      else scanObstacles playerX rest
  end.

(** The yeti test that follows the loop; the player's z is 0. *)
Definition yetiCollides (s : State) : bool :=
  yetiAttacking (hooks s) &&
  match yetiPosition (refs s) with
  | Some yp =>
      let dx := Qabs (position (hooks s) - x yp) in
      let dz := Qabs (0 - z yp) in
      JS.lt dx YETI_COLLISION_DISTANCE && JS.lt dz YETI_Z_COLLISION_DISTANCE
  | None => false
  end.

Definition updateObstaclePositions (positions : list Point) (s : State)
  : State * list Signal :=
  match positions with
  | [] => (s, [])
  | _ :: _ =>
      let s0 := set_obstaclePositions positions s in
      if negb (crashed (hooks s0)) && negb (yetiCaught (hooks s0)) then
        let currentTime := now (host s0) in
        if (currentTime - lastCrashTime (refs s0) <? 500)%Z then (s0, [])
        else
          let '(s1, log1) :=
            match scanObstacles (position (hooks s0)) positions with
            | Some obstacle => (handleCrash s0, [TreeCrash obstacle])
            | None => (s0, [])
            end in
          if yetiCollides s0 then (handleYetiCatch s1, log1 ++ [YetiCatch])
          else (s1, log1)
      else (s0, [])
  end.

Definition handleYetiPositionUpdate (pos : Point) (s : State) : State :=
  set_yetiPosition (Some pos) s.

(** *** Timers and effects *)

(** The [setInterval] callback of the score effect (period 100 ms). *)
Definition scoreInterval (s : State) : State :=
  if negb (crashed (hooks s)) && negb (yetiCaught (hooks s)) then
    setScore (fun prevScore => (prevScore + 1)%Z) s
  else s.

(** The effect on [score, position] that summons the yeti. *)
Definition yetiTriggerEffect (s : State) : State :=
  if (YETI_APPEARANCE_SCORE <=? score (hooks s))%Z && negb (yetiHasAppeared (refs s)) then
    let s := setShowYetiWarning true s in
    let s := setTimeout HideYetiWarning 3000 s in
    let s := set_initialYetiPosition (position (hooks s), 0, -120) s in
    let s := set_yetiHasAppeared true s in
    setTimeout StartYetiAttack YETI_ATTACK_DELAY s
  else s.

Definition runTimeout (cb : Timeout) (s : State) : State :=
  match cb with
  | ClearCrashed => setCrashed false s
  | HideYetiWarning => setShowYetiWarning false s
  | StartYetiAttack => setYetiAttacking true (setShowYeti true s)
  end.

Fixpoint removeNth {A : Type} (n : nat) (l : list A) : list A :=
  match n, l with
  | _, [] => []
  | O, _ :: tl => tl
  | S m, hd :: tl => hd :: removeNth m tl
  end.

(** The host runs the [n]-th pending timeout, once its delay has elapsed. *)
Definition fireTimeout (n : nat) (s : State) : State :=
  match nth_error (timeouts (host s)) n with
  | Some (deadline, cb) =>
      if (deadline <=? now (host s))%Z then
        runTimeout cb (set_timeouts (removeNth n (timeouts (host s))) s)
      else s
  | None => s
  end.

(** *** Keyboard and player controller *)

Definition setKey (key : string) (v : bool) (k : string -> bool) : string -> bool :=
  fun key' => if String.eqb key' key then v else k key'.

Definition handleKeyDown (key code : string) (s : State) : State :=
  let s := set_keysPressed (setKey key true (keysPressed (refs s))) s in
  if String.eqb code "Space" then setLookBehind true s else s.

Definition handleKeyUp (key code : string) (s : State) : State :=
  let s := set_keysPressed (setKey key false (keysPressed (refs s))) s in
  if String.eqb code "Space" then setLookBehind false s else s.

(** The [requestAnimationFrame] callback. *)
Definition updatePosition (s : State) : State :=
  if negb (crashed (hooks s)) && negb (yetiCaught (hooks s)) then
    let keys := keysPressed (refs s) in
    let s :=
      if keys "ArrowLeft"%string || keys "a"%string then
        setPosition (fun prev => Qmin (prev + moveSpeed) (slopeWidth / 2 - 1)) s
      else s in
    if keys "ArrowRight"%string || keys "d"%string then
      setPosition (fun prev => Qmax (prev - moveSpeed) (- slopeWidth / 2 + 1)) s
    else s
  else s.

(** *** The session as a transition system *)

Inductive Event : Type :=
| KeyDown (key code : string)
| KeyUp (key code : string)
| AnimationFrame
| UpdateObstacles (positions : list Point)
| YetiPositionUpdate (pos : Point)
| ScoreInterval
| YetiTriggerEffect
| Elapse (ms : N)
| FireTimeout (n : nat).

Definition step (s : State) (e : Event) : State :=
  match e with
  | KeyDown key code => handleKeyDown key code s
  | KeyUp key code => handleKeyUp key code s
  | AnimationFrame => updatePosition s
  | UpdateObstacles positions => fst (updateObstaclePositions positions s)
  | YetiPositionUpdate pos => handleYetiPositionUpdate pos s
  | ScoreInterval => scoreInterval s
  | YetiTriggerEffect => yetiTriggerEffect s
  | Elapse ms => set_now (now (host s) + Z.of_N ms)%Z s
  | FireTimeout n => fireTimeout n s
  end.

Definition run (s : State) (es : list Event) : State := fold_left step es s.

End Game.

(** ** ObstacleTree (obstacle lifecycle manager)

    The repository holds two revisions of the component:
    [src/components/ObstacleTree.tsx] (module [ObstacleTree]) and a later
    one that caps the frame time and snaps trees to lanes (module
    [ObstacleTreeCapped]).  Both share the state below. *)

Module ObstacleTree.

Definition SLOPE_WIDTH : Q := 10.
Definition SLOPE_SPEED : Q := 0.4.
Definition OBSTACLE_SPAWN_DISTANCE : Q := 120.

Record Tree : Type := mkTree {
  position : Q * Q * Q;            (* useState *)
  treeRef : option Object3D;       (* the mounted <group>, if any *)
  lastPositionRef : Point
}.

(** State of the first render, before the group is mounted. *)
Definition init : Tree :=
  mkTree (0, 0, OBSTACLE_SPAWN_DISTANCE) None (mkPoint 0 OBSTACLE_SPAWN_DISTANCE).

(** Mounting creates the group at the [position] prop. *)
Definition mount (t : Tree) : Tree :=
  let '(px, py, pz) := position t in
  mkTree (position t) (Some (mkObject3D px py pz 1)) (lastPositionRef t).

(** [resetTree]; [rand] is the value of [Math.random()]. *)
Definition resetTree (rand : Q) (t : Tree) : Tree :=
  let xPos := rand * (SLOPE_WIDTH - 4) - (SLOPE_WIDTH - 4) / 2 in
  mkTree (xPos, 0, OBSTACLE_SPAWN_DISTANCE) (treeRef t) (lastPositionRef t).

(** The render that follows a [setPosition]: a changed [position] prop is
    written to the group. *)
Definition render (previous : Q * Q * Q) (t : Tree) : Tree :=
  let '(px, py, pz) := position t in
  let '(qx, qy, qz) := previous in
  if Qeq_bool px qx && Qeq_bool py qy && Qeq_bool pz qz then t
  else
    match treeRef t with
    | Some o => mkTree (position t) (Some (mkObject3D px py pz (scale_y o))) (lastPositionRef t)
    | None => t
    end.

Definition moveAmount (delta : Q) : Q := SLOPE_SPEED * delta * 60.

(** The proximity bands of the prediction, on [distanceToPlayer]. *)
Definition predictionFactor (distanceToPlayer : Q) : Q :=
  if JS.lt distanceToPlayer 5 then 0.2
  else if JS.lt distanceToPlayer 15 then 0.5
  else 1.0.

(** The body shared by both revisions once [moveAmount] is known: advance,
    report the predicted position, recycle behind the player. *)
Definition advance (reset : Tree -> Tree) (onPositionUpdate : bool)
    (moveAmount : Q) (t : Tree) : Tree * option Point :=
  match treeRef t with
  | None => (t, None)
  | Some o =>
      let o := mkObject3D (position_x o) (position_y o) (position_z o - moveAmount) (scale_y o) in
      let t := mkTree (position t) (Some o) (lastPositionRef t) in
      let '(t, report) :=
        if onPositionUpdate then
          let currentZ := position_z o in
          let distanceToPlayer := Qabs currentZ in
          let predictedZ := currentZ - moveAmount * predictionFactor distanceToPlayer in
          let p := mkPoint (position_x o) predictedZ in
          (mkTree (position t) (treeRef t) p, Some p)
        else (t, None) in
      if JS.lt (position_z o) (-15) then (reset t, report) else (t, report)
  end.

Definition useFrame (onPositionUpdate : bool) (delta rand : Q) (t : Tree)
  : Tree * option Point :=
  advance (resetTree rand) onPositionUpdate (moveAmount delta) t.

(** One displayed frame: the callback, then the render it may have caused. *)
Definition frame (onPositionUpdate : bool) (delta rand : Q) (t : Tree)
  : Tree * option Point :=
  let '(t', report) := useFrame onPositionUpdate delta rand t in
  (render (position t) t', report).

(** The 8000 ms interval: with probability 0.3 respawn a tree still far ahead. *)
Definition respawnInterval (rand1 rand2 : Q) (t : Tree) : Tree :=
  if JS.lt rand1 0.3 then
    match treeRef t with
    | Some o => if JS.gt (position_z o) 100 then render (position t) (resetTree rand2 t) else t
    | None => t
    end
  else t.

End ObstacleTree.

Module ObstacleTreeCapped.

Import ObstacleTree.

Definition resetTree (rand : Q) (t : Tree) : Tree :=
  let randomOffset := inject_Z (Qfloor (rand * 5)) * 0.6 - 1.5 in
  let xPos := randomOffset in
  let ref :=
    match treeRef t with
    | Some o => Some (mkObject3D xPos (position_y o) OBSTACLE_SPAWN_DISTANCE (scale_y o))
    | None => None
    end in
  mkTree (xPos, 0, OBSTACLE_SPAWN_DISTANCE) ref (lastPositionRef t).

Definition smoothDelta (delta : Q) : Q := Qmin delta 0.05.

Definition moveAmount (delta : Q) : Q := SLOPE_SPEED * smoothDelta delta * 60.

Definition useFrame (onPositionUpdate : bool) (delta rand : Q) (t : Tree)
  : Tree * option Point :=
  advance (resetTree rand) onPositionUpdate (moveAmount delta) t.

Definition frame (onPositionUpdate : bool) (delta rand : Q) (t : Tree)
  : Tree * option Point :=
  let '(t', report) := useFrame onPositionUpdate delta rand t in
  (render (position t) t', report).

Definition respawnInterval (rand1 rand2 : Q) (t : Tree) : Tree :=
  if JS.lt rand1 0.3 then
    match treeRef t with
    | Some o => if JS.gt (position_z o) 100 then render (position t) (resetTree rand2 t) else t
    | None => t
    end
  else t.

End ObstacleTreeCapped.

(** ** Yeti (pursuit state machine) *)

Module Yeti.

Inductive AttackPhase : Type :=
| APPROACH   (* initial approach from behind *)
| CHASE      (* unrelenting chase *)
| ATTACK.    (* final attack phase *)

(** Position of a phase in the declaration order of the enum. *)
Definition phaseIndex (p : AttackPhase) : nat :=
  match p with
  | APPROACH => 0
  | CHASE => 1
  | ATTACK => 2
  end.

Record Props : Type := mkProps {
  initialPosition : Q * Q * Q;
  attacking : bool;
  onPositionUpdate : bool          (* was the optional callback supplied? *)
}.

Record State : Type := mkState {
  yetiRef : option Object3D;       (* the mounted <group>, if any *)
  position : Q * Q * Q;            (* useState *)
  targetPositionX : Q;
  targetPositionZ : Q;
  initialPlayerPosition : Point;
  armAngle : Q;
  jumpHeight : Q;
  attackPhase : AttackPhase;       (* useState *)
  rotationY : Q;                   (* useState *)
  chaseSpeed : Q;
  visibilityHeight : Q
}.

(** What a frame reads from its surroundings: the elapsed frame time, the
    clock of the renderer and the answer of [getPlayerPosition()]. *)
Record Frame : Type := mkFrame {
  delta : Q;
  elapsedTime : Q;
  playerPosition : Point
}.

Definition init (p : Props) : State :=
  let '(ix, iy, iz) := initialPosition p in
  mkState None (ix, iy, iz) ix iz (mkPoint 0 0) 0 0 APPROACH 0 0.05 (-1).

(** Mounting creates the group at the [position] prop ([initialPosition]). *)
Definition mount (p : Props) (s : State) : State :=
  let '(ix, iy, iz) := initialPosition p in
  mkState (Some (mkObject3D ix iy iz 1)) (position s) (targetPositionX s) (targetPositionZ s)
    (initialPlayerPosition s) (armAngle s) (jumpHeight s) (attackPhase s) (rotationY s)
    (chaseSpeed s) (visibilityHeight s).

(** Effect on [initialPosition]. *)
Definition initialPositionEffect (p : Props) (s : State) : State :=
  match yetiRef s with
  | Some o =>
      let '(ix, iy, iz) := initialPosition p in
      mkState (Some (mkObject3D ix (visibilityHeight s) iz (scale_y o)))
        (position s) (targetPositionX s) (targetPositionZ s)
        (initialPlayerPosition s) (armAngle s) (jumpHeight s) (attackPhase s) (rotationY s)
        (chaseSpeed s) (visibilityHeight s)
  | None => s
  end.

(** Effect on [attacking, getPlayerPosition]. *)
Definition attackingEffect (p : Props) (player : Point) (s : State) : State :=
  if attacking p then
    mkState (yetiRef s) (position s) (x player) (targetPositionZ s)
      player (armAngle s) (jumpHeight s) (attackPhase s) (rotationY s)
      (chaseSpeed s) (visibilityHeight s)
  else s.

(** The frame time capped to prevent large jumps. *)
Definition smoothDelta (delta : Q) : Q := Qmin delta 0.05.

Section UseFrame.

(** [Math.sin]. *)
Variable sin : Q -> Q.

(** The refs and the phase as the [switch (attackPhase)] leaves them;
    [dt] is the capped frame time and [o] the group before it is moved. *)
Definition phaseSwitch (p : Props) (f : Frame) (dt : Q) (o : Object3D) (s : State)
  : State :=
  let t := elapsedTime f in
  let player := playerPosition f in
  match attackPhase s with
  | APPROACH =>
      let '(_, _, iz) := initialPosition p in
      mkState (yetiRef s) (position s)
        (x player + 2)
        (iz + 30)
        (initialPlayerPosition s)
        (sin (t * 8) * 0.6)
        (Qabs (sin (t * 6)) * 0.3)
        (if JS.lt (position_z o) (-40) then CHASE else APPROACH)
        (rotationY s)
        (JS.lerp (chaseSpeed s) 0.07 0.01)
        (if JS.lt (visibilityHeight s) 1.0
         then visibilityHeight s + dt * 0.3
         else visibilityHeight s)
  | CHASE =>
      mkState (yetiRef s) (position s)
        (JS.lerp (targetPositionX s) (x player + 1) 0.03)
        (-15)
        (initialPlayerPosition s)
        (sin (t * 12) * 0.7)
        (Qabs (sin (t * 9)) * 0.4)
        (if JS.lt (position_z o) (-7) then ATTACK else CHASE)
        (rotationY s)
        (JS.lerp (chaseSpeed s) 0.1 0.01)
        1.0
  | ATTACK =>
      mkState (yetiRef s) (position s)
        (JS.lerp (targetPositionX s) (x player) 0.15)
        0.8
        (initialPlayerPosition s)
        (sin (t * 15) * 1.0)
        (Qabs (sin (t * 12)) * 0.5)
        ATTACK
        (rotationY s)
        0.18
        (visibilityHeight s)
  end.

(** The [useFrame] callback: the new state and the position handed to
    [onPositionUpdate], if it was called. *)
Definition useFrame (p : Props) (f : Frame) (s : State) : State * option Point :=
  match yetiRef s with
  | None => (s, None)
  | Some o =>
      if negb (attacking p) then (s, None)
      else
        let dt := smoothDelta (delta f) in
        let s := phaseSwitch p f dt o s in
        let nx := JS.lerp (position_x o) (targetPositionX s) (0.05 * dt * 60) in
        let nz := JS.lerp (position_z o) (targetPositionZ s) (chaseSpeed s * dt * 60) in
        let ny := visibilityHeight s + jumpHeight s in
        let breathe := sin (elapsedTime f * 1.5) * 0.03 in
        let o := mkObject3D nx ny nz (1 + breathe) in
        let report := if onPositionUpdate p then Some (mkPoint nx nz) else None in
        (mkState (Some o) (nx, ny, nz) (targetPositionX s) (targetPositionZ s)
           (initialPlayerPosition s) (armAngle s) (jumpHeight s) (attackPhase s)
           (rotationY s) (chaseSpeed s) (visibilityHeight s),
         report)
  end.

(** What can happen to a yeti, with the props of the render in force. *)
Inductive Event : Type :=
| Mount (p : Props)
| InitialPositionEffect (p : Props)
| AttackingEffect (p : Props) (player : Point)
| AnimationFrame (p : Props) (f : Frame).

Definition step (s : State) (e : Event) : State :=
  match e with
  | Mount p => mount p s
  | InitialPositionEffect p => initialPositionEffect p s
  | AttackingEffect p player => attackingEffect p player s
  | AnimationFrame p f => fst (useFrame p f s)
  end.

Definition run (s : State) (es : list Event) : State := fold_left step es s.

(** The reports made to [onPositionUpdate] along a run, oldest first. *)
Fixpoint reports (s : State) (es : list Event) : list Point :=
  match es with
  | [] => []
  | e :: rest =>
      match e with
      | AnimationFrame p f =>
          match snd (useFrame p f s) with
          | Some pt => pt :: reports (step s e) rest
          | None => reports (step s e) rest
          end
      | _ => reports (step s e) rest
      end
  end.

End UseFrame.

End Yeti.

(** ** Slope (scenery and the obstacle report channel) *)

Module Slope.

Definition SLOPE_WIDTH : Q := 10.
Definition SLOPE_SPEED : Q := 0.4.

(** The frame callback of the scenery [Tree]: scroll, and wrap far ahead
    once far behind. *)
Definition treeFrame (delta : Q) (treeRef : option Object3D) : option Object3D :=
  match treeRef with
  | None => None
  | Some o =>
      let z1 := position_z o - SLOPE_SPEED * delta * 60 in
      let z2 := if JS.lt z1 (-100) then 200 else z1 in
      Some (mkObject3D (position_x o) (position_y o) z2 (scale_y o))
  end.

(** One iteration of the loop of [TreeField]: the positions of the left
    and of the right tree, from three draws of [Math.random()]. *)
Definition treeFieldPair (rand1 rand2 rand3 : Q) : (Q * Q * Q) * (Q * Q * Q) :=
  let z := rand1 * 400 - 150 in
  let distanceFromSlope := SLOPE_WIDTH / 2 + 3 + rand2 * 15 in
  let xOffset := rand3 * 5 - 2.5 in
  ((- distanceFromSlope + xOffset, 0, z), (distanceFromSlope + xOffset, 0, z)).

(** [handleObstaclePositionUpdate]: the report of the one obstacle becomes
    the list handed to the game, when the game supplied its callback. *)
Definition handleObstaclePositionUpdate (onUpdateObstacles : bool) (position : Point)
    (g : Game.State) : Game.State * list Game.Signal :=
  let adjustedPosition := mkPoint (x position) (z position) in
  if onUpdateObstacles then Game.updateObstaclePositions [adjustedPosition] g
  else (g, []).

(** A frame of the obstacle tree mounted in the slope of a game: the tree's
    callback is [handleObstaclePositionUpdate], whose callback is the game's
    [updateObstaclePositions]. *)
Definition obstacleFrame
    (useFrame : bool -> Q -> Q -> ObstacleTree.Tree -> ObstacleTree.Tree * option Point)
    (delta rand : Q) (t : ObstacleTree.Tree) (g : Game.State)
  : ObstacleTree.Tree * Game.State * list Game.Signal :=
  let '(t', report) := useFrame true delta rand t in
  match report with
  | Some p =>
      let '(g', log) := handleObstaclePositionUpdate true p g in
      (t', g', log)
  | None => (t', g, [])
  end.

End Slope.

(** ** Skiier (rendered player) *)

Module Skiier.

(** The part of the skier's group the component touches. *)
Record Pose : Type := mkPose {
  pose_x : Q;          (* position.x *)
  pose_y : Q;          (* position.y *)
  rotation_x : Q;
  rotation_z : Q
}.

Record Props : Type := mkProps {
  positionX : Q;       (* position[0] *)
  crashed : bool
}.

Record State : Type := mkState {
  skiierRef : option Pose;
  targetPositionX : Q;
  rendered : Props     (* the props of the latest render *)
}.

(** The y of the [position] prop of the group. *)
Definition groupY (crashed : bool) : Q := if crashed then -0.3 else 0.1.

Section UseFrame.

(** [Math.PI]. *)
Variable PI : Q.

Definition HILL_ANGLE : Q := 10.
Definition HILL_ANGLE_RAD : Q := HILL_ANGLE * PI / 180.

(** The first render: the group is created at its [position] and
    [rotation] props, and the target ref starts at [position[0]]. *)
Definition mount (p : Props) : State :=
  mkState (Some (mkPose (positionX p) (groupY (crashed p)) HILL_ANGLE_RAD 0))
    (positionX p) p.

(** A later render: a changed [position] prop of the group,
    [[position[0], crashed ? -0.3 : 0.1, 0]], is written to the group; its
    [rotation] prop never changes. *)
Definition render (p : Props) (s : State) : State :=
  let q := rendered s in
  let unchanged := Qeq_bool (positionX p) (positionX q) && Bool.eqb (crashed p) (crashed q) in
  let ref :=
    match skiierRef s with
    | Some o =>
        if unchanged then Some o
        else Some (mkPose (positionX p) (groupY (crashed p)) (rotation_x o) (rotation_z o))
    | None => None
    end in
  mkState ref (targetPositionX s) p.

(** Effect on the [position] prop, run after the render. *)
Definition positionEffect (p : Props) (s : State) : State :=
  mkState (skiierRef s) (positionX p) (rendered s).

Definition useFrame (crashed : bool) (s : State) : State :=
  match skiierRef s with
  | None => s
  | Some o =>
      let nx := JS.lerp (pose_x o) (targetPositionX s) 0.1 in
      let movementDirection := targetPositionX s - nx in
      if crashed then
        mkState (Some (mkPose nx (pose_y o) (JS.lerp (rotation_x o) (- PI / 2) 0.1)
                         (rotation_z o)))
          (targetPositionX s) (rendered s)
      else
        mkState (Some (mkPose nx (pose_y o) HILL_ANGLE_RAD
                         (JS.lerp (rotation_z o) (- movementDirection * 0.5) 0.1)))
          (targetPositionX s) (rendered s)
  end.

(** What happens to a mounted skier: the game renders it with new props
    (render, then effect), or a frame is displayed. *)
Inductive Event : Type :=
| Rerender (p : Props)
| AnimationFrame.

Definition step (s : State) (e : Event) : State :=
  match e with
  | Rerender p => positionEffect p (render p s)
  | AnimationFrame => useFrame (crashed (rendered s)) s
  end.

Definition run (s : State) (es : list Event) : State := fold_left step es s.

End UseFrame.

End Skiier.

(** ** Vocabulary of the statements *)

(** An obstacle is a hit for a player at [playerX]: predicted z strictly
    inside (-COLLISION_Z_THRESHOLD, 0) and horizontal distance strictly
    below COLLISION_DISTANCE. *)
Definition Hits (playerX : Q) (o : Point) : Prop :=
  - Game.COLLISION_Z_THRESHOLD < z o /\ z o < 0 /\
  Qabs (playerX - x o) < Game.COLLISION_DISTANCE.

(** [o] is the first hit of the list, in scan order. *)
Definition FirstHit (playerX : Q) (positions : list Point) (o : Point) : Prop :=
  exists before after,
    positions = before ++ o :: after /\
    Hits playerX o /\
    Forall (fun o' => ~ Hits playerX o') before.

Definition isTreeCrash (sg : Game.Signal) : bool :=
  match sg with
  | Game.TreeCrash _ => true
  | Game.YetiCatch => false
  end.

(** Number of entries of a timeout queue that would run the callback [cb]. *)
Definition countTimeout (cb : Game.Timeout) (l : list (Z * Game.Timeout)) : nat :=
  List.length (filter (fun p => Game.Timeout_eqb (snd p) cb) l).

(** Number of pending timeouts of the session that would run [cb]. *)
Definition pending (cb : Game.Timeout) (s : Game.State) : nat :=
  countTimeout cb (Game.timeouts (Game.host s)).

(** The yeti trigger effect takes its branch in state [s]. *)
Definition triggerFires (s : Game.State) : bool :=
  (Game.YETI_APPEARANCE_SCORE <=? Game.score (Game.hooks s))%Z
  && negb (Game.yetiHasAppeared (Game.refs s)).

(** How many times the trigger effect took its branch along a run. *)
Fixpoint triggerCount (s : Game.State) (es : list Game.Event) : nat :=
  match es with
  | [] => 0
  | e :: rest =>
      (match e with
       | Game.YetiTriggerEffect => if triggerFires s then 1 else 0
       | _ => 0
       end + triggerCount (Game.step s e) rest)%nat
  end.

(** How many timeouts the trigger effect queued along a run, measured on
    the queue before and after each of its runs. *)
Fixpoint queuedByTrigger (s : Game.State) (es : list Game.Event) : nat :=
  match es with
  | [] => 0
  | e :: rest =>
      (match e with
       | Game.YetiTriggerEffect =>
           List.length (Game.timeouts (Game.host (Game.yetiTriggerEffect s)))
           - List.length (Game.timeouts (Game.host s))
       | _ => 0
       end + queuedByTrigger (Game.step s e) rest)%nat
  end.

(** The crash bookkeeping that every reachable session state satisfies:
    at most one recovery timeout is pending, none while not crashed, and
    a caught player is crashed. *)
Record CrashInv (s : Game.State) : Prop := mkCrashInv {
  inv_one : (pending Game.ClearCrashed s <= 1)%nat;
  inv_idle : Game.crashed (Game.hooks s) = false -> pending Game.ClearCrashed s = 0%nat;
  inv_caught : Game.yetiCaught (Game.hooks s) = true ->
               Game.crashed (Game.hooks s) = true /\ pending Game.ClearCrashed s = 0%nat
}.

(** The three components the invariant reads. *)
Definition crashView (s : Game.State) : bool * bool * nat :=
  (Game.crashed (Game.hooks s), Game.yetiCaught (Game.hooks s), pending Game.ClearCrashed s).

(** The player is inside the slope bounds. *)
Definition InBounds (s : Game.State) : Prop :=
  - Game.slopeWidth / 2 + 1 <= Game.position (Game.hooks s) /\
  Game.position (Game.hooks s) <= Game.slopeWidth / 2 - 1.

(** A session state in which the collision engine evaluates collisions. *)
Definition Evaluating (s : Game.State) : Prop :=
  Game.crashed (Game.hooks s) = false /\
  Game.yetiCaught (Game.hooks s) = false /\
  (500 <= Game.now (Game.host s) - Game.lastCrashTime (Game.refs s))%Z.

(** A session played until the yeti catches the player: fifty score
    ticks, the trigger, the attack delay, a yeti report next to the player
    and an evaluation of the engine. *)
Definition caughtSession : list Game.Event :=
  repeat Game.ScoreInterval 50 ++
  [Game.YetiTriggerEffect; Game.Elapse 5000; Game.FireTimeout 1;
   Game.YetiPositionUpdate (mkPoint 0.5 (-2)); Game.UpdateObstacles [mkPoint 3 100]].

(** A session in which the score crosses the yeti threshold with the player
    at x = 1 ... *)
Definition firstCrossing : list Game.Event :=
  [Game.KeyDown "a" "KeyA"] ++ repeat Game.AnimationFrame 10 ++
  repeat Game.ScoreInterval 50 ++ [Game.YetiTriggerEffect].

(** ... and its continuation: a crash into a tree (score back to 0), the
    recovery, a move back to x = 0 and fifty more score ticks. *)
Definition crossingAgain : list Game.Event :=
  [Game.UpdateObstacles [mkPoint 1 (-1)]; Game.Elapse 2000; Game.FireTimeout 2;
   Game.KeyUp "a" "KeyA"; Game.KeyDown "d" "KeyD"] ++ repeat Game.AnimationFrame 10 ++
  repeat Game.ScoreInterval 50.

(** What a frame of an obstacle tree reports, for a revision given by its
    [useFrame] and [moveAmount]: the tree, mounted as [o], advances by
    [moveAmount delta] and hands to the callback its x and the predicted z. *)
Definition ReportsPrediction
    (useFrame : bool -> Q -> Q -> ObstacleTree.Tree -> ObstacleTree.Tree * option Point)
    (moveAmount : Q -> Q) (delta rand : Q) (t : ObstacleTree.Tree) (o : Object3D) : Prop :=
  let advance := moveAmount delta in
  let currentZ := position_z o - advance in
  let factor := ObstacleTree.predictionFactor (Qabs currentZ) in
  let predictedZ := currentZ - advance * factor in
  snd (useFrame true delta rand t) = Some (mkPoint (position_x o) predictedZ) /\
  (Qabs currentZ < 5 -> factor = 0.2) /\
  (5 <= Qabs currentZ -> Qabs currentZ < 15 -> factor = 0.5) /\
  (15 <= Qabs currentZ -> factor = 1.0) /\
  (0 <= delta ->
   predictedZ <= currentZ /\ predictedZ <= position_z o /\
   exists o', ObstacleTree.treeRef (fst (useFrame true delta rand t)) = Some o' /\
              predictedZ <= position_z o') /\
  (0 < delta -> predictedZ < currentZ).

(** The yeti as the game creates it: spawned far behind a player at
    x = 0 and mounted; [attacking] and the callback are the arguments. *)
Definition yetiProps (attacking callback : bool) : Yeti.Props :=
  Yeti.mkProps (0, 0, -120) attacking callback.

Definition spawnedYeti : Yeti.State :=
  Yeti.mount (yetiProps true true) (Yeti.init (yetiProps true true)).

(** A frame 1/60 s long, at clock time [t], the player being at x = 0. *)
Definition frameAt (t : Q) : Yeti.Frame := Yeti.mkFrame (1 # 60) t (mkPoint 0 0).

(** A stand-in for [Math.sin] in evaluations. *)
Definition flatSin (a : Q) : Q := 0.

(** A frame rendered with [attacking] set and a callback supplied. *)
Definition AttackingFrame (e : Yeti.Event) : Prop :=
  exists p f, e = Yeti.AnimationFrame p f /\
              Yeti.attacking p = true /\ Yeti.onPositionUpdate p = true.

(** The deadlines of the pending timeouts that would run [cb] all satisfy [P]. *)
Definition DeadlinesOf (cb : Game.Timeout) (P : Z -> Prop) (s : Game.State) : Prop :=
  Forall (fun p => snd p = cb -> P (fst p)) (Game.timeouts (Game.host s)).

(** Score bookkeeping of a session. *)
Record ScoreInv (s : Game.State) : Prop := mkScoreInv {
  score_nonneg : (0 <= Game.score (Game.hooks s))%Z;
  score_crashed : Game.crashed (Game.hooks s) = true ->
                  Game.yetiCaught (Game.hooks s) = false ->
                  Game.score (Game.hooks s) = 0%Z
}.

(** Recovery bookkeeping of a session started at time [t0]. *)
Record RecoveryInv (t0 : Z) (s : Game.State) : Prop := mkRecoveryInv {
  rec_crash : CrashInv s;
  rec_flight : Game.crashed (Game.hooks s) = true ->
               Game.yetiCaught (Game.hooks s) = false ->
               pending Game.ClearCrashed s = 1%nat;
  rec_deadline :
    DeadlinesOf Game.ClearCrashed
      (fun d => d = (Game.lastCrashTime (Game.refs s) + Game.CRASH_RECOVERY_TIME)%Z) s;
  rec_since : Game.crashed (Game.hooks s) = false ->
              (Z.min t0 Game.CRASH_RECOVERY_TIME
               <= Game.now (Game.host s) - Game.lastCrashTime (Game.refs s))%Z
}.

(** Bookkeeping of the yeti's appearance. *)
Record YetiInv (s : Game.State) : Prop := mkYetiInv {
  yeti_shown : Game.showYeti (Game.hooks s) = Game.yetiAttacking (Game.hooks s);
  yeti_attack_appeared : Game.yetiAttacking (Game.hooks s) = true ->
                         Game.yetiHasAppeared (Game.refs s) = true;
  yeti_caught_attack : Game.yetiCaught (Game.hooks s) = true ->
                       Game.yetiAttacking (Game.hooks s) = true;
  yeti_fresh : Game.yetiHasAppeared (Game.refs s) = false ->
               pending Game.StartYetiAttack s = 0%nat /\
               pending Game.HideYetiWarning s = 0%nat /\
               Game.showYetiWarning (Game.hooks s) = false;
  yeti_once : Game.yetiHasAppeared (Game.refs s) = true ->
              (pending Game.StartYetiAttack s
               + (if Game.yetiAttacking (Game.hooks s) then 1 else 0) = 1)%nat
}.

(** The yeti was summoned at time [T]: nothing of what the trigger
    scheduled can have happened earlier than its delay. *)
Record SummonedAt (T : Z) (s : Game.State) : Prop := mkSummonedAt {
  sum_appeared : Game.yetiHasAppeared (Game.refs s) = true;
  sum_start : DeadlinesOf Game.StartYetiAttack
                (fun d => (T + Game.YETI_ATTACK_DELAY <= d)%Z) s;
  sum_hide : DeadlinesOf Game.HideYetiWarning (fun d => (T + 3000 <= d)%Z) s;
  sum_attacking : Game.yetiAttacking (Game.hooks s) = true ->
                  (T + Game.YETI_ATTACK_DELAY <= Game.now (Game.host s))%Z;
  sum_warning : Game.showYetiWarning (Game.hooks s) = false ->
                (T + 3000 <= Game.now (Game.host s))%Z
}.

(** [s'] differs from [s] at most in position, look-behind flag, keys,
    stored reports and a clock that has not gone back. *)
Record Quiet (s s' : Game.State) : Prop := mkQuiet {
  q_crashed : Game.crashed (Game.hooks s') = Game.crashed (Game.hooks s);
  q_caught : Game.yetiCaught (Game.hooks s') = Game.yetiCaught (Game.hooks s);
  q_score : Game.score (Game.hooks s') = Game.score (Game.hooks s);
  q_showYeti : Game.showYeti (Game.hooks s') = Game.showYeti (Game.hooks s);
  q_warning : Game.showYetiWarning (Game.hooks s') = Game.showYetiWarning (Game.hooks s);
  q_attacking : Game.yetiAttacking (Game.hooks s') = Game.yetiAttacking (Game.hooks s);
  q_last : Game.lastCrashTime (Game.refs s') = Game.lastCrashTime (Game.refs s);
  q_appeared : Game.yetiHasAppeared (Game.refs s') = Game.yetiHasAppeared (Game.refs s);
  q_timeouts : Game.timeouts (Game.host s') = Game.timeouts (Game.host s);
  q_now : (Game.now (Game.host s) <= Game.now (Game.host s'))%Z
}.

(** A session in which the yeti attacks and has reported a position next
    to the player, who is at x = 0 with score 50. *)
Definition yetiNearby : list Game.Event :=
  repeat Game.ScoreInterval 50 ++
  [Game.YetiTriggerEffect; Game.Elapse 5000; Game.FireTimeout 1;
   Game.YetiPositionUpdate (mkPoint 0.5 (-2))].

(** A session in which the player has hit a tree 100 ms ago. *)
Definition justCrashed : list Game.Event :=
  [Game.UpdateObstacles [mkPoint 0 (-1)]; Game.Elapse 100].

(** A session with seven score ticks before the crash of [justCrashed] and
    two after it. *)
Definition scoredThenCrashed : list Game.Event :=
  repeat Game.ScoreInterval 7 ++ justCrashed ++ [Game.ScoreInterval; Game.ScoreInterval].

(** The crash of [justCrashed] followed by its recovery. *)
Definition crashedAndRecovered : list Game.Event :=
  [Game.UpdateObstacles [mkPoint 0 (-1)]; Game.Elapse 2000; Game.FireTimeout 0].

(** A session that brings the player to the right edge with a left key
    held, then presses a right key as well. *)
Definition bothKeysAtEdge : list Game.Event :=
  Game.KeyDown "a" "KeyA" :: repeat Game.AnimationFrame 40
  ++ [Game.KeyDown "ArrowRight" "ArrowRight"].

(** A value [Math.random()] can return. *)
Definition IsRandom (r : Q) : Prop := 0 <= r /\ r < 1.

(** The x of the lane numbered [k]. *)
Definition lane (k : Z) : Q := inject_Z k * 0.6 - 1.5.

(** [x] is the x of one of the five lanes 0..4. *)
Definition OnLane (x : Q) : Prop := exists k : Z, (0 <= k <= 4)%Z /\ x = lane k.

(** Consecutive frames of an obstacle tree with a callback, each with its
    frame time and its draw of [Math.random()]. *)
Definition treeRun
    (useFrame : bool -> Q -> Q -> ObstacleTree.Tree -> ObstacleTree.Tree * option Point)
    (inputs : list (Q * Q)) (t : ObstacleTree.Tree) : ObstacleTree.Tree :=
  fold_left (fun t input => fst (useFrame true (fst input) (snd input) t)) inputs t.

(** The group of a tree is mounted with its z in the recycling range and
    its x either [x0] or a lane. *)
Definition TreeInRange (x0 : Q) (t : ObstacleTree.Tree) : Prop :=
  exists o, ObstacleTree.treeRef t = Some o /\
            -15 <= position_z o /\ position_z o <= 120 /\
            (position_x o = x0 \/ OnLane (position_x o)).

(** [q] to the power [n]. *)
Fixpoint qpow (q : Q) (n : nat) : Q :=
  match n with
  | O => 1
  | S m => q * qpow q m
  end.

(** The z the yeti aims at in each phase, for an initial z of [iz]. *)
Definition phaseTargetZ (iz : Q) (ph : Yeti.AttackPhase) : Q :=
  match ph with
  | Yeti.APPROACH => iz + 30
  | Yeti.CHASE => -15
  | Yeti.ATTACK => 0.8
  end.

(** The yeti is mounted, behind the target of its phase, with its chase
    speed in range. *)
Definition YetiChase (iz : Q) (s : Yeti.State) : Prop :=
  exists o, Yeti.yetiRef s = Some o /\
            0.05 <= Yeti.chaseSpeed s /\ Yeti.chaseSpeed s <= 0.18 /\
            position_z o <= phaseTargetZ iz (Yeti.attackPhase s).

(** The z of the yeti's group, when mounted. *)
Definition yetiZ (s : Yeti.State) : option Q := option_map position_z (Yeti.yetiRef s).

(** The yeti after its first render and effects, the player being at [player]. *)
Definition yetiSpawned (p : Yeti.Props) (player : Point) : Yeti.State :=
  Yeti.attackingEffect p player (Yeti.initialPositionEffect p (Yeti.mount p (Yeti.init p))).

(** Frames all rendered with the props [p]. *)
Definition framesWith (p : Yeti.Props) (fs : list Yeti.Frame) : list Yeti.Event :=
  map (Yeti.AnimationFrame p) fs.

(** The initial z of the props. *)
Definition initialZ (p : Yeti.Props) : Q := snd (Yeti.initialPosition p).

(** The rendered skier sits at its target, which is the x of the latest
    render, at the height of its crash state, without roll. *)
Definition SkiierSettled (s : Skiier.State) : Prop :=
  exists o, Skiier.skiierRef s = Some o /\
            Skiier.pose_x o == Skiier.targetPositionX s /\
            Skiier.targetPositionX s = Skiier.positionX (Skiier.rendered s) /\
            Skiier.pose_y o = Skiier.groupY (Skiier.crashed (Skiier.rendered s)) /\
            Skiier.rotation_z o == 0.

(** The position after [updatePosition], as a function of the old one. *)
Definition steer (left right : bool) (prev : Q) : Q :=
  let p := if left then Qmin (prev + Game.moveSpeed) (Game.slopeWidth / 2 - 1) else prev in
  if right then Qmax (p - Game.moveSpeed) (- Game.slopeWidth / 2 + 1) else p.

(** ** Proof automation for the handlers *)

Ltac unfold_setters :=
  unfold Game.setPosition, Game.setCrashed, Game.setScore, Game.setLookBehind,
    Game.setShowYeti, Game.setShowYetiWarning, Game.setYetiAttacking, Game.setYetiCaught,
    Game.set_initialYetiPosition, Game.set_keysPressed, Game.set_obstaclePositions,
    Game.set_yetiPosition, Game.set_lastCrashTime, Game.set_yetiHasAppeared,
    Game.setTimeout, Game.set_timeouts, Game.set_now in *.

Ltac unfold_handlers :=
  unfold Game.handleKeyDown, Game.handleKeyUp, Game.handleYetiPositionUpdate,
    Game.scoreInterval, Game.yetiTriggerEffect, Game.fireTimeout, Game.runTimeout,
    Game.handleCrash, Game.handleYetiCatch in *.

(** Splits on the tests a handler makes, innermost scrutinee first. *)
Ltac split_tests :=
  repeat match goal with
         | |- context [match ?b with _ => _ end] =>
             lazymatch b with
             | context [match _ with _ => _ end] => fail
             | _ => destruct b eqn:?
             end
         end.

Ltac game_cases :=
  unfold_handlers; unfold_setters; cbn -[Z.add Z.sub Z.leb Z.ltb Qmin Qmax Qabs];
  split_tests; cbn -[Z.add Z.sub Z.leb Z.ltb Qmin Qmax Qabs] in *.

(** ** Number primitives *)

Lemma JS_lt_iff (a b : Q) : JS.lt a b = true <-> a < b.
Proof.
  unfold JS.lt. rewrite negb_true_iff.
  split; intro H.
  - apply Qnot_le_lt. intro Hle. apply Qle_bool_iff in Hle. congruence.
  - destruct (Qle_bool b a) eqn:E; [|reflexivity].
    apply Qle_bool_iff in E. exfalso. exact (Qlt_not_le _ _ H E).
Qed.

Lemma JS_lt_false_iff (a b : Q) : JS.lt a b = false <-> b <= a.
Proof.
  unfold JS.lt. rewrite negb_false_iff. apply Qle_bool_iff.
Qed.

Lemma JS_gt_iff (a b : Q) : JS.gt a b = true <-> b < a.
Proof. unfold JS.gt. apply JS_lt_iff. Qed.

(** ** Collision engine *)

Lemma hit_test_iff (playerX : Q) (o : Point) :
  (JS.lt (z o) 0 && JS.gt (z o) (- Game.COLLISION_Z_THRESHOLD)
   && JS.lt (Qabs (playerX - x o)) Game.COLLISION_DISTANCE) = true
  <-> Hits playerX o.
Proof.
  unfold Hits. rewrite !andb_true_iff, !JS_lt_iff, JS_gt_iff. tauto.
Qed.

Lemma scanObstacles_cons (playerX : Q) (o : Point) (rest : list Point) :
  Game.scanObstacles playerX (o :: rest) =
  if JS.lt (z o) 0 && JS.gt (z o) (- Game.COLLISION_Z_THRESHOLD)
     && JS.lt (Qabs (playerX - x o)) Game.COLLISION_DISTANCE
  then Some o else Game.scanObstacles playerX rest.
Proof.
  simpl.
  destruct (JS.lt (z o) 0 && JS.gt (z o) (- Game.COLLISION_Z_THRESHOLD)); simpl; reflexivity.
Qed.

Lemma scanObstacles_first_hit (playerX : Q) (positions : list Point) (o : Point) :
  Game.scanObstacles playerX positions = Some o <-> FirstHit playerX positions o.
Proof.
  induction positions as [|p rest IH].
  - simpl. split; [discriminate|].
    intros (before & after & E & _). destruct before; discriminate.
  - rewrite scanObstacles_cons.
    destruct (JS.lt (z p) 0 && JS.gt (z p) (- Game.COLLISION_Z_THRESHOLD)
              && JS.lt (Qabs (playerX - x p)) Game.COLLISION_DISTANCE) eqn:E.
    + apply hit_test_iff in E. split.
      * intros [= <-]. exists [], rest. split; [reflexivity|]. split; [assumption|constructor].
      * intros (before & after & Eq & Ho & Hb).
        destruct before as [|b before]; simpl in Eq.
        -- congruence.
        -- injection Eq as <- _. inversion Hb; subst. contradiction.
    + assert (Hp : ~ Hits playerX p).
      { intro Hp. apply hit_test_iff in Hp. congruence. }
      rewrite IH. split.
      * intros (before & after & Eq & Ho & Hb).
        exists (p :: before), after. subst rest.
        split; [reflexivity|]. split; [assumption|]. constructor; assumption.
      * intros (before & after & Eq & Ho & Hb).
        destruct before as [|b before]; simpl in Eq.
        -- injection Eq as -> _. contradiction.
        -- injection Eq as <- ->. inversion Hb; subst.
           exists before, after. split; [reflexivity|]. split; assumption.
Qed.

Lemma scanObstacles_none (playerX : Q) (positions : list Point) :
  Game.scanObstacles playerX positions = None <->
  Forall (fun o => ~ Hits playerX o) positions.
Proof.
  induction positions as [|p rest IH].
  - simpl. split; auto.
  - rewrite scanObstacles_cons.
    destruct (JS.lt (z p) 0 && JS.gt (z p) (- Game.COLLISION_Z_THRESHOLD)
              && JS.lt (Qabs (playerX - x p)) Game.COLLISION_DISTANCE) eqn:E.
    + apply hit_test_iff in E. split; [discriminate|].
      intro H. inversion H; subst. contradiction.
    + rewrite IH. split.
      * intro H. constructor; auto. intro Hp. apply hit_test_iff in Hp. congruence.
      * intro H. inversion H; auto.
Qed.

(** The tree signals of one evaluation are exactly the outcome of the scan. *)
Lemma updateObstaclePositions_tree_log (s : Game.State) (positions : list Point) :
  positions <> [] -> Evaluating s ->
  filter isTreeCrash (snd (Game.updateObstaclePositions positions s)) =
  match Game.scanObstacles (Game.position (Game.hooks s)) positions with
  | Some o => [Game.TreeCrash o]
  | None => []
  end.
Proof.
  intros Hne (Hc & Hy & Hg).
  destruct positions as [|p rest]; [congruence|].
  unfold Game.updateObstaclePositions.
  cbn [Game.set_obstaclePositions Game.hooks Game.refs Game.host Game.lastCrashTime].
  rewrite Hc, Hy. cbn [negb andb].
  destruct (Game.now (Game.host s) - Game.lastCrashTime (Game.refs s) <? 500)%Z eqn:Eg.
  { apply Z.ltb_lt in Eg. lia. }
  destruct (Game.scanObstacles (Game.position (Game.hooks s)) (p :: rest));
    destruct (Game.yetiCollides _); reflexivity.
Qed.

Lemma In_TreeCrash_filter (o : Point) (log : list Game.Signal) :
  In (Game.TreeCrash o) log <-> In (Game.TreeCrash o) (filter isTreeCrash log).
Proof.
  rewrite filter_In. simpl. tauto.
Qed.

Lemma FirstHit_In (playerX : Q) (positions : list Point) (o : Point) :
  FirstHit playerX positions o -> In o positions /\ Hits playerX o.
Proof.
  intros (before & after & -> & Ho & _). split; [|assumption].
  apply in_or_app. right. left. reflexivity.
Qed.

Lemma Hits_at_origin (playerX : Q) :
  playerX == 0 -> Hits playerX (mkPoint 0 (-1)).
Proof.
  intro E. unfold Hits, Game.COLLISION_Z_THRESHOLD, Game.COLLISION_DISTANCE. cbn [x z].
  split; [lra|]. split; [lra|].
  apply Qabs_case; intros; lra.
Qed.

Lemma misses_at_two (playerX : Q) :
  playerX == 2 -> ~ Hits playerX (mkPoint 0 (-1)).
Proof.
  intros E (_ & _ & H). unfold Game.COLLISION_DISTANCE in H. cbn [x z] in H.
  revert H. apply Qabs_case; intros; lra.
Qed.

(** C1.  When the collision engine evaluates a report (list not empty,
    player neither crashed nor caught, grace window over), [handleCrash]
    is called for an obstacle exactly when that obstacle is the first one
    of the list whose predicted z lies strictly in (-5, 0) and whose
    horizontal distance to the player is strictly below 0.8.  Hence a
    crash is signalled iff some reported obstacle qualifies, for a report
    of one obstacle iff that obstacle qualifies, and at most once per
    report (the scan stops at the first hit).  A player at x = 0 crashes
    into the obstacle (0, -1); a player at x = 2 does not. *)
Theorem C1_tree_crash_signal (s : Game.State) (positions : list Point) :
  positions <> [] -> Evaluating s ->
  let playerX := Game.position (Game.hooks s) in
  let log := snd (Game.updateObstaclePositions positions s) in
  (forall o, In (Game.TreeCrash o) log <-> FirstHit playerX positions o) /\
  ((exists o, In (Game.TreeCrash o) log) <-> Exists (Hits playerX) positions) /\
  (forall o, positions = [o] -> (In (Game.TreeCrash o) log <-> Hits playerX o)) /\
  (List.length (filter isTreeCrash log) <= 1)%nat /\
  (playerX == 0 -> positions = [mkPoint 0 (-1)] ->
   In (Game.TreeCrash (mkPoint 0 (-1))) log) /\
  (playerX == 2 -> positions = [mkPoint 0 (-1)] ->
   forall o, ~ In (Game.TreeCrash o) log).
Proof.
  intros Hne Hev playerX log.
  assert (Hlog : forall o, In (Game.TreeCrash o) log <-> FirstHit playerX positions o).
  { intro o. unfold log. rewrite In_TreeCrash_filter.
    rewrite (updateObstaclePositions_tree_log s positions Hne Hev).
    fold playerX. rewrite <- scanObstacles_first_hit.
    destruct (Game.scanObstacles playerX positions) as [o'|]; simpl.
    - split.
      + intros [[= ->]|[]]. reflexivity.
      + intros [= ->]. left. reflexivity.
    - split; [intros []|discriminate]. }
  assert (Hsingle : forall o, FirstHit playerX [o] o <-> Hits playerX o).
  { intro o. split.
    - intro H. apply FirstHit_In in H. tauto.
    - intro H. exists [], []. split; [reflexivity|]. split; [assumption|constructor]. }
  split; [exact Hlog|].
  split.
  { split.
    - intros (o & Ho). apply Hlog, FirstHit_In in Ho.
      apply Exists_exists. exists o. exact Ho.
    - intro Hex.
      destruct (Game.scanObstacles playerX positions) as [o|] eqn:E.
      + exists o. apply Hlog, scanObstacles_first_hit, E.
      + apply scanObstacles_none in E. apply Exists_exists in Hex.
        destruct Hex as (o & Hin & Ho). rewrite Forall_forall in E.
        exfalso. exact (E o Hin Ho). }
  split.
  { intros o ->. rewrite Hlog. apply Hsingle. }
  split.
  { unfold log. rewrite (updateObstaclePositions_tree_log s positions Hne Hev).
    destruct (Game.scanObstacles _ positions); simpl; lia. }
  split.
  - intros E0 Hp. rewrite Hlog. rewrite Hp. apply Hsingle. apply Hits_at_origin, E0.
  - intros E2 Hp o Hin. apply Hlog, FirstHit_In in Hin.
    rewrite Hp in Hin. destruct Hin as ([<-|[]] & Ho).
    exact (misses_at_two playerX E2 Ho).
Qed.

(** The engine run on the session's first state (page loaded at time 1000):
    the obstacle (0, -1) in front of a player at x = 0 signals a crash. *)
Lemma C1_witness :
  In (Game.TreeCrash (mkPoint 0 (-1)))
     (snd (Game.updateObstaclePositions [mkPoint 0 (-1)] (Game.init 1000))).
Proof.
  refine (proj1 (proj2 (proj2 (proj2 (proj2
    (C1_tree_crash_signal (Game.init 1000) [mkPoint 0 (-1)] _ _))))) _ _).
  - discriminate.
  - unfold Evaluating. simpl. repeat split; lia.
  - reflexivity.
  - reflexivity.
Defined.

(** Twenty frames with the left arrow held bring the player to x = 2;
    there the same obstacle is no crash. *)
Example no_crash_at_two :
  let s := Game.run (Game.init 1000)
             (Game.KeyDown "ArrowLeft" "ArrowLeft" :: repeat Game.AnimationFrame 20) in
  Game.position (Game.hooks s) == 2 /\
  Game.updateObstaclePositions [mkPoint 0 (-1)] s
  = (Game.set_obstaclePositions [mkPoint 0 (-1)] s, []).
Proof.
  vm_compute. split; reflexivity.
Qed.

(** Of two qualifying obstacles only the first is signalled. *)
Example scan_stops_at_first_hit :
  snd (Game.updateObstaclePositions
         [mkPoint 3 (-1); mkPoint 0.5 (-2); mkPoint 0 (-1)] (Game.init 1000))
  = [Game.TreeCrash (mkPoint 0.5 (-2))].
Proof. reflexivity. Qed.

(** ** Runs of the session *)

Lemma run_app (s : Game.State) (es1 es2 : list Game.Event) :
  Game.run s (es1 ++ es2) = Game.run (Game.run s es1) es2.
Proof. unfold Game.run. apply fold_left_app. Qed.

Lemma run_cons (s : Game.State) (e : Game.Event) (es : list Game.Event) :
  Game.run s (e :: es) = Game.run (Game.step s e) es.
Proof. reflexivity. Qed.

(** A property kept by every step is kept by every run. *)
Lemma run_preserves (P : Game.State -> Prop) :
  (forall s e, P s -> P (Game.step s e)) ->
  forall es s, P s -> P (Game.run s es).
Proof.
  intros Hstep es. induction es as [|e es IH]; intros s Hs.
  - exact Hs.
  - rewrite run_cons. apply IH, Hstep, Hs.
Qed.

(** ** Player controller *)

Lemma updateObstaclePositions_position (positions : list Point) (s : Game.State) :
  Game.position (Game.hooks (fst (Game.updateObstaclePositions positions s)))
  = Game.position (Game.hooks s).
Proof.
  unfold Game.updateObstaclePositions. destruct positions as [|p rest]; [reflexivity|].
  destruct s as [[] [] []]. game_cases; reflexivity.
Qed.

(** Only the animation frame moves the player. *)
Lemma step_position (s : Game.State) (e : Game.Event) :
  e <> Game.AnimationFrame ->
  Game.position (Game.hooks (Game.step s e)) = Game.position (Game.hooks s).
Proof.
  intro He. destruct e; try congruence; unfold Game.step;
    try apply updateObstaclePositions_position;
    destruct s as [[] [] []]; game_cases; reflexivity.
Qed.

Lemma slope_bounds :
  - Game.slopeWidth / 2 + 1 == -4 /\ Game.slopeWidth / 2 - 1 == 4.
Proof. split; reflexivity. Qed.

Lemma updatePosition_position (s : Game.State) :
  Game.position (Game.hooks (Game.updatePosition s)) =
  if negb (Game.crashed (Game.hooks s)) && negb (Game.yetiCaught (Game.hooks s)) then
    steer (Game.keysPressed (Game.refs s) "ArrowLeft"%string
           || Game.keysPressed (Game.refs s) "a"%string)
          (Game.keysPressed (Game.refs s) "ArrowRight"%string
           || Game.keysPressed (Game.refs s) "d"%string)
          (Game.position (Game.hooks s))
  else Game.position (Game.hooks s).
Proof.
  unfold Game.updatePosition, steer.
  destruct (negb (Game.crashed (Game.hooks s)) && negb (Game.yetiCaught (Game.hooks s)));
    [|reflexivity].
  destruct (Game.keysPressed (Game.refs s) "ArrowLeft"%string
            || Game.keysPressed (Game.refs s) "a"%string);
    destruct (Game.keysPressed (Game.refs s) "ArrowRight"%string
              || Game.keysPressed (Game.refs s) "d"%string);
    reflexivity.
Qed.

Lemma steer_bounds (left right : bool) (prev : Q) :
  -4 <= prev <= 4 ->
  -4 <= steer left right prev <= 4 /\
  Qabs (steer left right prev - prev) <= Game.moveSpeed.
Proof.
  intros [Hlo Hhi]. unfold steer.
  pose proof slope_bounds as [Elo Ehi].
  set (hi := Game.slopeWidth / 2 - 1) in *.
  set (lo := - Game.slopeWidth / 2 + 1) in *.
  unfold Game.moveSpeed.
  destruct left, right.
  - destruct (Q.min_spec (prev + 0.1) hi) as [[H1 E1]|[H1 E1]];
      destruct (Q.max_spec (Qmin (prev + 0.1) hi - 0.1) lo) as [[H2 E2]|[H2 E2]];
      (split; [lra | apply Qabs_case; intros; lra]).
  - destruct (Q.min_spec (prev + 0.1) hi) as [[H1 E1]|[H1 E1]];
      (split; [lra | apply Qabs_case; intros; lra]).
  - destruct (Q.max_spec (prev - 0.1) lo) as [[H2 E2]|[H2 E2]];
      (split; [lra | apply Qabs_case; intros; lra]).
  - split; [lra | apply Qabs_case; intros; lra].
Qed.

Lemma InBounds_iff (s : Game.State) :
  InBounds s <-> -4 <= Game.position (Game.hooks s) <= 4.
Proof.
  unfold InBounds. pose proof slope_bounds as [Elo Ehi]. rewrite Elo, Ehi. reflexivity.
Qed.

Lemma step_bounds (s : Game.State) (e : Game.Event) :
  InBounds s ->
  InBounds (Game.step s e) /\
  Qabs (Game.position (Game.hooks (Game.step s e)) - Game.position (Game.hooks s))
  <= Game.moveSpeed.
Proof.
  rewrite !InBounds_iff. intro Hb.
  assert (Hstay : forall q, q = Game.position (Game.hooks s) ->
            -4 <= q <= 4 /\ Qabs (q - Game.position (Game.hooks s)) <= Game.moveSpeed).
  { intros q ->. split; [exact Hb|].
    unfold Game.moveSpeed. apply Qabs_case; intros; lra. }
  destruct e; try (apply Hstay, step_position; discriminate).
  cbn [Game.step]. rewrite updatePosition_position.
  destruct (negb (Game.crashed (Game.hooks s)) && negb (Game.yetiCaught (Game.hooks s))).
  - apply steer_bounds, Hb.
  - apply Hstay. reflexivity.
Qed.

Lemma init_InBounds (t0 : Z) : InBounds (Game.init t0).
Proof. apply InBounds_iff. simpl. lra. Qed.

Lemma reachable_InBounds (t0 : Z) (es : list Game.Event) :
  InBounds (Game.run (Game.init t0) es).
Proof.
  apply run_preserves; [|apply init_InBounds].
  intros s e Hs. apply step_bounds, Hs.
Qed.

(** C4.  Along every run of the session from its first state, whatever
    the keys held and whatever else happens, the player's x lies in
    [-slopeWidth/2 + 1, slopeWidth/2 - 1] = [-4, 4]; and any further
    event (in particular a frame of the player controller) moves x by at
    most moveSpeed and leaves it inside these bounds. *)
Theorem C4_player_stays_on_slope (t0 : Z) (es : list Game.Event) :
  let s := Game.run (Game.init t0) es in
  InBounds s /\
  -4 <= Game.position (Game.hooks s) <= 4 /\
  forall e,
    Qabs (Game.position (Game.hooks (Game.step s e)) - Game.position (Game.hooks s))
    <= Game.moveSpeed /\
    InBounds (Game.step s e).
Proof.
  intro s. pose proof (reachable_InBounds t0 es) as Hs. fold s in Hs.
  split; [exact Hs|]. split; [apply InBounds_iff, Hs|].
  intro e. destruct (step_bounds s e Hs). split; assumption.
Qed.

(** Held against the right edge the player stops at x = 4. *)
Example clamped_at_right_edge :
  Game.position (Game.hooks (Game.run (Game.init 0)
     (Game.KeyDown "a" "KeyA" :: repeat Game.AnimationFrame 60))) == 4.
Proof. vm_compute. reflexivity. Qed.

(** ** Timeout queue *)

Lemma countTimeout_app (cb : Game.Timeout) (l1 l2 : list (Z * Game.Timeout)) :
  countTimeout cb (l1 ++ l2) = (countTimeout cb l1 + countTimeout cb l2)%nat.
Proof.
  unfold countTimeout. rewrite filter_app, length_app. reflexivity.
Qed.

Lemma countTimeout_removeNth (cb : Game.Timeout) (l : list (Z * Game.Timeout))
    (n : nat) (deadline : Z) (cb' : Game.Timeout) :
  nth_error l n = Some (deadline, cb') ->
  countTimeout cb l =
  ((if Game.Timeout_eqb cb' cb then 1 else 0) + countTimeout cb (Game.removeNth n l))%nat.
Proof.
  revert n. induction l as [|[d c] l IH]; intros n Hn.
  - destruct n; discriminate.
  - destruct n as [|n]; simpl in Hn.
    + injection Hn as -> ->. unfold countTimeout. simpl.
      destruct (Game.Timeout_eqb cb' cb); reflexivity.
    + specialize (IH n Hn). unfold countTimeout in *. simpl.
      destruct (Game.Timeout_eqb c cb); simpl; rewrite IH;
        destruct (Game.Timeout_eqb cb' cb); reflexivity.
Qed.

Lemma nth_error_snoc {A : Type} (l : list A) (a : A) :
  nth_error (l ++ [a]) (List.length l) = Some a.
Proof.
  induction l as [|b l IH]; simpl; [reflexivity|exact IH].
Qed.

Lemma removeNth_snoc {A : Type} (l : list A) (a : A) :
  Game.removeNth (List.length l) (l ++ [a]) = l.
Proof.
  induction l as [|b l IH]; simpl; [reflexivity|]. rewrite IH. reflexivity.
Qed.

(** ** Crash and recovery *)

Lemma yetiCollides_idle (s : Game.State) :
  Game.yetiAttacking (Game.hooks s) = false -> Game.yetiCollides s = false.
Proof. intro H. unfold Game.yetiCollides. rewrite H. reflexivity. Qed.

(** What an evaluation of the engine does to the session, by case. *)
Lemma updateObstaclePositions_evaluating (s : Game.State) (positions : list Point) :
  positions <> [] -> Evaluating s ->
  let s0 := Game.set_obstaclePositions positions s in
  fst (Game.updateObstaclePositions positions s) =
  let s1 := match Game.scanObstacles (Game.position (Game.hooks s)) positions with
            | Some _ => Game.handleCrash s0
            | None => s0
            end in
  if Game.yetiCollides s0 then Game.handleYetiCatch s1 else s1.
Proof.
  intros Hne (Hc & Hy & Hg).
  destruct positions as [|p rest]; [congruence|].
  unfold Game.updateObstaclePositions.
  cbn [Game.set_obstaclePositions Game.hooks Game.refs Game.host Game.lastCrashTime].
  rewrite Hc, Hy. cbn [negb andb].
  destruct (Game.now (Game.host s) - Game.lastCrashTime (Game.refs s) <? 500)%Z eqn:Eg.
  { apply Z.ltb_lt in Eg. lia. }
  destruct (Game.scanObstacles (Game.position (Game.hooks s)) (p :: rest));
    destruct (Game.yetiCollides _); reflexivity.
Qed.

(** Outside an evaluation the engine only stores the report. *)
Lemma updateObstaclePositions_skipped (s : Game.State) (positions : list Point) :
  Game.crashed (Game.hooks s) = true \/ Game.yetiCaught (Game.hooks s) = true ->
  fst (Game.updateObstaclePositions positions s) =
  match positions with
  | [] => s
  | _ => Game.set_obstaclePositions positions s
  end.
Proof.
  intro H. destruct positions as [|p rest]; [reflexivity|].
  unfold Game.updateObstaclePositions.
  cbn [Game.set_obstaclePositions Game.hooks Game.refs Game.host].
  destruct H as [-> | ->]; [|rewrite andb_false_r]; reflexivity.
Qed.

Lemma tree_signal_nonempty (s : Game.State) (positions : list Point) (o : Point) :
  In (Game.TreeCrash o) (snd (Game.updateObstaclePositions positions s)) ->
  positions <> [].
Proof.
  destruct positions; [intros []|discriminate].
Qed.

Lemma tree_signal_scan (s : Game.State) (positions : list Point) (o : Point) :
  Evaluating s ->
  In (Game.TreeCrash o) (snd (Game.updateObstaclePositions positions s)) ->
  Game.scanObstacles (Game.position (Game.hooks s)) positions = Some o.
Proof.
  intros Hev Hin. pose proof (tree_signal_nonempty _ _ _ Hin) as Hne.
  apply In_TreeCrash_filter in Hin.
  rewrite (updateObstaclePositions_tree_log s positions Hne Hev) in Hin.
  destruct (Game.scanObstacles _ positions) as [o'|]; simpl in Hin.
  - destruct Hin as [[= ->]|[]]. reflexivity.
  - destruct Hin.
Qed.

(** [handleCrash] outside a yeti attack. *)
Lemma handleCrash_effective (s : Game.State) :
  Game.yetiAttacking (Game.hooks s) = false ->
  let s1 := Game.handleCrash s in
  Game.crashed (Game.hooks s1) = true /\
  Game.score (Game.hooks s1) = 0%Z /\
  Game.lastCrashTime (Game.refs s1) = Game.now (Game.host s) /\
  Game.now (Game.host s1) = Game.now (Game.host s) /\
  Game.timeouts (Game.host s1) =
    Game.timeouts (Game.host s)
    ++ [((Game.now (Game.host s) + Game.CRASH_RECOVERY_TIME)%Z, Game.ClearCrashed)].
Proof.
  intro H. unfold Game.handleCrash. rewrite H. simpl. repeat split; reflexivity.
Qed.

(** The recovery timeout queued last runs no earlier than its delay, and
    clears [crashed] when it runs. *)
Lemma recovery_timeout (s1 : Game.State) (l : list (Z * Game.Timeout)) (ms : N) :
  Game.timeouts (Game.host s1) =
    l ++ [((Game.now (Game.host s1) + Game.CRASH_RECOVERY_TIME)%Z, Game.ClearCrashed)] ->
  let n := List.length l in
  ((Z.of_N ms < 2000)%Z ->
   Game.run s1 [Game.Elapse ms; Game.FireTimeout n] = Game.run s1 [Game.Elapse ms]) /\
  ((2000 <= Z.of_N ms)%Z ->
   Game.crashed (Game.hooks (Game.run s1 [Game.Elapse ms; Game.FireTimeout n])) = false).
Proof.
  intros Hq n. unfold Game.run. cbn [fold_left Game.step].
  unfold Game.fireTimeout.
  cbn [Game.set_now Game.host Game.timeouts Game.now].
  rewrite Hq. unfold n. rewrite nth_error_snoc. unfold Game.CRASH_RECOVERY_TIME.
  split; intro Hms.
  - destruct (_ <=? _)%Z eqn:E; [|reflexivity]. apply Z.leb_le in E. lia.
  - destruct (_ <=? _)%Z eqn:E; [reflexivity|]. apply Z.leb_gt in E. lia.
Qed.

(** C2.  When the engine signals a tree collision and the yeti is not
    attacking, the session is left crashed with score 0, the crash time
    recorded, and one more timeout queued, due CRASH_RECOVERY_TIME =
    2000 ms later; that timeout does not run before 2000 ms have elapsed
    and clears [crashed] when it runs.  When the yeti is attacking at the
    moment of the collision, [handleCrash] does nothing: score, crash
    time and timeout queue are untouched, and the session is crashed
    afterwards only if the yeti caught the player in the same
    evaluation. *)
Theorem C2_tree_collision_crash (s : Game.State) (positions : list Point) (o : Point) :
  Evaluating s ->
  In (Game.TreeCrash o) (snd (Game.updateObstaclePositions positions s)) ->
  let s0 := Game.set_obstaclePositions positions s in
  let s1 := fst (Game.updateObstaclePositions positions s) in
  let n := List.length (Game.timeouts (Game.host s)) in
  (Game.yetiAttacking (Game.hooks s) = false ->
   s1 = Game.handleCrash s0 /\
   Game.crashed (Game.hooks s1) = true /\
   Game.score (Game.hooks s1) = 0%Z /\
   Game.lastCrashTime (Game.refs s1) = Game.now (Game.host s) /\
   Game.timeouts (Game.host s1) =
     Game.timeouts (Game.host s) ++ [((Game.now (Game.host s) + 2000)%Z, Game.ClearCrashed)] /\
   forall ms : N,
     ((Z.of_N ms < 2000)%Z ->
      Game.run s1 [Game.Elapse ms; Game.FireTimeout n] = Game.run s1 [Game.Elapse ms] /\
      Game.crashed (Game.hooks (Game.run s1 [Game.Elapse ms])) = true) /\
     ((2000 <= Z.of_N ms)%Z ->
      Game.crashed (Game.hooks (Game.run s1 [Game.Elapse ms; Game.FireTimeout n])) = false))
  /\
  (Game.yetiAttacking (Game.hooks s) = true ->
   Game.handleCrash s0 = s0 /\
   Game.score (Game.hooks s1) = Game.score (Game.hooks s) /\
   Game.lastCrashTime (Game.refs s1) = Game.lastCrashTime (Game.refs s) /\
   Game.host s1 = Game.host s /\
   (Game.crashed (Game.hooks s1) = true -> Game.yetiCaught (Game.hooks s1) = true)).
Proof.
  intros Hev Hin s0 s1 n.
  pose proof (tree_signal_nonempty _ _ _ Hin) as Hne.
  pose proof (tree_signal_scan _ _ _ Hev Hin) as Hscan.
  pose proof (updateObstaclePositions_evaluating s positions Hne Hev) as Hupd.
  cbv zeta in Hupd. rewrite Hscan in Hupd. fold s0 s1 in Hupd.
  split; intro Hatt.
  - assert (Hatt0 : Game.yetiAttacking (Game.hooks s0) = false) by exact Hatt.
    rewrite (yetiCollides_idle s0 Hatt0) in Hupd.
    destruct (handleCrash_effective s0 Hatt0) as (Hc & Hs & Hl & Hn & Hq).
    rewrite <- Hupd in Hc, Hs, Hl, Hn, Hq.
    change (Game.now (Game.host s0)) with (Game.now (Game.host s)) in *.
    change (Game.timeouts (Game.host s0)) with (Game.timeouts (Game.host s)) in *.
    split; [exact Hupd|]. split; [exact Hc|]. split; [exact Hs|]. split; [exact Hl|].
    split; [exact Hq|].
    intro ms. rewrite <- Hn in Hq.
    destruct (recovery_timeout s1 (Game.timeouts (Game.host s)) ms Hq) as [Hearly Hdue].
    fold n in Hearly, Hdue.
    split; [|exact Hdue].
    intro Hms. split; [exact (Hearly Hms)|exact Hc].
  - assert (Hnoop : Game.handleCrash s0 = s0).
    { unfold Game.handleCrash.
      change (Game.yetiAttacking (Game.hooks s0)) with (Game.yetiAttacking (Game.hooks s)).
      rewrite Hatt. reflexivity. }
    rewrite Hnoop in Hupd.
    destruct Hev as (Hc & Hy & _).
    split; [exact Hnoop|].
    destruct (Game.yetiCollides s0); rewrite Hupd.
    + repeat split; reflexivity.
    + repeat split; try reflexivity.
      change (Game.crashed (Game.hooks s0)) with (Game.crashed (Game.hooks s)).
      congruence.
Qed.

(** The first state of a session (page loaded at time 1000) hit by the
    obstacle (0, -1): crashed, and recovered 2000 ms later. *)
Lemma C2_witness :
  let s1 := fst (Game.updateObstaclePositions [mkPoint 0 (-1)] (Game.init 1000)) in
  Game.crashed (Game.hooks s1) = true /\
  Game.score (Game.hooks s1) = 0%Z /\
  Game.lastCrashTime (Game.refs s1) = 1000%Z /\
  Game.crashed (Game.hooks (Game.run s1 [Game.Elapse 2000; Game.FireTimeout 0])) = false.
Proof.
  assert (Hev : Evaluating (Game.init 1000)).
  { unfold Evaluating. simpl. repeat split; lia. }
  assert (Hin : In (Game.TreeCrash (mkPoint 0 (-1)))
                   (snd (Game.updateObstaclePositions [mkPoint 0 (-1)] (Game.init 1000)))).
  { left. reflexivity. }
  destruct (C2_tree_collision_crash (Game.init 1000) [mkPoint 0 (-1)] (mkPoint 0 (-1)) Hev Hin)
    as [Hidle _].
  destruct (Hidle eq_refl) as (_ & Hc & Hs & Hl & _ & Hrec).
  intro s1. split; [exact Hc|]. split; [exact Hs|]. split; [exact Hl|].
  apply (Hrec 2000%N). simpl. lia.
Defined.

(** ** Crash bookkeeping is an invariant of the session *)

Lemma init_CrashInv (t0 : Z) : CrashInv (Game.init t0).
Proof.
  constructor; simpl.
  - unfold pending, countTimeout. simpl. lia.
  - reflexivity.
  - discriminate.
Qed.

Lemma CrashInv_view (s s' : Game.State) :
  crashView s' = crashView s -> CrashInv s -> CrashInv s'.
Proof.
  unfold crashView. intros [= Hc Hy Hp] [H1 H2 H3].
  constructor; rewrite ?Hc, ?Hy, ?Hp; assumption.
Qed.

Lemma handleCrash_view (s : Game.State) :
  Game.yetiAttacking (Game.hooks s) = false ->
  crashView (Game.handleCrash s)
  = (true, Game.yetiCaught (Game.hooks s), S (pending Game.ClearCrashed s)).
Proof.
  intro H. unfold Game.handleCrash. rewrite H. unfold crashView, pending. simpl.
  rewrite countTimeout_app. unfold countTimeout at 2. simpl.
  f_equal. lia.
Qed.

Lemma updateObstaclePositions_CrashInv (positions : list Point) (s : Game.State) :
  CrashInv s -> CrashInv (fst (Game.updateObstaclePositions positions s)).
Proof.
  intros Hinv.
  destruct (Game.crashed (Game.hooks s)) eqn:Hc.
  { rewrite updateObstaclePositions_skipped by (left; exact Hc).
    destruct positions; [exact Hinv|]. apply (CrashInv_view s); [reflexivity|exact Hinv]. }
  destruct (Game.yetiCaught (Game.hooks s)) eqn:Hy.
  { rewrite updateObstaclePositions_skipped by (right; exact Hy).
    destruct positions; [exact Hinv|]. apply (CrashInv_view s); [reflexivity|exact Hinv]. }
  destruct positions as [|p rest]; [exact Hinv|].
  destruct (Game.now (Game.host s) - Game.lastCrashTime (Game.refs s) <? 500)%Z eqn:Hg.
  { unfold Game.updateObstaclePositions.
    cbn [Game.set_obstaclePositions Game.hooks Game.refs Game.host Game.lastCrashTime].
    rewrite Hc, Hy, Hg. apply (CrashInv_view s); [reflexivity|exact Hinv]. }
  apply Z.ltb_ge in Hg.
  rewrite updateObstaclePositions_evaluating;
    [|discriminate|repeat split; [assumption|assumption|lia]].
  cbv zeta. set (s0 := Game.set_obstaclePositions (p :: rest) s).
  assert (Hv0 : crashView s0 = crashView s) by reflexivity.
  pose proof (inv_idle s Hinv Hc) as Hp0.
  destruct (Game.yetiAttacking (Game.hooks s)) eqn:Hatt.
  - (* mid-attack: [handleCrash] is void, the yeti may catch *)
    assert (Hnoop : Game.handleCrash s0 = s0).
    { unfold Game.handleCrash.
      change (Game.yetiAttacking (Game.hooks s0)) with (Game.yetiAttacking (Game.hooks s)).
      rewrite Hatt. reflexivity. }
    rewrite Hnoop.
    assert (Hs1 : match Game.scanObstacles (Game.position (Game.hooks s)) (p :: rest) with
                  | Some _ => s0 | None => s0 end = s0)
      by (destruct (Game.scanObstacles _ _); reflexivity).
    rewrite Hs1.
    destruct (Game.yetiCollides s0).
    + constructor; simpl.
      * change (pending Game.ClearCrashed s <= 1)%nat. lia.
      * discriminate.
      * intros _. split; [reflexivity|exact Hp0].
    + exact (CrashInv_view s _ Hv0 Hinv).
  - rewrite (yetiCollides_idle s0) by exact Hatt.
    destruct (Game.scanObstacles _ _).
    + pose proof (handleCrash_view s0 Hatt) as Hv.
      unfold crashView in Hv. injection Hv as Hc1 Hy1 Hp1.
      change (Game.yetiCaught (Game.hooks s0)) with (Game.yetiCaught (Game.hooks s)) in Hy1.
      change (pending Game.ClearCrashed s0) with (pending Game.ClearCrashed s) in Hp1.
      constructor; rewrite ?Hc1, ?Hy1, ?Hp1, ?Hp0, ?Hy; try discriminate. lia.
    + exact (CrashInv_view s _ Hv0 Hinv).
Qed.

Lemma fireTimeout_CrashInv (n : nat) (s : Game.State) :
  CrashInv s -> CrashInv (Game.fireTimeout n s).
Proof.
  intros Hinv. unfold Game.fireTimeout.
  destruct (nth_error (Game.timeouts (Game.host s)) n) as [[deadline cb]|] eqn:Hn;
    [|exact Hinv].
  destruct (deadline <=? Game.now (Game.host s))%Z; [|exact Hinv].
  pose proof (countTimeout_removeNth Game.ClearCrashed _ _ _ _ Hn) as Hcount.
  fold (pending Game.ClearCrashed s) in Hcount.
  destruct Hinv as [H1 H2 H3].
  destruct cb; simpl in Hcount.
  - (* the recovery timeout: it was the only one, and the player is not caught *)
    constructor; unfold pending; simpl.
    + lia.
    + intros _. lia.
    + intro Hy. destruct (H3 Hy) as [_ H0]. lia.
  - constructor; unfold pending; simpl; rewrite <- Hcount; assumption.
  - constructor; unfold pending; simpl; rewrite <- Hcount; assumption.
Qed.

Lemma yetiTriggerEffect_view (s : Game.State) :
  crashView (Game.yetiTriggerEffect s) = crashView s.
Proof.
  unfold Game.yetiTriggerEffect.
  destruct (_ && _); [|reflexivity].
  unfold crashView, pending. simpl.
  rewrite !countTimeout_app. unfold countTimeout. simpl.
  f_equal. lia.
Qed.

Lemma step_CrashInv (s : Game.State) (e : Game.Event) :
  CrashInv s -> CrashInv (Game.step s e).
Proof.
  intro Hinv. destruct e; cbn [Game.step].
  - apply (CrashInv_view s); [|exact Hinv].
    unfold Game.handleKeyDown. destruct (String.eqb code "Space"); reflexivity.
  - apply (CrashInv_view s); [|exact Hinv].
    unfold Game.handleKeyUp. destruct (String.eqb code "Space"); reflexivity.
  - apply (CrashInv_view s); [|exact Hinv].
    unfold Game.updatePosition. repeat (destruct (_ : bool); try reflexivity).
  - apply updateObstaclePositions_CrashInv, Hinv.
  - apply (CrashInv_view s); [reflexivity|exact Hinv].
  - apply (CrashInv_view s); [|exact Hinv].
    unfold Game.scoreInterval. destruct (_ && _); reflexivity.
  - exact (CrashInv_view s _ (yetiTriggerEffect_view s) Hinv).
  - apply (CrashInv_view s); [reflexivity|exact Hinv].
  - apply fireTimeout_CrashInv, Hinv.
Qed.

Lemma reachable_CrashInv (t0 : Z) (es : list Game.Event) :
  CrashInv (Game.run (Game.init t0) es).
Proof.
  apply run_preserves; [exact step_CrashInv|apply init_CrashInv].
Qed.

(** ** The caught state is terminal *)

Lemma yeti_signal_caught (positions : list Point) (s : Game.State) :
  In Game.YetiCatch (snd (Game.updateObstaclePositions positions s)) ->
  Game.yetiCaught (Game.hooks (fst (Game.updateObstaclePositions positions s))) = true /\
  Game.crashed (Game.hooks (fst (Game.updateObstaclePositions positions s))) = true.
Proof.
  unfold Game.updateObstaclePositions.
  destruct positions as [|p rest]; [intros []|].
  destruct (negb _ && negb _); [|intros []].
  destruct (_ <? 500)%Z; [intros []|].
  destruct (Game.scanObstacles _ _); destruct (Game.yetiCollides _); simpl;
    intro H; try (split; reflexivity);
    repeat (destruct H as [H|H]; try discriminate H); destruct H.
Qed.

Lemma pending_nth_error (cb : Game.Timeout) (s : Game.State) (n : nat) (deadline : Z) :
  nth_error (Game.timeouts (Game.host s)) n = Some (deadline, cb) ->
  (1 <= pending cb s)%nat.
Proof.
  intro Hn. unfold pending.
  rewrite (countTimeout_removeNth cb _ _ _ _ Hn).
  destruct cb; simpl; lia.
Qed.

(** Score and flags of a caught session survive every event. *)
Lemma caught_step (s : Game.State) (e : Game.Event) :
  CrashInv s -> Game.yetiCaught (Game.hooks s) = true ->
  Game.yetiCaught (Game.hooks (Game.step s e)) = true /\
  Game.crashed (Game.hooks (Game.step s e)) = true /\
  Game.score (Game.hooks (Game.step s e)) = Game.score (Game.hooks s).
Proof.
  intros Hinv Hy. destruct (inv_caught s Hinv Hy) as [Hc Hp].
  assert (Hsame : forall s', Game.hooks s' = Game.hooks s ->
            Game.yetiCaught (Game.hooks s') = true /\
            Game.crashed (Game.hooks s') = true /\
            Game.score (Game.hooks s') = Game.score (Game.hooks s)).
  { intros s' ->. repeat split; assumption. }
  destruct e; cbn [Game.step].
  - unfold Game.handleKeyDown. destruct (String.eqb code "Space"); simpl;
      repeat split; assumption.
  - unfold Game.handleKeyUp. destruct (String.eqb code "Space"); simpl;
      repeat split; assumption.
  - unfold Game.updatePosition. rewrite Hc. apply Hsame. reflexivity.
  - rewrite updateObstaclePositions_skipped by (right; exact Hy).
    apply Hsame. destruct positions; reflexivity.
  - apply Hsame. reflexivity.
  - unfold Game.scoreInterval. rewrite Hc. apply Hsame. reflexivity.
  - unfold Game.yetiTriggerEffect. destruct (_ && _); simpl; repeat split; assumption.
  - apply Hsame. reflexivity.
  - unfold Game.fireTimeout.
    destruct (nth_error (Game.timeouts (Game.host s)) n) as [[deadline cb]|] eqn:Hn;
      [|apply Hsame; reflexivity].
    destruct (deadline <=? Game.now (Game.host s))%Z; [|apply Hsame; reflexivity].
    destruct cb.
    + apply pending_nth_error in Hn. lia.
    + simpl. repeat split; assumption.
    + simpl. repeat split; assumption.
Qed.

Lemma caught_run (es : list Game.Event) (s : Game.State) :
  CrashInv s -> Game.yetiCaught (Game.hooks s) = true ->
  CrashInv (Game.run s es) /\
  Game.yetiCaught (Game.hooks (Game.run s es)) = true /\
  Game.crashed (Game.hooks (Game.run s es)) = true /\
  Game.score (Game.hooks (Game.run s es)) = Game.score (Game.hooks s).
Proof.
  revert s. induction es as [|e es IH]; intros s Hinv Hy.
  - destruct (inv_caught s Hinv Hy) as [Hc _].
    split; [exact Hinv|]. split; [exact Hy|]. split; [exact Hc|reflexivity].
  - rewrite run_cons.
    destruct (caught_step s e Hinv Hy) as (Hy' & _ & Hs').
    destruct (IH (Game.step s e) (step_CrashInv s e Hinv) Hy') as (Hi & H1 & H2 & H3).
    split; [exact Hi|]. split; [exact H1|]. split; [exact H2|congruence].
Qed.

(** C3.  In every session, a catch signalled by the engine leaves
    [yetiCaught] and [crashed] both true; and from any reached state in
    which the player is caught, no recovery timeout is pending and, after
    any further sequence of events (frames, score ticks, timeouts, key
    strokes, effects), [yetiCaught] and [crashed] are still true, the score
    is the one at the catch and still no recovery timeout is pending. *)
Theorem C3_caught_is_terminal (t0 : Z) (es0 es : list Game.Event) (positions : list Point) :
  let s := Game.run (Game.init t0) es0 in
  (In Game.YetiCatch (snd (Game.updateObstaclePositions positions s)) ->
   Game.yetiCaught (Game.hooks (Game.step s (Game.UpdateObstacles positions))) = true /\
   Game.crashed (Game.hooks (Game.step s (Game.UpdateObstacles positions))) = true) /\
  (Game.yetiCaught (Game.hooks s) = true ->
   Game.crashed (Game.hooks s) = true /\
   pending Game.ClearCrashed s = 0%nat /\
   Game.yetiCaught (Game.hooks (Game.run s es)) = true /\
   Game.crashed (Game.hooks (Game.run s es)) = true /\
   Game.score (Game.hooks (Game.run s es)) = Game.score (Game.hooks s) /\
   pending Game.ClearCrashed (Game.run s es) = 0%nat).
Proof.
  intro s. split.
  - apply yeti_signal_caught.
  - intro Hy.
    pose proof (reachable_CrashInv t0 es0) as Hinv. fold s in Hinv.
    destruct (inv_caught s Hinv Hy) as [Hc Hp].
    destruct (caught_run es s Hinv Hy) as (Hinv' & Hy' & Hc' & Hs').
    destruct (inv_caught _ Hinv' Hy') as [_ Hp'].
    repeat split; assumption.
Qed.

(** After the catch, neither score ticks nor timeouts nor a tree in the
    player's way change the outcome. *)
Lemma C3_witness :
  let s := Game.run (Game.init 0) caughtSession in
  let s' := Game.run s [Game.ScoreInterval; Game.FireTimeout 0; Game.Elapse 9000;
                        Game.UpdateObstacles [mkPoint 0 (-1)]; Game.ScoreInterval] in
  Game.yetiCaught (Game.hooks s) = true /\
  Game.yetiCaught (Game.hooks s') = true /\
  Game.crashed (Game.hooks s') = true /\
  Game.score (Game.hooks s') = 50%Z.
Proof.
  intros s s'.
  assert (Hy : Game.yetiCaught (Game.hooks s) = true) by (vm_compute; reflexivity).
  destruct (C3_caught_is_terminal 0 caughtSession
              [Game.ScoreInterval; Game.FireTimeout 0; Game.Elapse 9000;
               Game.UpdateObstacles [mkPoint 0 (-1)]; Game.ScoreInterval] []) as [_ H].
  destruct (H Hy) as (_ & _ & Hy' & Hc' & Hs' & _).
  split; [exact Hy|]. split; [exact Hy'|]. split; [exact Hc'|].
  transitivity (Game.score (Game.hooks s)); [exact Hs'|vm_compute; reflexivity].
Defined.

(** ** The yeti is summoned once *)

Lemma updateObstaclePositions_trigger_refs (positions : list Point) (s : Game.State) :
  let s' := fst (Game.updateObstaclePositions positions s) in
  Game.yetiHasAppeared (Game.refs s') = Game.yetiHasAppeared (Game.refs s) /\
  Game.initialYetiPosition (Game.refs s') = Game.initialYetiPosition (Game.refs s).
Proof.
  unfold Game.updateObstaclePositions. destruct positions as [|p rest].
  - split; reflexivity.
  - destruct s as [[] [] []]. game_cases; split; reflexivity.
Qed.

(** No event but the trigger effect writes the two refs of the trigger. *)
Lemma step_trigger_refs (s : Game.State) (e : Game.Event) :
  e <> Game.YetiTriggerEffect ->
  Game.yetiHasAppeared (Game.refs (Game.step s e)) = Game.yetiHasAppeared (Game.refs s) /\
  Game.initialYetiPosition (Game.refs (Game.step s e))
  = Game.initialYetiPosition (Game.refs s).
Proof.
  intro He. destruct e; try congruence; cbn [Game.step];
    try apply updateObstaclePositions_trigger_refs;
    unfold Game.updatePosition;
    destruct s as [[] [] []]; game_cases; split; reflexivity.
Qed.

Lemma yetiTriggerEffect_idle (s : Game.State) :
  Game.yetiHasAppeared (Game.refs s) = true -> Game.yetiTriggerEffect s = s.
Proof.
  intro H. unfold Game.yetiTriggerEffect. rewrite H, andb_false_r. reflexivity.
Qed.

Lemma yetiTriggerEffect_fires (s : Game.State) :
  triggerFires s = true ->
  let s1 := Game.yetiTriggerEffect s in
  Game.showYetiWarning (Game.hooks s1) = true /\
  Game.timeouts (Game.host s1) =
    Game.timeouts (Game.host s)
    ++ [((Game.now (Game.host s) + 3000)%Z, Game.HideYetiWarning);
        ((Game.now (Game.host s) + Game.YETI_ATTACK_DELAY)%Z, Game.StartYetiAttack)] /\
  Game.initialYetiPosition (Game.refs s1) = (Game.position (Game.hooks s), 0, -120) /\
  Game.yetiHasAppeared (Game.refs s1) = true.
Proof.
  unfold triggerFires, Game.yetiTriggerEffect. intros ->. simpl.
  rewrite <- app_assoc. repeat split; reflexivity.
Qed.

Lemma appeared_step (s : Game.State) (e : Game.Event) :
  Game.yetiHasAppeared (Game.refs s) = true ->
  Game.yetiHasAppeared (Game.refs (Game.step s e)) = true /\
  Game.initialYetiPosition (Game.refs (Game.step s e))
  = Game.initialYetiPosition (Game.refs s).
Proof.
  intro H.
  assert (Hd : e = Game.YetiTriggerEffect \/ e <> Game.YetiTriggerEffect)
    by (destruct e; (left; reflexivity) || (right; discriminate)).
  destruct Hd as [-> | He].
  - cbn [Game.step]. rewrite yetiTriggerEffect_idle by exact H. split; [exact H|reflexivity].
  - destruct (step_trigger_refs s e He) as [H1 H2]. rewrite H1, H2. split; [exact H|reflexivity].
Qed.

Lemma appeared_run (es : list Game.Event) (s : Game.State) :
  Game.yetiHasAppeared (Game.refs s) = true ->
  Game.yetiHasAppeared (Game.refs (Game.run s es)) = true /\
  Game.initialYetiPosition (Game.refs (Game.run s es))
  = Game.initialYetiPosition (Game.refs s) /\
  triggerCount s es = 0%nat.
Proof.
  revert s. induction es as [|e es IH]; intros s H.
  - repeat split; [exact H].
  - destruct (appeared_step s e H) as [H1 H2].
    destruct (IH (Game.step s e) H1) as (I1 & I2 & I3).
    rewrite run_cons. split; [exact I1|]. split; [congruence|].
    cbn [triggerCount]. rewrite I3. unfold triggerFires. rewrite H, andb_false_r.
    destruct e; reflexivity.
Qed.

Lemma triggerCount_le_1 (es : list Game.Event) (s : Game.State) :
  (triggerCount s es <= 1)%nat.
Proof.
  revert s. induction es as [|e es IH]; intro s; cbn [triggerCount]; [lia|].
  assert (Hrest : (triggerCount (Game.step s e) es <= 1)%nat) by apply IH.
  destruct e; try (simpl; exact Hrest).
  destruct (triggerFires s) eqn:Hf; [|simpl; exact Hrest].
  destruct (yetiTriggerEffect_fires s Hf) as (_ & _ & _ & Happ).
  destruct (appeared_run es (Game.step s Game.YetiTriggerEffect) Happ) as (_ & _ & ->).
  lia.
Qed.

(** In that session the score is back at the threshold at the second
    crossing, with the player elsewhere than at the first. *)
Example crossingAgain_crosses :
  let s1 := Game.run (Game.init 1000) firstCrossing in
  let s2 := Game.run s1 crossingAgain in
  Game.score (Game.hooks s2) = 50%Z /\
  Game.position (Game.hooks s1) == 1 /\ Game.position (Game.hooks s2) == 0 /\
  Game.showYeti (Game.hooks s2) = false /\
  List.length (Game.timeouts (Game.host s2)) = 2%nat.
Proof. vm_compute. repeat split; reflexivity. Qed.

(** ** Obstacle trees: advance and predicted position *)

Lemma predictionFactor_bands (d : Q) :
  (d < 5 -> ObstacleTree.predictionFactor d = 0.2) /\
  (5 <= d -> d < 15 -> ObstacleTree.predictionFactor d = 0.5) /\
  (15 <= d -> ObstacleTree.predictionFactor d = 1.0).
Proof.
  unfold ObstacleTree.predictionFactor.
  destruct (JS.lt d 5) eqn:E5; [apply JS_lt_iff in E5|apply JS_lt_false_iff in E5];
    (destruct (JS.lt d 15) eqn:E15; [apply JS_lt_iff in E15|apply JS_lt_false_iff in E15]);
    repeat split; intros; try reflexivity; exfalso; lra.
Qed.

Lemma predictionFactor_range (d : Q) :
  0.2 <= ObstacleTree.predictionFactor d <= 1.
Proof.
  unfold ObstacleTree.predictionFactor.
  destruct (JS.lt d 5); [lra|]. destruct (JS.lt d 15); lra.
Qed.

(** A mounted tree with a callback reports its x and the predicted z. *)
Lemma advance_report (reset : ObstacleTree.Tree -> ObstacleTree.Tree) (move : Q)
    (t : ObstacleTree.Tree) (o : Object3D) :
  ObstacleTree.treeRef t = Some o ->
  snd (ObstacleTree.advance reset true move t) =
  Some (mkPoint (position_x o)
          (position_z o - move
           - move * ObstacleTree.predictionFactor (Qabs (position_z o - move)))).
Proof.
  intro H. unfold ObstacleTree.advance. rewrite H.
  cbn [position_x position_y position_z scale_y ObstacleTree.position
       ObstacleTree.treeRef ObstacleTree.lastPositionRef].
  destruct (JS.lt (position_z o - move) (-15)); reflexivity.
Qed.

(** The tree after the frame: advanced, or recycled by [reset]. *)
Lemma advance_tree (reset : ObstacleTree.Tree -> ObstacleTree.Tree) (move : Q)
    (t : ObstacleTree.Tree) (o : Object3D) :
  ObstacleTree.treeRef t = Some o ->
  let o1 := mkObject3D (position_x o) (position_y o) (position_z o - move) (scale_y o) in
  let p := mkPoint (position_x o)
             (position_z o - move
              - move * ObstacleTree.predictionFactor (Qabs (position_z o - move))) in
  let t1 := ObstacleTree.mkTree (ObstacleTree.position t) (Some o1) p in
  fst (ObstacleTree.advance reset true move t) =
  if JS.lt (position_z o - move) (-15) then reset t1 else t1.
Proof.
  intro H. unfold ObstacleTree.advance. rewrite H.
  cbn [position_x position_y position_z scale_y ObstacleTree.position
       ObstacleTree.treeRef ObstacleTree.lastPositionRef].
  destruct (JS.lt (position_z o - move) (-15)); reflexivity.
Qed.

Lemma prediction_behind (currentZ move factor : Q) :
  0.2 <= factor <= 1 ->
  (0 <= move -> currentZ - move * factor <= currentZ) /\
  (0 < move -> currentZ - move * factor < currentZ).
Proof.
  intros [Hlo Hhi]. split; intro Hm.
  - assert (0 <= move * factor) by (apply Qmult_le_0_compat; lra). lra.
  - assert (0 < move * factor) by (apply Qmult_lt_0_compat; lra). lra.
Qed.

Lemma moveAmount_sign (delta : Q) :
  (0 <= delta -> 0 <= ObstacleTree.moveAmount delta) /\
  (0 < delta -> 0 < ObstacleTree.moveAmount delta).
Proof.
  unfold ObstacleTree.moveAmount, ObstacleTree.SLOPE_SPEED. split; intro; lra.
Qed.

Lemma smoothDelta_sign (delta : Q) :
  (0 <= delta -> 0 <= ObstacleTreeCapped.smoothDelta delta) /\
  (0 < delta -> 0 < ObstacleTreeCapped.smoothDelta delta) /\
  ObstacleTreeCapped.smoothDelta delta <= 0.05.
Proof.
  unfold ObstacleTreeCapped.smoothDelta.
  destruct (Q.min_spec delta 0.05) as [[H E]|[H E]]; rewrite E;
    repeat split; intros; lra.
Qed.

Lemma moveAmount_capped_sign (delta : Q) :
  (0 <= delta -> 0 <= ObstacleTreeCapped.moveAmount delta) /\
  (0 < delta -> 0 < ObstacleTreeCapped.moveAmount delta).
Proof.
  unfold ObstacleTreeCapped.moveAmount, ObstacleTree.SLOPE_SPEED.
  destruct (smoothDelta_sign delta) as (H0 & H1 & _).
  split; intro H; [specialize (H0 H)|specialize (H1 H)]; lra.
Qed.

Lemma ReportsPrediction_first (delta rand : Q) (t : ObstacleTree.Tree) (o : Object3D) :
  ObstacleTree.treeRef t = Some o ->
  ReportsPrediction ObstacleTree.useFrame ObstacleTree.moveAmount delta rand t o.
Proof.
  intro H. unfold ReportsPrediction, ObstacleTree.useFrame. cbv zeta.
  set (move := ObstacleTree.moveAmount delta).
  set (currentZ := position_z o - move).
  pose proof (predictionFactor_bands (Qabs currentZ)) as (B1 & B2 & B3).
  pose proof (prediction_behind currentZ move _ (predictionFactor_range (Qabs currentZ)))
    as [Hle Hlt].
  pose proof (moveAmount_sign delta) as [M0 M1]. fold move in M0, M1.
  split; [exact (advance_report _ move t o H)|].
  split; [exact B1|]. split; [exact B2|]. split; [exact B3|].
  split.
  - intro Hd. specialize (Hle (M0 Hd)). specialize (M0 Hd).
    split; [exact Hle|]. split; [unfold currentZ in *; lra|].
    rewrite (advance_tree _ move t o H). cbv zeta. fold currentZ.
    destruct (JS.lt currentZ (-15)); eexists; (split; [reflexivity|exact Hle]).
  - intro Hd. exact (Hlt (M1 Hd)).
Qed.

Lemma ReportsPrediction_capped (delta rand : Q) (t : ObstacleTree.Tree) (o : Object3D) :
  ObstacleTree.treeRef t = Some o ->
  ReportsPrediction ObstacleTreeCapped.useFrame ObstacleTreeCapped.moveAmount delta rand t o.
Proof.
  intro H. unfold ReportsPrediction, ObstacleTreeCapped.useFrame. cbv zeta.
  set (move := ObstacleTreeCapped.moveAmount delta).
  set (currentZ := position_z o - move).
  pose proof (predictionFactor_bands (Qabs currentZ)) as (B1 & B2 & B3).
  pose proof (prediction_behind currentZ move _ (predictionFactor_range (Qabs currentZ)))
    as [Hle Hlt].
  pose proof (moveAmount_capped_sign delta) as [M0 M1]. fold move in M0, M1.
  split; [exact (advance_report _ move t o H)|].
  split; [exact B1|]. split; [exact B2|]. split; [exact B3|].
  split.
  - intro Hd. specialize (Hle (M0 Hd)). specialize (M0 Hd).
    split; [exact Hle|]. split; [unfold currentZ in *; lra|].
    rewrite (advance_tree _ move t o H). cbv zeta. fold currentZ.
    destruct (JS.lt currentZ (-15)) eqn:E.
    + apply JS_lt_iff in E. eexists. split; [reflexivity|].
      cbn [position_z]. unfold ObstacleTree.OBSTACLE_SPAWN_DISTANCE. lra.
    + eexists. split; [reflexivity|exact Hle].
  - intro Hd. exact (Hlt (M1 Hd)).
Qed.

(** C7.  In both revisions of the component, a frame of a mounted tree
    that was given a callback reports the tree's x together with
    predicted z = z - advance * predictionFactor, where z is the tree's z
    after this frame's advance and predictionFactor is 0.2 when |z| < 5,
    0.5 when 5 <= |z| < 15 and 1.0 otherwise.  For a nonnegative delta the
    reported z is at most the tree's z (before the advance, after it, and
    as the frame leaves it); for a positive delta it is strictly below the
    advanced z, so it is not the raw z. *)
Theorem C7_predicted_position (delta rand : Q) (t : ObstacleTree.Tree) (o : Object3D) :
  ObstacleTree.treeRef t = Some o ->
  ReportsPrediction ObstacleTree.useFrame ObstacleTree.moveAmount delta rand t o /\
  ReportsPrediction ObstacleTreeCapped.useFrame ObstacleTreeCapped.moveAmount delta rand t o.
Proof.
  intro H. split.
  - apply ReportsPrediction_first, H.
  - apply ReportsPrediction_capped, H.
Qed.

(** A tree at z = 10.4 seen 1/60 s later: it advances by 0.4 to z = 10
    (middle band) and reports z = 10 - 0.4 * 0.5 = 9.8. *)
Lemma C7_witness :
  let t := ObstacleTree.mkTree (1, 0, 120) (Some (mkObject3D 1 0 10.4 1)) (mkPoint 0 120) in
  exists p, snd (ObstacleTreeCapped.useFrame true (1 # 60) 0.5 t) = Some p /\
            x p = 1 /\ z p == 9.8.
Proof.
  intro t.
  destruct (C7_predicted_position (1 # 60) 0.5 t (mkObject3D 1 0 10.4 1) eq_refl)
    as [_ (Hrep & _)].
  eexists. split; [exact Hrep|]. split; [reflexivity|vm_compute; reflexivity].
Defined.

Example tree_bands :
  ObstacleTree.predictionFactor (Qabs (-3)) = 0.2 /\
  ObstacleTree.predictionFactor (Qabs 5) = 0.5 /\
  ObstacleTree.predictionFactor (Qabs (-15)) = 1.0 /\
  ObstacleTree.predictionFactor (Qabs 120) = 1.0.
Proof. repeat split; reflexivity. Qed.

(** ** Frame-time cap *)

(** The capped revision of the tree never advances by more than
    SLOPE_SPEED * 0.05 * 60 in a frame. *)
Lemma moveAmount_capped_bound (delta : Q) :
  ObstacleTreeCapped.moveAmount delta <= ObstacleTree.SLOPE_SPEED * 0.05 * 60.
Proof.
  unfold ObstacleTreeCapped.moveAmount, ObstacleTree.SLOPE_SPEED.
  destruct (smoothDelta_sign delta) as (_ & _ & H). lra.
Qed.

(** The yeti blends with a capped frame time as well. *)
Lemma yeti_smoothDelta_bound (delta : Q) :
  Yeti.smoothDelta delta <= 0.05 /\
  (0 <= delta -> 0 <= Yeti.smoothDelta delta) /\
  0.05 * Yeti.smoothDelta delta * 60 <= 0.05 * 0.05 * 60.
Proof.
  unfold Yeti.smoothDelta.
  destruct (Q.min_spec delta 0.05) as [[H E]|[H E]]; rewrite E;
    repeat split; intros; lra.
Qed.

(** C5.  The frame callback of [src/components/ObstacleTree.tsx] uses the
    elapsed time uncapped: after a one-second frame (delta = 1) the tree
    advances by 0.4 * 1 * 60 = 24, twenty times the bound
    SLOPE_SPEED * 0.05 * 60 = 1.2, and a tree at z = 120 is moved to
    z = 96.  The capped revision of the component keeps the bound for
    every delta, and so does the yeti's frame time. *)
Theorem C5_uncapped_tree_advance :
  ObstacleTree.moveAmount 1 == 24 /\
  ObstacleTree.SLOPE_SPEED * 0.05 * 60 == 1.2 /\
  ~ ObstacleTree.moveAmount 1 <= ObstacleTree.SLOPE_SPEED * 0.05 * 60 /\
  (exists t' o' p,
     ObstacleTree.useFrame true 1 0 (ObstacleTree.mount ObstacleTree.init)
     = (t', Some p) /\
     ObstacleTree.treeRef t' = Some o' /\ position_z o' == 96 /\ z p == 72) /\
  (forall delta,
     ObstacleTreeCapped.moveAmount delta <= ObstacleTree.SLOPE_SPEED * 0.05 * 60) /\
  (forall delta, Yeti.smoothDelta delta <= 0.05).
Proof.
  split; [reflexivity|]. split; [reflexivity|].
  split; [intro H; vm_compute in H; apply H; reflexivity|].
  split.
  - eexists. eexists. eexists. split; [vm_compute; reflexivity|].
    split; [reflexivity|]. split; reflexivity.
  - split; [exact moveAmount_capped_bound|]. intro delta. apply yeti_smoothDelta_bound.
Qed.

(** ** Yeti: frames *)

Section YetiFrames.

Variable sin : Q -> Q.

Lemma yeti_run_app (s : Yeti.State) (es1 es2 : list Yeti.Event) :
  Yeti.run sin s (es1 ++ es2) = Yeti.run sin (Yeti.run sin s es1) es2.
Proof. unfold Yeti.run. apply fold_left_app. Qed.

(** The phase a frame leaves, by case. *)
Lemma useFrame_phase (p : Yeti.Props) (f : Yeti.Frame) (s : Yeti.State) :
  Yeti.attackPhase (fst (Yeti.useFrame sin p f s)) =
  match Yeti.yetiRef s with
  | None => Yeti.attackPhase s
  | Some o =>
      if Yeti.attacking p then
        match Yeti.attackPhase s with
        | Yeti.APPROACH => if JS.lt (position_z o) (-40) then Yeti.CHASE else Yeti.APPROACH
        | Yeti.CHASE => if JS.lt (position_z o) (-7) then Yeti.ATTACK else Yeti.CHASE
        | Yeti.ATTACK => Yeti.ATTACK
        end
      else Yeti.attackPhase s
  end.
Proof.
  unfold Yeti.useFrame. destruct (Yeti.yetiRef s) as [o|]; [|reflexivity].
  destruct (Yeti.attacking p); [|reflexivity].
  cbn [negb fst Yeti.attackPhase]. unfold Yeti.phaseSwitch.
  destruct (Yeti.attackPhase s); [destruct (Yeti.initialPosition p) as [[? ?] ?]| |];
    reflexivity.
Qed.

(** Events other than frames leave the phase alone. *)
Lemma step_phase_other (s : Yeti.State) (e : Yeti.Event) :
  (forall p f, e <> Yeti.AnimationFrame p f) ->
  Yeti.attackPhase (Yeti.step sin s e) = Yeti.attackPhase s.
Proof.
  intro He. destruct e as [p|p|p player|p f]; cbn [Yeti.step].
  - unfold Yeti.mount. destruct (Yeti.initialPosition p) as [[? ?] ?]. reflexivity.
  - unfold Yeti.initialPositionEffect. destruct (Yeti.yetiRef s); [|reflexivity].
    destruct (Yeti.initialPosition p) as [[? ?] ?]. reflexivity.
  - unfold Yeti.attackingEffect. destruct (Yeti.attacking p); reflexivity.
  - exfalso. exact (He p f eq_refl).
Qed.

(** The only ways the phase changes in one step. *)
Lemma step_phase_cases (s : Yeti.State) (e : Yeti.Event) :
  Yeti.attackPhase (Yeti.step sin s e) = Yeti.attackPhase s \/
  exists p f o,
    e = Yeti.AnimationFrame p f /\ Yeti.yetiRef s = Some o /\ Yeti.attacking p = true /\
    ((Yeti.attackPhase s = Yeti.APPROACH /\ position_z o < -40 /\
      Yeti.attackPhase (Yeti.step sin s e) = Yeti.CHASE) \/
     (Yeti.attackPhase s = Yeti.CHASE /\ position_z o < -7 /\
      Yeti.attackPhase (Yeti.step sin s e) = Yeti.ATTACK)).
Proof.
  destruct e as [p|p|p player|p f];
    try (left; apply step_phase_other; intros; discriminate).
  cbn [Yeti.step]. rewrite useFrame_phase.
  destruct (Yeti.yetiRef s) as [o|] eqn:Ho; [|left; reflexivity].
  destruct (Yeti.attacking p) eqn:Ha; [|left; reflexivity].
  destruct (Yeti.attackPhase s) eqn:Hp.
  - destruct (JS.lt (position_z o) (-40)) eqn:E; [|left; reflexivity].
    apply JS_lt_iff in E. right. exists p, f, o.
    split; [reflexivity|]. split; [reflexivity|]. split; [exact Ha|].
    left. split; [reflexivity|]. split; [exact E|reflexivity].
  - destruct (JS.lt (position_z o) (-7)) eqn:E; [|left; reflexivity].
    apply JS_lt_iff in E. right. exists p, f, o.
    split; [reflexivity|]. split; [reflexivity|]. split; [exact Ha|].
    right. split; [reflexivity|]. split; [exact E|reflexivity].
  - left. reflexivity.
Qed.

Lemma step_phase_index (s : Yeti.State) (e : Yeti.Event) :
  (Yeti.phaseIndex (Yeti.attackPhase s)
   <= Yeti.phaseIndex (Yeti.attackPhase (Yeti.step sin s e))
   <= S (Yeti.phaseIndex (Yeti.attackPhase s)))%nat.
Proof.
  destruct (step_phase_cases s e) as [-> | (p & f & o & _ & _ & _ & [H|H])].
  - lia.
  - destruct H as (-> & _ & ->). simpl. lia.
  - destruct H as (-> & _ & ->). simpl. lia.
Qed.

Lemma run_phase_index (es : list Yeti.Event) (s : Yeti.State) :
  (Yeti.phaseIndex (Yeti.attackPhase s)
   <= Yeti.phaseIndex (Yeti.attackPhase (Yeti.run sin s es)))%nat.
Proof.
  revert s. induction es as [|e es IH]; intro s.
  - simpl. lia.
  - change (Yeti.run sin s (e :: es)) with (Yeti.run sin (Yeti.step sin s e) es).
    specialize (IH (Yeti.step sin s e)). pose proof (step_phase_index s e). lia.
Qed.

Lemma phaseIndex_ATTACK (ph : Yeti.AttackPhase) :
  (2 <= Yeti.phaseIndex ph)%nat -> ph = Yeti.ATTACK.
Proof. destruct ph; simpl; intro; try lia; reflexivity. Qed.

End YetiFrames.

(** C9.  Along every run of a yeti (frames with any delta, player
    position and props, and the component's effects) the phase never moves
    backward in the order APPROACH, CHASE, ATTACK, and ATTACK once reached
    is kept for ever.  A single step advances the phase by at most one
    stage: from APPROACH only to CHASE and only on a frame of a mounted,
    attacking yeti whose z before the frame's move is below -40; from CHASE
    only to ATTACK and only on such a frame with z below -7; and on such
    frames these transitions are taken. *)
Theorem C9_phase_monotone (sin : Q -> Q) (s : Yeti.State)
    (es1 es2 : list Yeti.Event) (e : Yeti.Event) :
  (Yeti.phaseIndex (Yeti.attackPhase (Yeti.run sin s es1))
   <= Yeti.phaseIndex (Yeti.attackPhase (Yeti.run sin s (es1 ++ es2))))%nat /\
  (Yeti.attackPhase s = Yeti.ATTACK -> Yeti.attackPhase (Yeti.run sin s es1) = Yeti.ATTACK) /\
  (Yeti.phaseIndex (Yeti.attackPhase (Yeti.step sin s e))
   <= S (Yeti.phaseIndex (Yeti.attackPhase s)))%nat /\
  (Yeti.attackPhase (Yeti.step sin s e) <> Yeti.attackPhase s ->
   exists p f o,
     e = Yeti.AnimationFrame p f /\ Yeti.yetiRef s = Some o /\ Yeti.attacking p = true /\
     ((Yeti.attackPhase s = Yeti.APPROACH /\ position_z o < -40 /\
       Yeti.attackPhase (Yeti.step sin s e) = Yeti.CHASE) \/
      (Yeti.attackPhase s = Yeti.CHASE /\ position_z o < -7 /\
       Yeti.attackPhase (Yeti.step sin s e) = Yeti.ATTACK))) /\
  (forall p f o,
     Yeti.yetiRef s = Some o -> Yeti.attacking p = true ->
     (Yeti.attackPhase s = Yeti.APPROACH ->
      (position_z o < -40 -> Yeti.attackPhase (fst (Yeti.useFrame sin p f s)) = Yeti.CHASE) /\
      (-40 <= position_z o ->
       Yeti.attackPhase (fst (Yeti.useFrame sin p f s)) = Yeti.APPROACH)) /\
     (Yeti.attackPhase s = Yeti.CHASE ->
      (position_z o < -7 -> Yeti.attackPhase (fst (Yeti.useFrame sin p f s)) = Yeti.ATTACK) /\
      (-7 <= position_z o ->
       Yeti.attackPhase (fst (Yeti.useFrame sin p f s)) = Yeti.CHASE))).
Proof.
  split.
  { rewrite yeti_run_app. apply run_phase_index. }
  split.
  { intro H. apply phaseIndex_ATTACK.
    pose proof (run_phase_index sin es1 s) as Hle. rewrite H in Hle. exact Hle. }
  split; [apply step_phase_index|].
  split.
  { intro Hne. destruct (step_phase_cases sin s e) as [Heq|H]; [contradiction|exact H]. }
  intros p f o Ho Ha. rewrite useFrame_phase, Ho, Ha.
  split; intros ->; split; intro Hz.
  - apply JS_lt_iff in Hz. rewrite Hz. reflexivity.
  - apply JS_lt_false_iff in Hz. rewrite Hz. reflexivity.
  - apply JS_lt_iff in Hz. rewrite Hz. reflexivity.
  - apply JS_lt_false_iff in Hz. rewrite Hz. reflexivity.
Qed.

(** The yeti spawned at z = -120 is in ATTACK after two frames, and ten
    frames later it still is. *)
Lemma C9_witness :
  let fr := Yeti.AnimationFrame (yetiProps true true) (frameAt 1) in
  Yeti.attackPhase (Yeti.run flatSin spawnedYeti [fr]) = Yeti.CHASE /\
  Yeti.attackPhase (Yeti.run flatSin spawnedYeti [fr; fr]) = Yeti.ATTACK /\
  Yeti.attackPhase (Yeti.run flatSin (Yeti.run flatSin spawnedYeti [fr; fr]) (repeat fr 10))
  = Yeti.ATTACK.
Proof.
  intro fr.
  assert (H1 : Yeti.attackPhase (Yeti.run flatSin spawnedYeti [fr]) = Yeti.CHASE)
    by (vm_compute; reflexivity).
  assert (H2 : Yeti.attackPhase (Yeti.run flatSin spawnedYeti [fr; fr]) = Yeti.ATTACK)
    by (vm_compute; reflexivity).
  split; [exact H1|]. split; [exact H2|].
  exact (proj1 (proj2 (C9_phase_monotone flatSin (Yeti.run flatSin spawnedYeti [fr; fr])
                         (repeat fr 10) [] fr)) H2).
Defined.

(** C10.  A frame of a yeti whose [attacking] prop is false returns at
    once: the whole state (group position and scale, targets, arm angle,
    jump height, phase, chase speed, visibility height, position state) is
    the one before the frame, and nothing is reported, whatever the delta,
    the clock and the player's position. *)
Theorem C10_idle_yeti_frame (sin : Q -> Q) (p : Yeti.Props) (f : Yeti.Frame) (s : Yeti.State) :
  Yeti.attacking p = false ->
  Yeti.useFrame sin p f s = (s, None) /\
  Yeti.step sin s (Yeti.AnimationFrame p f) = s.
Proof.
  intro H. assert (E : Yeti.useFrame sin p f s = (s, None)).
  { unfold Yeti.useFrame. rewrite H. destruct (Yeti.yetiRef s); reflexivity. }
  split; [exact E|]. cbn [Yeti.step]. rewrite E. reflexivity.
Qed.

Lemma C10_witness :
  Yeti.useFrame flatSin (yetiProps false true) (frameAt 1) spawnedYeti = (spawnedYeti, None).
Proof.
  exact (proj1 (C10_idle_yeti_frame flatSin (yetiProps false true) (frameAt 1) spawnedYeti
                  eq_refl)).
Defined.

(** ** Yeti: position reports *)

(** A mounted yeti that is not attacking reports nothing, callback or not:
    the frame returns before the report. *)
Lemma C6_counterexample :
  Yeti.yetiRef spawnedYeti <> None /\
  Yeti.onPositionUpdate (yetiProps false true) = true /\
  snd (Yeti.useFrame flatSin (yetiProps false true) (frameAt 1) spawnedYeti) = None /\
  Yeti.reports flatSin spawnedYeti
    (repeat (Yeti.AnimationFrame (yetiProps false true) (frameAt 1)) 5) = [].
Proof.
  split; [discriminate|]. split; [reflexivity|]. split; reflexivity.
Qed.

Lemma useFrame_attacking (sin : Q -> Q) (p : Yeti.Props) (f : Yeti.Frame)
    (s : Yeti.State) (o : Object3D) :
  Yeti.yetiRef s = Some o -> Yeti.onPositionUpdate p = true -> Yeti.attacking p = true ->
  exists o', Yeti.yetiRef (fst (Yeti.useFrame sin p f s)) = Some o' /\
             snd (Yeti.useFrame sin p f s)
             = Some (mkPoint (position_x o') (position_z o')).
Proof.
  intros Ho Hcb Ha. unfold Yeti.useFrame. rewrite Ho, Hcb, Ha.
  cbn [negb fst snd Yeti.yetiRef]. eexists. split; reflexivity.
Qed.

(** Frames rendered while attacking report one position each. *)
Lemma reports_every_frame (sin : Q -> Q) (es : list Yeti.Event) (s : Yeti.State)
    (o : Object3D) :
  Yeti.yetiRef s = Some o -> Forall AttackingFrame es ->
  List.length (Yeti.reports sin s es) = List.length es.
Proof.
  revert s o. induction es as [|e es IH]; intros s o Ho Hes; [reflexivity|].
  inversion Hes as [|e' es' (p & f & -> & Ha & Hcb) Hrest]; subst.
  destruct (useFrame_attacking sin p f s o Ho Hcb Ha) as (o' & Ho' & Hrep).
  cbn [Yeti.reports]. rewrite Hrep. cbn [List.length]. f_equal.
  apply (IH _ o'); [exact Ho'|exact Hrest].
Qed.

(** In the game the yeti is shown only once its attack has started, so a
    mounted yeti is always rendered with [attacking] set. *)
Lemma shown_yeti_attacks (t0 : Z) (es : list Game.Event) :
  Game.showYeti (Game.hooks (Game.run (Game.init t0) es)) = true ->
  Game.yetiAttacking (Game.hooks (Game.run (Game.init t0) es)) = true.
Proof.
  apply (run_preserves
           (fun s => Game.showYeti (Game.hooks s) = true ->
                     Game.yetiAttacking (Game.hooks s) = true)).
  - intros s e Hs. destruct e; cbn [Game.step];
      try (unfold Game.updateObstaclePositions; destruct positions as [|? ?]; [exact Hs|]);
      unfold Game.updatePosition;
      destruct s as [[] [] []]; game_cases; try exact Hs; try reflexivity.
  - discriminate.
Qed.

(** C6 (amended).  A frame of a mounted yeti that was given a callback
    reports exactly when the [attacking] prop is set; it then hands over
    the x and z the frame has just given to the group, in every phase, so
    a sequence of such frames yields one report per frame.  With
    [attacking] false nothing is reported. *)
Theorem C6_reports_while_attacking (sin : Q -> Q) (p : Yeti.Props) (f : Yeti.Frame)
    (s : Yeti.State) (o : Object3D) (es : list Yeti.Event) :
  Yeti.yetiRef s = Some o -> Yeti.onPositionUpdate p = true ->
  (Yeti.attacking p = true ->
   exists o', Yeti.yetiRef (fst (Yeti.useFrame sin p f s)) = Some o' /\
              snd (Yeti.useFrame sin p f s)
              = Some (mkPoint (position_x o') (position_z o'))) /\
  (Yeti.attacking p = false -> snd (Yeti.useFrame sin p f s) = None) /\
  (Forall AttackingFrame es ->
   List.length (Yeti.reports sin s es) = List.length es).
Proof.
  intros Ho Hcb.
  split; [exact (useFrame_attacking sin p f s o Ho Hcb)|].
  split; [|exact (reports_every_frame sin es s o Ho)].
  intro Ha. unfold Yeti.useFrame. rewrite Ho, Ha. reflexivity.
Qed.

Lemma C6_witness :
  exists pt, snd (Yeti.useFrame flatSin (yetiProps true true) (frameAt 1) spawnedYeti)
             = Some pt /\ z pt < -100.
Proof.
  destruct (proj1 (C6_reports_while_attacking flatSin (yetiProps true true) (frameAt 1)
                     spawnedYeti (mkObject3D 0 0 (-120) 1) [] eq_refl eq_refl) eq_refl)
    as (o' & Href & Hrep).
  exists (mkPoint (position_x o') (position_z o')). split; [exact Hrep|].
  vm_compute in Href. injection Href as <-. vm_compute. reflexivity.
Defined.

(** * Further properties of the code *)

(** ** The steps of a session, by case *)

(** What an evaluation request does to the session: nothing, store the
    report, store it and crash, or store it and be caught. *)
Lemma updateObstaclePositions_cases (positions : list Point) (s : Game.State) :
  let s0 := Game.set_obstaclePositions positions s in
  let s' := fst (Game.updateObstaclePositions positions s) in
  s' = s \/ s' = s0 \/
  (Evaluating s /\ Game.yetiAttacking (Game.hooks s) = false /\ s' = Game.handleCrash s0) \/
  (Evaluating s /\ Game.yetiAttacking (Game.hooks s) = true /\ s' = Game.handleYetiCatch s0).
Proof.
  intros s0 s'. destruct positions as [|p rest]; [left; reflexivity|].
  destruct (Game.crashed (Game.hooks s)) eqn:Hc.
  { right. left. unfold s'. rewrite updateObstaclePositions_skipped by (left; exact Hc).
    reflexivity. }
  destruct (Game.yetiCaught (Game.hooks s)) eqn:Hy.
  { right. left. unfold s'. rewrite updateObstaclePositions_skipped by (right; exact Hy).
    reflexivity. }
  destruct (Game.now (Game.host s) - Game.lastCrashTime (Game.refs s) <? 500)%Z eqn:Hg.
  { right. left. unfold s', Game.updateObstaclePositions.
    cbn [Game.set_obstaclePositions Game.hooks Game.refs Game.host Game.lastCrashTime].
    rewrite Hc, Hy, Hg. reflexivity. }
  apply Z.ltb_ge in Hg.
  assert (Hev : Evaluating s) by (repeat split; assumption).
  unfold s'. rewrite updateObstaclePositions_evaluating by (discriminate || exact Hev).
  cbv zeta. fold s0.
  destruct (Game.yetiAttacking (Game.hooks s)) eqn:Hatt.
  - assert (Hnoop : Game.handleCrash s0 = s0).
    { unfold Game.handleCrash.
      change (Game.yetiAttacking (Game.hooks s0)) with (Game.yetiAttacking (Game.hooks s)).
      rewrite Hatt. reflexivity. }
    rewrite Hnoop.
    destruct (Game.yetiCollides s0).
    + right. right. right. split; [exact Hev|]. split; [reflexivity|].
      destruct (Game.scanObstacles _ _); reflexivity.
    + right. left. destruct (Game.scanObstacles _ _); reflexivity.
  - rewrite (yetiCollides_idle s0) by exact Hatt.
    destruct (Game.scanObstacles _ _).
    + right. right. left. split; [exact Hev|]. split; reflexivity.
    + right. left. reflexivity.
Qed.

(** What a timeout request does: nothing, or run a due callback after
    taking it off the queue. *)
Lemma fireTimeout_cases (n : nat) (s : Game.State) :
  Game.fireTimeout n s = s \/
  exists deadline cb,
    nth_error (Game.timeouts (Game.host s)) n = Some (deadline, cb) /\
    (deadline <= Game.now (Game.host s))%Z /\
    Game.fireTimeout n s =
      Game.runTimeout cb (Game.set_timeouts (Game.removeNth n (Game.timeouts (Game.host s))) s).
Proof.
  unfold Game.fireTimeout.
  destruct (nth_error (Game.timeouts (Game.host s)) n) as [[deadline cb]|] eqn:Hn;
    [|left; reflexivity].
  destruct (deadline <=? Game.now (Game.host s))%Z eqn:Hd; [|left; reflexivity].
  right. exists deadline, cb. apply Z.leb_le in Hd. repeat split; [exact Hd].
Qed.

Lemma Forall_removeNth {A : Type} (P : A -> Prop) (n : nat) (l : list A) :
  Forall P l -> Forall P (Game.removeNth n l).
Proof.
  revert n. induction l as [|a l IH]; intros n H; destruct n; simpl; auto;
    inversion H; subst; auto.
Qed.

Lemma countTimeout_zero_Forall (cb : Game.Timeout) (l : list (Z * Game.Timeout))
    (P : Z -> Prop) :
  countTimeout cb l = 0%nat -> Forall (fun p => snd p = cb -> P (fst p)) l.
Proof.
  induction l as [|[d c] l IH]; intro H; constructor.
  - simpl. intros ->. unfold countTimeout in H. simpl in H.
    destruct cb; simpl in H; discriminate.
  - apply IH. unfold countTimeout in *. simpl in H.
    destruct (Game.Timeout_eqb c cb); simpl in H; [discriminate|exact H].
Qed.

Lemma Timeout_eqb_eq (a b : Game.Timeout) : Game.Timeout_eqb a b = true <-> a = b.
Proof. destruct a, b; simpl; split; intro; congruence. Qed.

Lemma Quiet_refl (s : Game.State) : Quiet s s.
Proof. constructor; reflexivity || lia. Qed.

Lemma Quiet_set_obstaclePositions (l : list Point) (s : Game.State) :
  Quiet s (Game.set_obstaclePositions l s).
Proof. constructor; reflexivity || (simpl; lia). Qed.

(** Keys, frames of the player, yeti reports and the clock are quiet. *)
Lemma step_Quiet (s : Game.State) (e : Game.Event) :
  match e with
  | Game.UpdateObstacles _ | Game.ScoreInterval | Game.YetiTriggerEffect
  | Game.FireTimeout _ => True
  | _ => Quiet s (Game.step s e)
  end.
Proof.
  destruct e; try exact I; cbn [Game.step].
  - unfold Game.handleKeyDown. destruct (String.eqb code "Space");
      constructor; reflexivity || (simpl; lia).
  - unfold Game.handleKeyUp. destruct (String.eqb code "Space");
      constructor; reflexivity || (simpl; lia).
  - unfold Game.updatePosition.
    destruct (negb _ && negb _); [|apply Quiet_refl].
    destruct (_ || _); destruct (_ || _);
      constructor; reflexivity || (simpl; lia).
  - constructor; reflexivity || (simpl; lia).
  - constructor; try reflexivity. simpl. lia.
Qed.

Lemma pending_Quiet (cb : Game.Timeout) (s s' : Game.State) :
  Quiet s s' -> pending cb s' = pending cb s.
Proof. intros [? ? ? ? ? ? ? ? Ht ?]. unfold pending. rewrite Ht. reflexivity. Qed.

Lemma CrashInv_Quiet (s s' : Game.State) : Quiet s s' -> CrashInv s -> CrashInv s'.
Proof.
  intros Hq. apply CrashInv_view. unfold crashView.
  rewrite (pending_Quiet _ _ _ Hq), (q_crashed _ _ Hq), (q_caught _ _ Hq). reflexivity.
Qed.

(** ** Score *)

Lemma ScoreInv_step (s : Game.State) (e : Game.Event) :
  ScoreInv s -> ScoreInv (Game.step s e).
Proof.
  intros [Hn Hz].
  assert (Hquiet : forall s', Quiet s s' -> ScoreInv s').
  { intros s' Hq. constructor;
      rewrite ?(q_score _ _ Hq), ?(q_crashed _ _ Hq), ?(q_caught _ _ Hq); assumption. }
  pose proof (step_Quiet s e) as Hq.
  destruct e; try (apply Hquiet; exact Hq); cbn [Game.step].
  - destruct (updateObstaclePositions_cases positions s)
      as [-> | [-> | [(Hev & Hatt & ->) | (Hev & Hatt & ->)]]].
    + constructor; assumption.
    + apply Hquiet, Quiet_set_obstaclePositions.
    + unfold Game.handleCrash. cbn [Game.set_obstaclePositions Game.hooks].
      rewrite Hatt. constructor; simpl; intros; lia || reflexivity.
    + constructor; simpl; [exact Hn|discriminate].
  - unfold Game.scoreInterval.
    destruct (negb (Game.crashed (Game.hooks s))) eqn:Hc; simpl;
      [destruct (negb (Game.yetiCaught (Game.hooks s))) eqn:Hy; simpl|];
      try (constructor; assumption).
    apply negb_true_iff in Hc. constructor; simpl; [lia|congruence].
  - unfold Game.yetiTriggerEffect. destruct (_ && _); constructor; simpl; assumption.
  - destruct (fireTimeout_cases n s) as [-> | (d & cb & _ & _ & ->)];
      [constructor; assumption|].
    destruct cb; constructor; simpl; try assumption. discriminate.
Qed.

Lemma ScoreInv_reachable (t0 : Z) (es : list Game.Event) :
  ScoreInv (Game.run (Game.init t0) es).
Proof.
  apply run_preserves; [exact ScoreInv_step|].
  constructor; simpl; [lia|discriminate].
Qed.

(** ** Recovery *)

Lemma DeadlinesOf_app (cb : Game.Timeout) (P : Z -> Prop) (s : Game.State)
    (l : list (Z * Game.Timeout)) :
  DeadlinesOf cb P s ->
  Forall (fun p => snd p = cb -> P (fst p)) l ->
  Forall (fun p => snd p = cb -> P (fst p)) (Game.timeouts (Game.host s) ++ l).
Proof. intros H1 H2. apply Forall_app. split; assumption. Qed.

(** The recovery invariant reads only the crash flags, the crash time, the
    queue and the clock. *)
Lemma RecoveryInv_transfer (t0 : Z) (s s' : Game.State) :
  Game.crashed (Game.hooks s') = Game.crashed (Game.hooks s) ->
  Game.yetiCaught (Game.hooks s') = Game.yetiCaught (Game.hooks s) ->
  Game.lastCrashTime (Game.refs s') = Game.lastCrashTime (Game.refs s) ->
  Game.timeouts (Game.host s') = Game.timeouts (Game.host s) ->
  (Game.now (Game.host s) <= Game.now (Game.host s'))%Z ->
  CrashInv s' -> RecoveryInv t0 s -> RecoveryInv t0 s'.
Proof.
  intros Hc Hy Hl Ht Hn Hinv [_ Hf Hd Hs].
  constructor; [exact Hinv| | |].
  - unfold pending. rewrite Hc, Hy, Ht. exact Hf.
  - unfold DeadlinesOf. rewrite Hl, Ht. exact Hd.
  - rewrite Hc, Hl. intro H. specialize (Hs H). lia.
Qed.

Lemma RecoveryInv_step (t0 : Z) (s : Game.State) (e : Game.Event) :
  RecoveryInv t0 s -> RecoveryInv t0 (Game.step s e).
Proof.
  intro Hinv. pose proof (step_CrashInv s e (rec_crash t0 s Hinv)) as Hci.
  assert (Hquiet : forall s', s' = Game.step s e -> Quiet s s' -> RecoveryInv t0 s').
  { intros s' -> Hq.
    apply (RecoveryInv_transfer t0 s); try exact Hinv; try exact Hci; apply Hq. }
  pose proof (step_Quiet s e) as Hq.
  destruct e; try (apply Hquiet; [reflexivity|exact Hq]); cbn [Game.step] in *.
  - destruct (updateObstaclePositions_cases positions s)
      as [E | [E | [(Hev & Hatt & E) | (Hev & Hatt & E)]]];
      cbv zeta in E; rewrite E in *.
    + exact Hinv.
    + apply (RecoveryInv_transfer t0 s); try exact Hinv; try exact Hci;
        reflexivity || (simpl; lia).
    + destruct Hev as (Hc & Hy & _).
      pose proof (inv_idle s (rec_crash t0 s Hinv) Hc) as Hp0.
      set (s0 := Game.set_obstaclePositions positions s) in *.
      assert (Hatt0 : Game.yetiAttacking (Game.hooks s0) = false) by exact Hatt.
      destruct (handleCrash_effective s0 Hatt0) as (Hc1 & _ & Hl1 & _ & Hq1).
      pose proof (handleCrash_view s0 Hatt0) as Hv. unfold crashView in Hv.
      injection Hv as _ _ Hp1.
      change (pending Game.ClearCrashed s0) with (pending Game.ClearCrashed s) in Hp1.
      change (Game.timeouts (Game.host s0)) with (Game.timeouts (Game.host s)) in Hq1.
      change (Game.now (Game.host s0)) with (Game.now (Game.host s)) in Hl1, Hq1.
      constructor; [exact Hci| | |].
      * intros _ _. rewrite Hp1, Hp0. reflexivity.
      * unfold DeadlinesOf. rewrite Hq1, Hl1. apply Forall_app. split.
        -- exact (countTimeout_zero_Forall Game.ClearCrashed _
                    (fun d => d = (Game.now (Game.host s) + Game.CRASH_RECOVERY_TIME)%Z) Hp0).
        -- constructor; [|constructor]. simpl. intros _. reflexivity.
      * rewrite Hc1. discriminate.
    + constructor; [exact Hci| | |]; simpl.
      * discriminate.
      * exact (rec_deadline t0 s Hinv).
      * discriminate.
  - apply (RecoveryInv_transfer t0 s); try exact Hinv; try exact Hci;
      unfold Game.scoreInterval; destruct (_ && _); reflexivity || lia.
  - unfold Game.yetiTriggerEffect in *. destruct (_ && _); [|exact Hinv].
    destruct Hinv as [_ Hf Hd Hs].
    constructor; [exact Hci| | |]; simpl.
    + intros Hc Hy. unfold pending. simpl. rewrite !countTimeout_app.
      fold (pending Game.ClearCrashed s). rewrite (Hf Hc Hy). reflexivity.
    + unfold DeadlinesOf. simpl. rewrite <- app_assoc. apply Forall_app. split; [exact Hd|].
      repeat constructor; simpl; discriminate.
    + exact Hs.
  - destruct (fireTimeout_cases n s) as [E | (d & cb & Hn & Hdue & E)];
      rewrite E in *; [exact Hinv|].
    pose proof (countTimeout_removeNth Game.ClearCrashed _ _ _ _ Hn) as Hcount.
    fold (pending Game.ClearCrashed s) in Hcount.
    pose proof (rec_deadline t0 s Hinv) as Hd. unfold DeadlinesOf in Hd.
    destruct Hinv as [_ Hf Hd' Hs].
    destruct cb; simpl in Hcount.
    + constructor; [exact Hci| | |]; simpl.
      * discriminate.
      * apply Forall_removeNth. exact Hd.
      * intros _. rewrite Forall_forall in Hd.
        specialize (Hd _ (nth_error_In _ _ Hn) eq_refl). simpl in Hd.
        unfold Game.CRASH_RECOVERY_TIME in *. lia.
    + constructor; [exact Hci| | |]; simpl.
      * intros Hc Hy. unfold pending. simpl. rewrite <- Hcount. exact (Hf Hc Hy).
      * apply Forall_removeNth. exact Hd.
      * exact Hs.
    + constructor; [exact Hci| | |]; simpl.
      * intros Hc Hy. unfold pending. simpl. rewrite <- Hcount. exact (Hf Hc Hy).
      * apply Forall_removeNth. exact Hd.
      * exact Hs.
Qed.

Lemma RecoveryInv_reachable (t0 : Z) (es : list Game.Event) :
  RecoveryInv t0 (Game.run (Game.init t0) es).
Proof.
  apply run_preserves; [exact (RecoveryInv_step t0)|].
  constructor; simpl.
  - apply init_CrashInv.
  - discriminate.
  - constructor.
  - intros _. unfold Game.CRASH_RECOVERY_TIME. lia.
Qed.

(** ** Appearance of the yeti *)

Lemma pending_set_obstaclePositions (cb : Game.Timeout) (l : list Point) (s : Game.State) :
  pending cb (Game.set_obstaclePositions l s) = pending cb s.
Proof. reflexivity. Qed.

Lemma pending_handleCrash (cb : Game.Timeout) (s : Game.State) :
  cb <> Game.ClearCrashed -> pending cb (Game.handleCrash s) = pending cb s.
Proof.
  intro Hcb. unfold Game.handleCrash. destruct (negb _); [|reflexivity].
  unfold pending. cbn [Game.setTimeout Game.host Game.timeouts Game.set_lastCrashTime
                       Game.setScore Game.setCrashed].
  rewrite countTimeout_app. unfold countTimeout at 2. simpl.
  destruct cb; simpl; try lia. congruence.
Qed.

Lemma pending_fired (cb : Game.Timeout) (s : Game.State) (n : nat) (d : Z)
    (cb' : Game.Timeout) :
  nth_error (Game.timeouts (Game.host s)) n = Some (d, cb') ->
  pending cb s =
  ((if Game.Timeout_eqb cb' cb then 1 else 0)
   + pending cb (Game.runTimeout cb'
                   (Game.set_timeouts (Game.removeNth n (Game.timeouts (Game.host s))) s)))%nat.
Proof.
  intro Hn. unfold pending at 1. rewrite (countTimeout_removeNth cb _ _ _ _ Hn).
  destruct cb'; reflexivity.
Qed.

(** The yeti invariant reads only the yeti flags and the queue. *)
Lemma YetiInv_transfer (s s' : Game.State) :
  Game.showYeti (Game.hooks s') = Game.showYeti (Game.hooks s) ->
  Game.yetiAttacking (Game.hooks s') = Game.yetiAttacking (Game.hooks s) ->
  Game.yetiCaught (Game.hooks s') = Game.yetiCaught (Game.hooks s) ->
  Game.showYetiWarning (Game.hooks s') = Game.showYetiWarning (Game.hooks s) ->
  Game.yetiHasAppeared (Game.refs s') = Game.yetiHasAppeared (Game.refs s) ->
  pending Game.StartYetiAttack s' = pending Game.StartYetiAttack s ->
  pending Game.HideYetiWarning s' = pending Game.HideYetiWarning s ->
  YetiInv s -> YetiInv s'.
Proof.
  intros H1 H2 H3 H4 H5 H6 H7 [I1 I2 I3 I4 I5].
  constructor; rewrite ?H1, ?H2, ?H3, ?H4, ?H5, ?H6, ?H7; assumption.
Qed.

Lemma YetiInv_Quiet (s s' : Game.State) : Quiet s s' -> YetiInv s -> YetiInv s'.
Proof.
  intro Hq. apply YetiInv_transfer; try apply Hq; apply (pending_Quiet _ _ _ Hq).
Qed.

Lemma YetiInv_step (s : Game.State) (e : Game.Event) : YetiInv s -> YetiInv (Game.step s e).
Proof.
  intro Hinv. pose proof (step_Quiet s e) as Hq.
  destruct e; try (apply (YetiInv_Quiet s); [exact Hq|exact Hinv]); cbn [Game.step].
  - destruct (updateObstaclePositions_cases positions s)
      as [-> | [-> | [(Hev & Hatt & ->) | (Hev & Hatt & ->)]]].
    + exact Hinv.
    + apply (YetiInv_Quiet s); [apply Quiet_set_obstaclePositions|exact Hinv].
    + apply (YetiInv_transfer s); try exact Hinv;
        try (rewrite pending_handleCrash by discriminate; reflexivity);
        unfold Game.handleCrash; destruct (negb _); reflexivity.
    + destruct Hinv as [I1 I2 I3 I4 I5].
      constructor; simpl; try assumption. intros _. exact Hatt.
  - apply (YetiInv_transfer s); try exact Hinv;
      unfold Game.scoreInterval; destruct (_ && _); reflexivity.
  - unfold Game.yetiTriggerEffect.
    destruct (_ <=? _)%Z; [|exact Hinv].
    destruct (Game.yetiHasAppeared (Game.refs s)) eqn:Happ; [exact Hinv|]. cbn [negb andb].
    destruct Hinv as [I1 I2 I3 I4 I5]. destruct (I4 Happ) as (P1 & P2 & W).
    assert (Hatt : Game.yetiAttacking (Game.hooks s) = false).
    { destruct (Game.yetiAttacking (Game.hooks s)); [|reflexivity].
      specialize (I2 eq_refl). congruence. }
    constructor; simpl; try assumption.
    + intros _. rewrite Happ in I2. destruct (Game.yetiAttacking (Game.hooks s)); congruence.
    + discriminate.
    + intros _. unfold pending in *. simpl. rewrite !countTimeout_app, P1, Hatt.
      reflexivity.
  - destruct (fireTimeout_cases n s) as [-> | (d & cb & Hn & _ & ->)]; [exact Hinv|].
    pose proof (pending_fired Game.StartYetiAttack s n d cb Hn) as HS.
    pose proof (pending_fired Game.HideYetiWarning s n d cb Hn) as HH.
    destruct Hinv as [I1 I2 I3 I4 I5].
    destruct cb; cbn [Game.Timeout_eqb Nat.add Game.runTimeout] in *.
    + constructor; try assumption; rewrite <- ?HS, <- ?HH; assumption.
    + constructor; try assumption.
      * intro Happ. destruct (I4 Happ) as (_ & P2 & _). lia.
      * rewrite <- HS. exact I5.
    + assert (Happ : Game.yetiHasAppeared (Game.refs s) = true).
      { destruct (Game.yetiHasAppeared (Game.refs s)) eqn:Happ; [reflexivity|].
        destruct (I4 eq_refl) as (P1 & _ & _). lia. }
      constructor; simpl.
      * reflexivity.
      * intros _. exact Happ.
      * reflexivity.
      * intro Hf. change (Game.yetiHasAppeared (Game.refs s) = false) in Hf. congruence.
      * intros _. specialize (I5 Happ).
        destruct (Game.yetiAttacking (Game.hooks s)); simpl in *; lia.
Qed.

Lemma YetiInv_reachable (t0 : Z) (es : list Game.Event) :
  YetiInv (Game.run (Game.init t0) es).
Proof.
  apply run_preserves; [exact YetiInv_step|].
  constructor; simpl; try reflexivity; try discriminate.
  intros _. repeat split; reflexivity.
Qed.

(** ** The trigger acts once *)

(** Below the threshold, or once the yeti has appeared, the effect does
    nothing. *)
Lemma yetiTriggerEffect_void (s : Game.State) :
  (Game.score (Game.hooks s) < Game.YETI_APPEARANCE_SCORE)%Z \/
  Game.yetiHasAppeared (Game.refs s) = true ->
  Game.yetiTriggerEffect s = s.
Proof.
  intros [H | H]; unfold Game.yetiTriggerEffect.
  - apply Z.leb_gt in H. rewrite H. reflexivity.
  - rewrite H, andb_false_r. reflexivity.
Qed.

(** The effect changes the session exactly when the score has reached the
    threshold and the yeti has not appeared. *)
Lemma yetiTriggerEffect_acts_iff (s : Game.State) :
  triggerFires s = true <-> Game.yetiTriggerEffect s <> s.
Proof.
  split.
  - intros Hf E. destruct (yetiTriggerEffect_fires s Hf) as (_ & _ & _ & Happ).
    rewrite E in Happ. unfold triggerFires in Hf. apply andb_true_iff in Hf.
    destruct Hf as [_ Hf]. apply negb_true_iff in Hf. congruence.
  - intro Hne. destruct (triggerFires s) eqn:Hf; [reflexivity|].
    exfalso. apply Hne. unfold triggerFires in Hf. unfold Game.yetiTriggerEffect.
    rewrite Hf. reflexivity.
Qed.

Lemma queued_appeared (es : list Game.Event) (s : Game.State) :
  Game.yetiHasAppeared (Game.refs s) = true -> queuedByTrigger s es = 0%nat.
Proof.
  revert s. induction es as [|e es IH]; intros s H; [reflexivity|].
  destruct (appeared_step s e H) as [H1 _]. cbn [queuedByTrigger].
  rewrite (IH _ H1). destruct e; try reflexivity.
  rewrite yetiTriggerEffect_idle by exact H. rewrite Nat.sub_diag. reflexivity.
Qed.

Lemma queued_le_2 (es : list Game.Event) (s : Game.State) :
  (queuedByTrigger s es <= 2)%nat.
Proof.
  revert s. induction es as [|e es IH]; intro s; cbn [queuedByTrigger]; [lia|].
  assert (Hrest : (queuedByTrigger (Game.step s e) es <= 2)%nat) by apply IH.
  destruct e; try (simpl; exact Hrest).
  destruct (triggerFires s) eqn:Hf.
  - destruct (yetiTriggerEffect_fires s Hf) as (_ & Hq & _ & Happ).
    rewrite (queued_appeared es (Game.step s Game.YetiTriggerEffect) Happ).
    rewrite Hq, length_app. simpl. lia.
  - unfold triggerFires in Hf.
    assert (E : Game.yetiTriggerEffect s = s)
      by (unfold Game.yetiTriggerEffect; rewrite Hf; reflexivity).
    cbn [Game.step] in *. rewrite E in *. rewrite Nat.sub_diag. exact Hrest.
Qed.

(** C8.  The trigger effect acts exactly when the score has reached
    YETI_APPEARANCE_SCORE = 50 and the yeti has not appeared yet.  It then
    shows the warning, queues the hiding of the warning (3000 ms) and the
    start of the attack (YETI_ATTACK_DELAY = 5000 ms), captures the spawn
    position (player x, 0, -120) and sets [yetiHasAppeared], without yet
    showing the yeti or starting the attack.  In every other state (score
    below the threshold, or yeti already appeared) the effect leaves the
    session exactly as it is.  Once [yetiHasAppeared] is set it stays set
    whatever happens, the captured spawn position is never rewritten, and
    the effect queues nothing more.  So along any run of a session the
    effect acts at most once, queues at most the two timeouts of that one
    time, and at most one attack is ever pending or running. *)
Theorem C8_yeti_trigger_once (t0 : Z) (s : Game.State) (es : list Game.Event) :
  ((Game.YETI_APPEARANCE_SCORE <= Game.score (Game.hooks s))%Z ->
   Game.yetiHasAppeared (Game.refs s) = false ->
   let s1 := Game.yetiTriggerEffect s in
   Game.showYetiWarning (Game.hooks s1) = true /\
   Game.timeouts (Game.host s1) =
     Game.timeouts (Game.host s)
     ++ [((Game.now (Game.host s) + 3000)%Z, Game.HideYetiWarning);
         ((Game.now (Game.host s) + 5000)%Z, Game.StartYetiAttack)] /\
   Game.initialYetiPosition (Game.refs s1) = (Game.position (Game.hooks s), 0, -120) /\
   Game.yetiHasAppeared (Game.refs s1) = true /\
   Game.showYeti (Game.hooks s1) = Game.showYeti (Game.hooks s) /\
   Game.yetiAttacking (Game.hooks s1) = Game.yetiAttacking (Game.hooks s) /\
   s1 <> s) /\
  ((Game.score (Game.hooks s) < Game.YETI_APPEARANCE_SCORE)%Z \/
   Game.yetiHasAppeared (Game.refs s) = true ->
   Game.yetiTriggerEffect s = s) /\
  (triggerFires s = true <-> Game.yetiTriggerEffect s <> s) /\
  (Game.yetiHasAppeared (Game.refs s) = true ->
   Game.yetiTriggerEffect (Game.run s es) = Game.run s es /\
   Game.yetiHasAppeared (Game.refs (Game.run s es)) = true /\
   Game.initialYetiPosition (Game.refs (Game.run s es))
   = Game.initialYetiPosition (Game.refs s) /\
   triggerCount s es = 0%nat /\
   queuedByTrigger s es = 0%nat) /\
  (triggerCount (Game.init t0) es <= 1)%nat /\
  (queuedByTrigger (Game.init t0) es <= 2)%nat /\
  (pending Game.StartYetiAttack (Game.run (Game.init t0) es)
   + (if Game.yetiAttacking (Game.hooks (Game.run (Game.init t0) es)) then 1 else 0)
   <= 1)%nat.
Proof.
  split.
  { intros Hsc Happ.
    assert (Hf : triggerFires s = true).
    { unfold triggerFires. rewrite andb_true_iff, Z.leb_le, negb_true_iff.
      split; assumption. }
    destruct (yetiTriggerEffect_fires s Hf) as (H1 & H2 & H3 & H4).
    cbv zeta. split; [exact H1|]. split; [exact H2|]. split; [exact H3|].
    split; [exact H4|].
    unfold triggerFires in Hf.
    split; [unfold Game.yetiTriggerEffect; rewrite Hf; reflexivity|].
    split; [unfold Game.yetiTriggerEffect; rewrite Hf; reflexivity|].
    apply yetiTriggerEffect_acts_iff. unfold triggerFires. exact Hf. }
  split; [exact (yetiTriggerEffect_void s)|].
  split; [exact (yetiTriggerEffect_acts_iff s)|].
  split.
  { intro H. destruct (appeared_run es s H) as (H1 & H2 & H3).
    split; [apply yetiTriggerEffect_idle, H1|]. split; [exact H1|]. split; [exact H2|].
    split; [exact H3|exact (queued_appeared es s H)]. }
  split; [apply triggerCount_le_1|]. split; [apply queued_le_2|].
  destruct (YetiInv_reachable t0 es) as [_ I2 _ I4 I5].
  destruct (Game.yetiHasAppeared (Game.refs (Game.run (Game.init t0) es))) eqn:Happ.
  - rewrite (I5 eq_refl). lia.
  - destruct (I4 eq_refl) as (P1 & _ & _). rewrite P1.
    destruct (Game.yetiAttacking (Game.hooks (Game.run (Game.init t0) es)));
      [|simpl; lia].
    specialize (I2 eq_refl). congruence.
Qed.

(** Second crossing of the threshold in [crossingAgain], after the first
    in [firstCrossing]: the effect schedules nothing and the spawn position
    is the one captured the first time. *)
Lemma C8_witness :
  Game.yetiHasAppeared (Game.refs (Game.run (Game.init 1000) firstCrossing)) = true /\
  Game.yetiTriggerEffect (Game.run (Game.run (Game.init 1000) firstCrossing) crossingAgain)
  = Game.run (Game.run (Game.init 1000) firstCrossing) crossingAgain /\
  Game.initialYetiPosition
    (Game.refs (Game.run (Game.run (Game.init 1000) firstCrossing) crossingAgain))
  = Game.initialYetiPosition (Game.refs (Game.run (Game.init 1000) firstCrossing)) /\
  triggerCount (Game.run (Game.init 1000) firstCrossing) crossingAgain = 0%nat /\
  queuedByTrigger (Game.run (Game.init 1000) firstCrossing) crossingAgain = 0%nat.
Proof.
  assert (Happ : Game.yetiHasAppeared (Game.refs (Game.run (Game.init 1000) firstCrossing)) = true)
    by (vm_compute; reflexivity).
  destruct (C8_yeti_trigger_once 0 (Game.run (Game.init 1000) firstCrossing) crossingAgain)
    as (_ & _ & _ & Hidle & _).
  destruct (Hidle Happ) as (Hnoop & _ & Hpos & Hcount & Hqueued).
  split; [exact Happ|]. split; [exact Hnoop|]. split; [exact Hpos|].
  split; [exact Hcount|exact Hqueued].
Defined.

(** The first crossing itself: before it the effect is void (score 49),
    at it the two timeouts are queued. *)
Example first_crossing_acts :
  let below := Game.run (Game.init 1000) (repeat Game.ScoreInterval 49) in
  let at50 := Game.step below Game.ScoreInterval in
  Game.yetiTriggerEffect below = below /\
  List.length (Game.timeouts (Game.host (Game.yetiTriggerEffect at50))) = 2%nat /\
  queuedByTrigger (Game.init 1000)
    (repeat Game.ScoreInterval 50 ++ [Game.YetiTriggerEffect; Game.YetiTriggerEffect]) = 2%nat.
Proof. vm_compute. repeat split; reflexivity. Qed.

(** ** Delays of the summons *)

Lemma SummonedAt_transfer (T : Z) (s s' : Game.State) :
  Game.yetiAttacking (Game.hooks s') = Game.yetiAttacking (Game.hooks s) ->
  Game.showYetiWarning (Game.hooks s') = Game.showYetiWarning (Game.hooks s) ->
  Game.yetiHasAppeared (Game.refs s') = Game.yetiHasAppeared (Game.refs s) ->
  (exists l, Game.timeouts (Game.host s') = Game.timeouts (Game.host s) ++ l /\
             Forall (fun p => snd p = Game.ClearCrashed) l) ->
  (Game.now (Game.host s) <= Game.now (Game.host s'))%Z ->
  SummonedAt T s -> SummonedAt T s'.
Proof.
  intros Ha Hw Happ (l & Ht & Hl) Hn [I1 I2 I3 I4 I5].
  constructor.
  - rewrite Happ. exact I1.
  - unfold DeadlinesOf. rewrite Ht. apply Forall_app. split; [exact I2|].
    eapply Forall_impl; [|exact Hl]. simpl. intros p Hp Hq. congruence.
  - unfold DeadlinesOf. rewrite Ht. apply Forall_app. split; [exact I3|].
    eapply Forall_impl; [|exact Hl]. simpl. intros p Hp Hq. congruence.
  - rewrite Ha. intro H. specialize (I4 H). lia.
  - rewrite Hw. intro H. specialize (I5 H). lia.
Qed.

Lemma SummonedAt_Quiet (T : Z) (s s' : Game.State) :
  Quiet s s' -> SummonedAt T s -> SummonedAt T s'.
Proof.
  intro Hq. apply SummonedAt_transfer; try apply Hq.
  exists []. rewrite app_nil_r. split; [apply Hq|constructor].
Qed.

(** [handleCrash] leaves the yeti's flags alone and queues at most a recovery. *)
Lemma handleCrash_yeti_fields (s : Game.State) :
  Game.yetiAttacking (Game.hooks (Game.handleCrash s)) = Game.yetiAttacking (Game.hooks s) /\
  Game.showYetiWarning (Game.hooks (Game.handleCrash s))
  = Game.showYetiWarning (Game.hooks s) /\
  Game.yetiHasAppeared (Game.refs (Game.handleCrash s))
  = Game.yetiHasAppeared (Game.refs s) /\
  (exists l, Game.timeouts (Game.host (Game.handleCrash s))
             = Game.timeouts (Game.host s) ++ l /\
             Forall (fun p => snd p = Game.ClearCrashed) l) /\
  (Game.now (Game.host s) <= Game.now (Game.host (Game.handleCrash s)))%Z.
Proof.
  unfold Game.handleCrash. destruct (negb _); simpl;
    (split; [reflexivity|]); (split; [reflexivity|]); (split; [reflexivity|]);
    (split; [|lia]).
  - eexists. split; [reflexivity|]. repeat constructor.
  - exists []. rewrite app_nil_r. split; [reflexivity|constructor].
Qed.

Lemma SummonedAt_step (T : Z) (s : Game.State) (e : Game.Event) :
  SummonedAt T s -> SummonedAt T (Game.step s e).
Proof.
  intro Hinv. pose proof (step_Quiet s e) as Hq.
  destruct e; try (apply (SummonedAt_Quiet T s); [exact Hq|exact Hinv]); cbn [Game.step].
  - destruct (updateObstaclePositions_cases positions s)
      as [-> | [-> | [(Hev & Hatt & ->) | (Hev & Hatt & ->)]]].
    + exact Hinv.
    + apply (SummonedAt_Quiet T s); [apply Quiet_set_obstaclePositions|exact Hinv].
    + destruct (handleCrash_yeti_fields (Game.set_obstaclePositions positions s))
        as (F1 & F2 & F3 & F4 & F5).
      apply (SummonedAt_transfer T s); try exact Hinv; assumption.
    + apply (SummonedAt_transfer T s); try exact Hinv; try reflexivity.
      exists []. rewrite app_nil_r. split; [reflexivity|constructor].
  - apply (SummonedAt_transfer T s); try exact Hinv;
      unfold Game.scoreInterval; destruct (_ && _); try reflexivity;
      exists []; rewrite app_nil_r; (split; [reflexivity|constructor]).
  - rewrite yetiTriggerEffect_idle; [exact Hinv|exact (sum_appeared T s Hinv)].
  - destruct (fireTimeout_cases n s) as [-> | (d & cb & Hn & Hdue & ->)]; [exact Hinv|].
    destruct Hinv as [I1 I2 I3 I4 I5]. unfold DeadlinesOf in I2, I3.
    pose proof (Forall_removeNth _ n _ I2) as I2'.
    pose proof (Forall_removeNth _ n _ I3) as I3'.
    rewrite Forall_forall in I2, I3.
    specialize (I2 _ (nth_error_In _ _ Hn)). specialize (I3 _ (nth_error_In _ _ Hn)).
    simpl in I2, I3.
    destruct cb; constructor; try assumption; simpl; intros; try lia; auto.
    + specialize (I3 eq_refl). lia.
    + specialize (I2 eq_refl). lia.
Qed.

Lemma SummonedAt_run (T : Z) (es : list Game.Event) (s : Game.State) :
  SummonedAt T s -> SummonedAt T (Game.run s es).
Proof. apply run_preserves. exact (SummonedAt_step T). Qed.

(** The state the trigger leaves is summoned at the trigger's time. *)
Lemma SummonedAt_trigger (s : Game.State) :
  YetiInv s -> triggerFires s = true ->
  SummonedAt (Game.now (Game.host s)) (Game.yetiTriggerEffect s).
Proof.
  intros [I1 I2 I3 I4 I5] Hf.
  assert (Happ : Game.yetiHasAppeared (Game.refs s) = false).
  { unfold triggerFires in Hf. apply andb_true_iff in Hf. destruct Hf as [_ Hf].
    apply negb_true_iff in Hf. exact Hf. }
  destruct (I4 Happ) as (P1 & P2 & W).
  assert (Hatt : Game.yetiAttacking (Game.hooks s) = false).
  { destruct (Game.yetiAttacking (Game.hooks s)); [|reflexivity].
    specialize (I2 eq_refl). congruence. }
  unfold triggerFires in Hf. unfold Game.yetiTriggerEffect. rewrite Hf.
  constructor; simpl.
  - reflexivity.
  - unfold DeadlinesOf. simpl. rewrite <- app_assoc. apply Forall_app. split.
    + exact (countTimeout_zero_Forall Game.StartYetiAttack _ _ P1).
    + repeat constructor; simpl; intros; try discriminate. lia.
  - unfold DeadlinesOf. simpl. rewrite <- app_assoc. apply Forall_app. split.
    + exact (countTimeout_zero_Forall Game.HideYetiWarning _ _ P2).
    + repeat constructor; simpl; intros; try discriminate. lia.
  - rewrite Hatt. discriminate.
  - discriminate.
Qed.

(** ** Collision engine: the yeti and the skipped evaluations *)

Lemma Qabs_lt_iff (a b : Q) : Qabs a < b <-> - b < a /\ a < b.
Proof.
  split.
  - intro H. revert H. apply Qabs_case; intros; split; lra.
  - intros [H1 H2]. apply Qabs_case; intros; lra.
Qed.

Lemma yetiCollides_iff (s : Game.State) :
  Game.yetiCollides s = true <->
  Game.yetiAttacking (Game.hooks s) = true /\
  exists yp, Game.yetiPosition (Game.refs s) = Some yp /\
             Qabs (Game.position (Game.hooks s) - x yp) < Game.YETI_COLLISION_DISTANCE /\
             - Game.YETI_Z_COLLISION_DISTANCE < z yp /\
             z yp < Game.YETI_Z_COLLISION_DISTANCE.
Proof.
  unfold Game.yetiCollides. rewrite andb_true_iff.
  destruct (Game.yetiPosition (Game.refs s)) as [yp|].
  - rewrite andb_true_iff, !JS_lt_iff, (Qabs_lt_iff (0 - z yp)). split.
    + intros (Ha & Hx & Hz1 & Hz2). split; [exact Ha|]. exists yp.
      split; [reflexivity|]. split; [exact Hx|]. split; lra.
    + intros (Ha & yp' & [= <-] & Hx & Hz1 & Hz2).
      split; [exact Ha|]. split; [exact Hx|]. split; lra.
  - split; [intros [_ H]; discriminate|]. intros (_ & yp & H & _). discriminate.
Qed.

Lemma yeti_signal_iff (s : Game.State) (positions : list Point) :
  positions <> [] -> Evaluating s ->
  (In Game.YetiCatch (snd (Game.updateObstaclePositions positions s)) <->
   Game.yetiCollides s = true).
Proof.
  intros Hne (Hc & Hy & Hg).
  destruct positions as [|p rest]; [congruence|].
  unfold Game.updateObstaclePositions.
  cbn [Game.set_obstaclePositions Game.hooks Game.refs Game.host Game.lastCrashTime].
  rewrite Hc, Hy. cbn [negb andb].
  destruct (Game.now (Game.host s) - Game.lastCrashTime (Game.refs s) <? 500)%Z eqn:Eg.
  { apply Z.ltb_lt in Eg. lia. }
  change (Game.yetiCollides (Game.set_obstaclePositions (p :: rest) s))
    with (Game.yetiCollides s).
  destruct (Game.scanObstacles _ _); destruct (Game.yetiCollides s); simpl;
    split; intro H; try discriminate; auto;
    repeat (destruct H as [H|H]; try discriminate H); destruct H.
Qed.

(** X1.  When the engine evaluates a report, the yeti's catch is signalled
    exactly when the yeti is attacking, has reported a position, is
    horizontally within YETI_COLLISION_DISTANCE = 1.2 of the player and its
    z lies strictly in (-3, 3) around the player.  Whatever the state, a
    catch is never signalled while the yeti is not attacking or before it
    has reported a position. *)
Theorem X1_yeti_catch_criterion (s : Game.State) (positions : list Point) :
  (In Game.YetiCatch (snd (Game.updateObstaclePositions positions s)) ->
   Game.yetiAttacking (Game.hooks s) = true /\ Game.yetiPosition (Game.refs s) <> None) /\
  (positions <> [] -> Evaluating s ->
   (In Game.YetiCatch (snd (Game.updateObstaclePositions positions s)) <->
    Game.yetiAttacking (Game.hooks s) = true /\
    exists yp, Game.yetiPosition (Game.refs s) = Some yp /\
               Qabs (Game.position (Game.hooks s) - x yp) < 1.2 /\
               -3 < z yp /\ z yp < 3)).
Proof.
  assert (Hcrit : Game.yetiCollides s = true <->
            Game.yetiAttacking (Game.hooks s) = true /\
            exists yp, Game.yetiPosition (Game.refs s) = Some yp /\
                       Qabs (Game.position (Game.hooks s) - x yp) < 1.2 /\
                       -3 < z yp /\ z yp < 3).
  { rewrite yetiCollides_iff.
    unfold Game.YETI_COLLISION_DISTANCE, Game.YETI_Z_COLLISION_DISTANCE.
    split; intros (Ha & yp & Hp & Hx & H1 & H2); (split; [exact Ha|]); exists yp;
      (split; [exact Hp|]); (split; [exact Hx|]); split; lra. }
  split.
  - intro Hin.
    assert (Hne : positions <> []) by (destruct positions; [destruct Hin|discriminate]).
    assert (Hev : Evaluating s).
    { destruct positions as [|p rest]; [congruence|].
      unfold Game.updateObstaclePositions in Hin.
      cbn [Game.set_obstaclePositions Game.hooks Game.refs Game.host
           Game.lastCrashTime] in Hin.
      destruct (Game.crashed (Game.hooks s)) eqn:Hc; [destruct Hin|].
      destruct (Game.yetiCaught (Game.hooks s)) eqn:Hy; [destruct Hin|].
      destruct (_ <? 500)%Z eqn:Eg; [destruct Hin|].
      apply Z.ltb_ge in Eg. split; [exact Hc|]. split; [exact Hy|exact Eg]. }
    apply (yeti_signal_iff s positions Hne Hev), Hcrit in Hin.
    destruct Hin as (Ha & yp & Hp & _). split; [exact Ha|congruence].
  - intros Hne Hev. rewrite (yeti_signal_iff s positions Hne Hev). exact Hcrit.
Qed.

Lemma X1_witness :
  In Game.YetiCatch
     (snd (Game.updateObstaclePositions [mkPoint 3 100] (Game.run (Game.init 0) yetiNearby))).
Proof.
  assert (Hev : Evaluating (Game.run (Game.init 0) yetiNearby)).
  { split; [vm_compute; reflexivity|]. split; [vm_compute; reflexivity|].
    vm_compute. discriminate. }
  assert (Hne : [mkPoint 3 100] <> []) by discriminate.
  refine (proj2 (proj2 (X1_yeti_catch_criterion (Game.run (Game.init 0) yetiNearby)
                          [mkPoint 3 100]) Hne Hev) _).
  split; [vm_compute; reflexivity|]. exists (mkPoint 0.5 (-2)).
  split; [vm_compute; reflexivity|].
  split; [vm_compute; reflexivity|]. split; reflexivity.
Defined.

(** X2.  An empty report changes nothing.  A report that arrives while the
    player is crashed or caught, or less than 500 ms after the recorded
    crash time, is stored in [obstaclePositions] and nothing else happens:
    no handler is called and flags, score, crash time, clock and timeouts
    are as before. *)
Theorem X2_skipped_evaluation (s : Game.State) (positions : list Point) :
  Game.updateObstaclePositions [] s = (s, []) /\
  (positions <> [] -> ~ Evaluating s ->
   Game.updateObstaclePositions positions s
   = (Game.set_obstaclePositions positions s, []) /\
   Game.hooks (fst (Game.updateObstaclePositions positions s)) = Game.hooks s /\
   Game.host (fst (Game.updateObstaclePositions positions s)) = Game.host s /\
   Game.obstaclePositions (Game.refs (fst (Game.updateObstaclePositions positions s)))
   = positions).
Proof.
  split; [reflexivity|]. intros Hne Hnev.
  assert (E : Game.updateObstaclePositions positions s
              = (Game.set_obstaclePositions positions s, [])).
  { destruct positions as [|p rest]; [congruence|].
    unfold Game.updateObstaclePositions.
    cbn [Game.set_obstaclePositions Game.hooks Game.refs Game.host Game.lastCrashTime].
    destruct (Game.crashed (Game.hooks s)) eqn:Hc; [reflexivity|].
    destruct (Game.yetiCaught (Game.hooks s)) eqn:Hy; [reflexivity|].
    destruct (_ <? 500)%Z eqn:Eg; [reflexivity|].
    exfalso. apply Hnev. apply Z.ltb_ge in Eg.
    split; [exact Hc|]. split; [exact Hy|exact Eg]. }
  rewrite E. repeat split; reflexivity.
Qed.

(** A tree in the way of a player who crashed 100 ms ago is only stored. *)
Lemma X2_witness :
  Game.updateObstaclePositions [mkPoint 0 (-2)] (Game.run (Game.init 1000) justCrashed)
  = (Game.set_obstaclePositions [mkPoint 0 (-2)] (Game.run (Game.init 1000) justCrashed), []).
Proof.
  assert (Hnev : ~ Evaluating (Game.run (Game.init 1000) justCrashed)).
  { intros (Hc & _). vm_compute in Hc. discriminate. }
  assert (Hne : [mkPoint 0 (-2)] <> []) by discriminate.
  exact (proj1 (proj2 (X2_skipped_evaluation (Game.run (Game.init 1000) justCrashed)
                         [mkPoint 0 (-2)]) Hne Hnev)).
Defined.

(** ** Session bookkeeping *)

Lemma step_score_cases (s : Game.State) (e : Game.Event) :
  Game.score (Game.hooks (Game.step s e)) = Game.score (Game.hooks s) \/
  (e = Game.ScoreInterval /\
   Game.crashed (Game.hooks s) = false /\ Game.yetiCaught (Game.hooks s) = false /\
   Game.score (Game.hooks (Game.step s e)) = (Game.score (Game.hooks s) + 1)%Z) \/
  (exists positions,
     e = Game.UpdateObstacles positions /\ Evaluating s /\
     Game.yetiAttacking (Game.hooks s) = false /\
     Game.score (Game.hooks (Game.step s e)) = 0%Z).
Proof.
  pose proof (step_Quiet s e) as Hq.
  destruct e; try (left; exact (q_score _ _ Hq)); cbn [Game.step].
  - destruct (updateObstaclePositions_cases positions s)
      as [-> | [-> | [(Hev & Hatt & ->) | (Hev & Hatt & ->)]]];
      try (left; reflexivity).
    right. right. exists positions. split; [reflexivity|]. split; [exact Hev|].
    split; [exact Hatt|]. unfold Game.handleCrash.
    cbn [Game.set_obstaclePositions Game.hooks]. rewrite Hatt. reflexivity.
  - unfold Game.scoreInterval.
    destruct (Game.crashed (Game.hooks s)) eqn:Hc; [left; reflexivity|].
    destruct (Game.yetiCaught (Game.hooks s)) eqn:Hy; [left; reflexivity|].
    right. left. repeat split; reflexivity.
  - left. unfold Game.yetiTriggerEffect. destruct (_ && _); reflexivity.
  - left. destruct (fireTimeout_cases n s) as [-> | (d & cb & _ & _ & ->)];
      [reflexivity|destruct cb; reflexivity].
Qed.

(** X3.  In every session the score is never negative and reads 0 for as
    long as the player is crashed without being caught.  Any event either
    leaves the score alone, or is a score tick of a player neither crashed
    nor caught and adds exactly 1, or is an evaluation of the engine
    outside a yeti attack that resets it to 0. *)
Theorem X3_score_bookkeeping (t0 : Z) (es : list Game.Event) (e : Game.Event) :
  let s := Game.run (Game.init t0) es in
  (0 <= Game.score (Game.hooks s))%Z /\
  (Game.crashed (Game.hooks s) = true -> Game.yetiCaught (Game.hooks s) = false ->
   Game.score (Game.hooks s) = 0%Z) /\
  (Game.score (Game.hooks (Game.step s e)) = Game.score (Game.hooks s) \/
   (e = Game.ScoreInterval /\
    Game.crashed (Game.hooks s) = false /\ Game.yetiCaught (Game.hooks s) = false /\
    Game.score (Game.hooks (Game.step s e)) = (Game.score (Game.hooks s) + 1)%Z) \/
   (exists positions,
      e = Game.UpdateObstacles positions /\ Evaluating s /\
      Game.yetiAttacking (Game.hooks s) = false /\
      Game.score (Game.hooks (Game.step s e)) = 0%Z)).
Proof.
  intro s. destruct (ScoreInv_reachable t0 es) as [Hn Hz]. fold s in Hn, Hz.
  split; [exact Hn|]. split; [exact Hz|apply step_score_cases].
Qed.

(** Seven ticks, a crash, two more ticks: the score reads 0. *)
Lemma X3_witness :
  Game.score (Game.hooks (Game.run (Game.init 1000) scoredThenCrashed)) = 0%Z.
Proof.
  refine (proj1 (proj2 (X3_score_bookkeeping 1000 scoredThenCrashed Game.ScoreInterval)) _ _);
    vm_compute; reflexivity.
Defined.

(** X4.  In every session exactly one recovery timeout is pending while
    the player is crashed without being caught, and none otherwise; every
    pending recovery is due CRASH_RECOVERY_TIME = 2000 ms after the
    recorded crash time. *)
Theorem X4_recovery_in_flight (t0 : Z) (es : list Game.Event) :
  let s := Game.run (Game.init t0) es in
  pending Game.ClearCrashed s =
    (if Game.crashed (Game.hooks s) && negb (Game.yetiCaught (Game.hooks s))
     then 1%nat else 0%nat) /\
  DeadlinesOf Game.ClearCrashed
    (fun d => d = (Game.lastCrashTime (Game.refs s) + 2000)%Z) s.
Proof.
  intro s. destruct (RecoveryInv_reachable t0 es) as [[_ Hidle Hcaught] Hf Hd _].
  fold s in Hidle, Hcaught, Hf, Hd. split; [|exact Hd].
  destruct (Game.crashed (Game.hooks s)) eqn:Hc.
  - destruct (Game.yetiCaught (Game.hooks s)) eqn:Hy; simpl.
    + exact (proj2 (Hcaught eq_refl)).
    + exact (Hf eq_refl eq_refl).
  - exact (Hidle eq_refl).
Qed.

(** X5.  In a session started at a clock time of at least 500 ms (any real
    [Date.now()]), whenever the player is not crashed at least 500 ms have
    passed since the recorded crash time: the grace window never
    suppresses an evaluation that the [crashed] flag allows, and the
    engine evaluates exactly when the player is neither crashed nor
    caught. *)
Theorem X5_grace_window_subsumed (t0 : Z) (es : list Game.Event) :
  (500 <= t0)%Z ->
  let s := Game.run (Game.init t0) es in
  (Game.crashed (Game.hooks s) = false ->
   (500 <= Game.now (Game.host s) - Game.lastCrashTime (Game.refs s))%Z) /\
  (Evaluating s <->
   Game.crashed (Game.hooks s) = false /\ Game.yetiCaught (Game.hooks s) = false).
Proof.
  intros Ht0 s. pose proof (rec_since t0 _ (RecoveryInv_reachable t0 es)) as Hs.
  fold s in Hs. unfold Game.CRASH_RECOVERY_TIME in Hs.
  assert (Hg : Game.crashed (Game.hooks s) = false ->
               (500 <= Game.now (Game.host s) - Game.lastCrashTime (Game.refs s))%Z).
  { intro Hc. specialize (Hs Hc). lia. }
  split; [exact Hg|]. unfold Evaluating. split.
  - intros (Hc & Hy & _). split; assumption.
  - intros (Hc & Hy). split; [exact Hc|]. split; [exact Hy|exact (Hg Hc)].
Qed.

Lemma X5_witness : Evaluating (Game.run (Game.init 1000) crashedAndRecovered).
Proof.
  refine (proj2 (proj2 (X5_grace_window_subsumed 1000 crashedAndRecovered _)) _).
  - lia.
  - split; vm_compute; reflexivity.
Defined.

(** X6.  In every session the yeti is shown exactly when it is attacking;
    it attacks only after the trigger has marked its appearance; the
    player is caught only by an attacking yeti; before the appearance no
    warning is shown and no warning or attack timeout is pending; and the
    attack is started at most once (a pending start and a running attack
    never coexist, nor two pending starts). *)
Theorem X6_yeti_appearance_order (t0 : Z) (es : list Game.Event) :
  let s := Game.run (Game.init t0) es in
  Game.showYeti (Game.hooks s) = Game.yetiAttacking (Game.hooks s) /\
  (Game.yetiAttacking (Game.hooks s) = true -> Game.yetiHasAppeared (Game.refs s) = true) /\
  (Game.yetiCaught (Game.hooks s) = true -> Game.yetiAttacking (Game.hooks s) = true) /\
  (Game.yetiHasAppeared (Game.refs s) = false ->
   Game.showYetiWarning (Game.hooks s) = false /\
   pending Game.StartYetiAttack s = 0%nat /\ pending Game.HideYetiWarning s = 0%nat) /\
  (pending Game.StartYetiAttack s
   + (if Game.yetiAttacking (Game.hooks s) then 1 else 0) <= 1)%nat.
Proof.
  intro s. destruct (YetiInv_reachable t0 es) as [I1 I2 I3 I4 I5].
  fold s in I1, I2, I3, I4, I5.
  split; [exact I1|]. split; [exact I2|]. split; [exact I3|]. split.
  - intro H. destruct (I4 H) as (P1 & P2 & W). repeat split; assumption.
  - destruct (Game.yetiHasAppeared (Game.refs s)) eqn:Happ.
    + rewrite (I5 eq_refl). lia.
    + destruct (I4 eq_refl) as (P1 & _ & _). rewrite P1.
      destruct (Game.yetiAttacking (Game.hooks s)); [|simpl; lia].
      specialize (I2 eq_refl). congruence.
Qed.

Lemma X6_witness :
  Game.yetiAttacking (Game.hooks (Game.run (Game.init 0) caughtSession)) = true.
Proof.
  refine (proj1 (proj2 (proj2 (X6_yeti_appearance_order 0 caughtSession))) _).
  vm_compute. reflexivity.
Defined.

(** X7.  When the trigger fires in a session at clock time T, then after
    any further events the yeti is attacking (or has caught the player)
    only if the clock has reached T + YETI_ATTACK_DELAY = T + 5000, and
    the warning is hidden again only if the clock has reached T + 3000. *)
Theorem X7_summons_delays (t0 : Z) (es0 es : list Game.Event) :
  let s := Game.run (Game.init t0) es0 in
  triggerFires s = true ->
  let s' := Game.run (Game.yetiTriggerEffect s) es in
  (Game.yetiAttacking (Game.hooks s') = true ->
   (Game.now (Game.host s) + 5000 <= Game.now (Game.host s'))%Z) /\
  (Game.yetiCaught (Game.hooks s') = true ->
   (Game.now (Game.host s) + 5000 <= Game.now (Game.host s'))%Z) /\
  (Game.showYetiWarning (Game.hooks s') = false ->
   (Game.now (Game.host s) + 3000 <= Game.now (Game.host s'))%Z).
Proof.
  intros s Hf s'.
  pose proof (YetiInv_reachable t0 es0) as Hy. fold s in Hy.
  pose proof (SummonedAt_run _ es _ (SummonedAt_trigger s Hy Hf)) as [_ _ _ Ha Hw].
  fold s' in Ha, Hw. unfold Game.YETI_ATTACK_DELAY in Ha.
  assert (Hy' : YetiInv s').
  { unfold s'. apply run_preserves; [exact YetiInv_step|].
    exact (YetiInv_step s Game.YetiTriggerEffect Hy). }
  split; [exact Ha|]. split; [|exact Hw].
  intro Hc. exact (Ha (yeti_caught_attack s' Hy' Hc)).
Qed.

Lemma X7_witness :
  (Game.now (Game.host (Game.run (Game.init 0) (repeat Game.ScoreInterval 50))) + 5000
   <= Game.now (Game.host
        (Game.run (Game.yetiTriggerEffect
                     (Game.run (Game.init 0) (repeat Game.ScoreInterval 50)))
           [Game.Elapse 7000; Game.FireTimeout 1])))%Z.
Proof.
  refine (proj1 (X7_summons_delays 0 (repeat Game.ScoreInterval 50)
                   [Game.Elapse 7000; Game.FireTimeout 1] _) _);
    vm_compute; reflexivity.
Defined.

(** ** Look-behind, keys and steering *)

(** X8.  The look-behind flag takes no part in the game logic: with the
    flag set or cleared the engine signals the same collisions and the
    player controller computes the same position, and both leave the flag
    as they found it; and no key event, the space bar included, moves the
    player or touches crash state, score or timeouts. *)
Theorem X8_look_behind_is_cosmetic (s : Game.State) (b : bool) (positions : list Point)
    (key code : string) :
  Game.updateObstaclePositions positions (Game.setLookBehind b s)
  = (Game.setLookBehind b (fst (Game.updateObstaclePositions positions s)),
     snd (Game.updateObstaclePositions positions s)) /\
  Game.updatePosition (Game.setLookBehind b s) = Game.setLookBehind b (Game.updatePosition s) /\
  Game.position (Game.hooks (Game.handleKeyDown key code s)) = Game.position (Game.hooks s) /\
  Game.position (Game.hooks (Game.handleKeyUp key code s)) = Game.position (Game.hooks s) /\
  Quiet s (Game.handleKeyDown key code s) /\ Quiet s (Game.handleKeyUp key code s) /\
  Game.lookBehind (Game.hooks (Game.handleKeyDown key "Space" s)) = true /\
  Game.lookBehind (Game.hooks (Game.handleKeyUp key "Space" s)) = false.
Proof.
  split.
  { unfold Game.updateObstaclePositions. destruct positions as [|p rest]; [reflexivity|].
    cbn [Game.set_obstaclePositions Game.setLookBehind Game.hooks Game.refs Game.host
         Game.crashed Game.yetiCaught Game.position Game.now Game.lastCrashTime].
    destruct (negb (Game.crashed (Game.hooks s)) && negb (Game.yetiCaught (Game.hooks s)));
      [|reflexivity].
    destruct (_ <? 500)%Z; [reflexivity|].
    change (Game.yetiCollides
              (Game.set_obstaclePositions (p :: rest) (Game.setLookBehind b s)))
      with (Game.yetiCollides (Game.set_obstaclePositions (p :: rest) s)).
    destruct (Game.yetiCollides (Game.set_obstaclePositions (p :: rest) s));
      destruct (Game.scanObstacles (Game.position (Game.hooks s)) (p :: rest));
      try reflexivity;
      unfold Game.handleCrash;
      cbn [Game.set_obstaclePositions Game.setLookBehind Game.hooks Game.yetiAttacking];
      destruct (negb (Game.yetiAttacking (Game.hooks s))); reflexivity. }
  split.
  { unfold Game.updatePosition.
    cbn [Game.setLookBehind Game.hooks Game.refs Game.crashed Game.yetiCaught].
    destruct (negb _ && negb _); [|reflexivity].
    destruct (_ || _); destruct (_ || _); reflexivity. }
  split; [apply (step_position s (Game.KeyDown key code)); discriminate|].
  split; [apply (step_position s (Game.KeyUp key code)); discriminate|].
  split; [exact (step_Quiet s (Game.KeyDown key code))|].
  split; [exact (step_Quiet s (Game.KeyUp key code))|].
  split; reflexivity.
Qed.

Lemma caught_position_step (s : Game.State) (e : Game.Event) :
  Game.crashed (Game.hooks s) = true \/ Game.yetiCaught (Game.hooks s) = true ->
  Game.position (Game.hooks (Game.step s e)) = Game.position (Game.hooks s).
Proof.
  intro H.
  assert (Hd : e = Game.AnimationFrame \/ e <> Game.AnimationFrame)
    by (destruct e; (left; reflexivity) || (right; discriminate)).
  destruct Hd as [-> | He]; [|apply step_position, He].
  cbn [Game.step]. unfold Game.updatePosition.
  destruct H as [-> | ->]; [|rewrite andb_false_r]; reflexivity.
Qed.

Lemma caught_position_run (es : list Game.Event) (s : Game.State) :
  CrashInv s -> Game.yetiCaught (Game.hooks s) = true ->
  Game.position (Game.hooks (Game.run s es)) = Game.position (Game.hooks s).
Proof.
  revert s. induction es as [|e es IH]; intros s Hinv Hy; [reflexivity|].
  rewrite run_cons.
  destruct (caught_step s e Hinv Hy) as (Hy' & _ & _).
  rewrite (IH _ (step_CrashInv s e Hinv) Hy').
  apply caught_position_step. right. exact Hy.
Qed.

(** X9.  No event moves a player who is crashed or caught, whatever keys
    are held; and once the player is caught in a session the position is
    frozen for the rest of it. *)
Theorem X9_no_steering_when_down (t0 : Z) (es0 es : list Game.Event) (s : Game.State)
    (e : Game.Event) :
  (Game.crashed (Game.hooks s) = true \/ Game.yetiCaught (Game.hooks s) = true ->
   Game.position (Game.hooks (Game.step s e)) = Game.position (Game.hooks s)) /\
  (Game.yetiCaught (Game.hooks (Game.run (Game.init t0) es0)) = true ->
   Game.position (Game.hooks (Game.run (Game.run (Game.init t0) es0) es))
   = Game.position (Game.hooks (Game.run (Game.init t0) es0))).
Proof.
  split; [apply caught_position_step|].
  apply caught_position_run, reachable_CrashInv.
Qed.

Lemma X9_witness :
  Game.position (Game.hooks
    (Game.run (Game.run (Game.init 0) caughtSession)
       (Game.KeyDown "a" "KeyA" :: repeat Game.AnimationFrame 5)))
  = Game.position (Game.hooks (Game.run (Game.init 0) caughtSession)).
Proof.
  refine (proj2 (X9_no_steering_when_down 0 caughtSession
                   (Game.KeyDown "a" "KeyA" :: repeat Game.AnimationFrame 5)
                   (Game.init 0) Game.AnimationFrame) _).
  vm_compute. reflexivity.
Defined.

Lemma steer_values (prev : Q) :
  -4 <= prev <= 4 ->
  steer false false prev = prev /\
  (prev <= 3.9 -> steer true false prev == prev + 0.1) /\
  (3.9 <= prev -> steer true false prev == 4) /\
  (-3.9 <= prev -> steer false true prev == prev - 0.1) /\
  (prev <= -3.9 -> steer false true prev == -4) /\
  (prev <= 3.9 -> steer true true prev == prev) /\
  (3.9 <= prev -> steer true true prev == 3.9).
Proof.
  intros [Hlo Hhi]. unfold steer.
  pose proof slope_bounds as [Elo Ehi].
  set (hi := Game.slopeWidth / 2 - 1) in *.
  set (lo := - Game.slopeWidth / 2 + 1) in *.
  unfold Game.moveSpeed.
  split; [reflexivity|].
  destruct (Q.min_spec (prev + 0.1) hi) as [[H1 E1]|[H1 E1]];
    destruct (Q.max_spec (prev - 0.1) lo) as [[H2 E2]|[H2 E2]];
    destruct (Q.max_spec (Qmin (prev + 0.1) hi - 0.1) lo) as [[H3 E3]|[H3 E3]];
    repeat split; intros; lra.
Qed.

(** X10.  For a player inside the bounds who is neither crashed nor
    caught, a frame with no steering key held leaves x alone; with only a
    left key (ArrowLeft or a) held x grows by exactly 0.1, or lands on 4
    when within 0.1 of it; with only a right key (ArrowRight or d) held x
    shrinks by exactly 0.1, or lands on -4; with keys of both sides held x
    is unchanged, except within 0.1 of the right edge, where it ends at
    3.9. *)
Theorem X10_steering_values (s : Game.State) :
  Game.crashed (Game.hooks s) = false -> Game.yetiCaught (Game.hooks s) = false ->
  InBounds s ->
  let keys := Game.keysPressed (Game.refs s) in
  let left := keys "ArrowLeft"%string || keys "a"%string in
  let right := keys "ArrowRight"%string || keys "d"%string in
  let prev := Game.position (Game.hooks s) in
  let next := Game.position (Game.hooks (Game.updatePosition s)) in
  (left = false -> right = false -> next = prev) /\
  (left = true -> right = false ->
   (prev <= 3.9 -> next == prev + 0.1) /\ (3.9 <= prev -> next == 4)) /\
  (left = false -> right = true ->
   (-3.9 <= prev -> next == prev - 0.1) /\ (prev <= -3.9 -> next == -4)) /\
  (left = true -> right = true ->
   (prev <= 3.9 -> next == prev) /\ (3.9 <= prev -> next == 3.9)).
Proof.
  intros Hc Hy Hb keys left right prev next.
  apply InBounds_iff in Hb. fold prev in Hb.
  assert (E : next = steer left right prev).
  { unfold next. rewrite updatePosition_position, Hc, Hy. reflexivity. }
  destruct (steer_values prev Hb) as (V0 & V1 & V2 & V3 & V4 & V5 & V6).
  rewrite E.
  split; [intros -> ->; exact V0|].
  split; [intros -> ->; split; assumption|].
  split; intros -> ->; split; assumption.
Qed.

(** Both sides held at the right edge: the player ends at 3.9. *)
Lemma X10_witness :
  Game.position (Game.hooks (Game.updatePosition (Game.run (Game.init 0) bothKeysAtEdge)))
  == 3.9.
Proof.
  refine (proj2 (proj2 (proj2 (proj2 (X10_steering_values
            (Game.run (Game.init 0) bothKeysAtEdge) _ _ _))) _ _) _).
  - vm_compute. reflexivity.
  - vm_compute. reflexivity.
  - apply reachable_InBounds.
  - vm_compute. reflexivity.
  - vm_compute. reflexivity.
  - vm_compute. discriminate.
Defined.

(** X11.  Key state is kept per key: after a key-down the key reads as
    held, after the matching key-up as released, in both cases whatever
    it was before, and every other key reads as it did.  A key never
    pressed reads as released. *)
Theorem X11_key_state (s : Game.State) (key code other : string) :
  Game.keysPressed (Game.refs (Game.handleKeyDown key code s)) key = true /\
  Game.keysPressed (Game.refs (Game.handleKeyUp key code s)) key = false /\
  Game.keysPressed (Game.refs
    (Game.handleKeyUp key code (Game.handleKeyDown key code s))) key = false /\
  (other <> key ->
   Game.keysPressed (Game.refs (Game.handleKeyDown key code s)) other
   = Game.keysPressed (Game.refs s) other /\
   Game.keysPressed (Game.refs (Game.handleKeyUp key code s)) other
   = Game.keysPressed (Game.refs s) other) /\
  (forall t0, Game.keysPressed (Game.refs (Game.init t0)) key = false).
Proof.
  assert (Hd : forall v s', Game.keysPressed (Game.refs
             (if String.eqb code "Space" then Game.setLookBehind v s' else s'))
           = Game.keysPressed (Game.refs s')).
  { intros v s'. destruct (String.eqb code "Space"); reflexivity. }
  unfold Game.handleKeyDown, Game.handleKeyUp. rewrite !Hd.
  cbn [Game.set_keysPressed Game.refs Game.keysPressed]. unfold Game.setKey.
  rewrite !String.eqb_refl.
  split; [reflexivity|]. split; [reflexivity|]. split; [reflexivity|].
  split; [|reflexivity].
  intro Hne. apply String.eqb_neq in Hne. rewrite Hne. split; reflexivity.
Qed.

Lemma X11_witness :
  Game.keysPressed (Game.refs (Game.handleKeyDown "a" "KeyA" (Game.init 0))) "d" = false.
Proof.
  refine (eq_trans (proj1 (proj1 (proj2 (proj2 (proj2
            (X11_key_state (Game.init 0) "a" "KeyA" "d")))) _)) _).
  - discriminate.
  - reflexivity.
Defined.

(** ** Obstacle trees: recycling *)

Lemma lane_of_random (rand : Q) :
  IsRandom rand -> (0 <= Qfloor (rand * 5) <= 4)%Z.
Proof.
  intros [H0 H1]. split.
  - change 0%Z with (Qfloor 0). apply Qfloor_resp_le. lra.
  - assert (H : inject_Z (Qfloor (rand * 5)) < inject_Z 5).
    { apply Qle_lt_trans with (rand * 5); [apply Qfloor_le|].
      change (inject_Z 5) with 5. lra. }
    rewrite <- Zlt_Qlt in H. lia.
Qed.

Lemma lane_bounds (x : Q) : OnLane x -> -1.5 <= x /\ x <= 0.9.
Proof.
  intros (k & [H0 H4] & ->). unfold lane.
  assert (L0 : inject_Z 0 <= inject_Z k) by (rewrite <- Zle_Qle; exact H0).
  assert (L4 : inject_Z k <= inject_Z 4) by (rewrite <- Zle_Qle; exact H4).
  change (inject_Z 0) with 0 in L0. change (inject_Z 4) with 4 in L4.
  split; lra.
Qed.

(** The capped frame, by case on the advanced z. *)
Lemma capped_frame_tree (cb : bool) (delta rand : Q) (t : ObstacleTree.Tree) (o : Object3D) :
  ObstacleTree.treeRef t = Some o ->
  let z1 := position_z o - ObstacleTreeCapped.moveAmount delta in
  let t' := fst (ObstacleTreeCapped.useFrame cb delta rand t) in
  (-15 <= z1 ->
   ObstacleTree.treeRef t'
   = Some (mkObject3D (position_x o) (position_y o) z1 (scale_y o)) /\
   ObstacleTree.position t' = ObstacleTree.position t) /\
  (z1 < -15 ->
   ObstacleTree.treeRef t'
   = Some (mkObject3D (lane (Qfloor (rand * 5))) (position_y o)
             ObstacleTree.OBSTACLE_SPAWN_DISTANCE (scale_y o)) /\
   ObstacleTree.position t'
   = (lane (Qfloor (rand * 5)), 0, ObstacleTree.OBSTACLE_SPAWN_DISTANCE)).
Proof.
  intros Ho z1 t'. unfold t', ObstacleTreeCapped.useFrame, ObstacleTree.advance.
  rewrite Ho. cbn [position_x position_y position_z scale_y]. fold z1.
  destruct cb; cbn [ObstacleTree.treeRef ObstacleTree.position ObstacleTree.lastPositionRef];
    (destruct (JS.lt z1 (-15)) eqn:E;
     [apply JS_lt_iff in E|apply JS_lt_false_iff in E];
     (split; intro H; [try (exfalso; lra)|try (exfalso; lra)]; split; reflexivity)).
Qed.

Lemma capped_frame_in_range (x0 delta rand : Q) (t : ObstacleTree.Tree) :
  0 <= delta -> IsRandom rand -> TreeInRange x0 t ->
  TreeInRange x0 (fst (ObstacleTreeCapped.useFrame true delta rand t)).
Proof.
  intros Hd Hr (o & Ho & Hlo & Hhi & Hx).
  destruct (capped_frame_tree true delta rand t o Ho) as [Hstay Hreset].
  pose proof (moveAmount_capped_sign delta) as [M0 _]. specialize (M0 Hd).
  destruct (Qlt_le_dec (position_z o - ObstacleTreeCapped.moveAmount delta) (-15))
    as [Hlt|Hge].
  - destruct (Hreset Hlt) as [E _]. eexists. split; [exact E|].
    cbn [position_x position_z]. unfold ObstacleTree.OBSTACLE_SPAWN_DISTANCE.
    split; [lra|]. split; [lra|]. right.
    exists (Qfloor (rand * 5)). split; [apply lane_of_random, Hr|reflexivity].
  - destruct (Hstay Hge) as [E _]. eexists. split; [exact E|].
    cbn [position_x position_z]. split; [exact Hge|]. split; [lra|exact Hx].
Qed.

Lemma treeRun_in_range (x0 : Q) (inputs : list (Q * Q)) (t : ObstacleTree.Tree) :
  Forall (fun input => 0 <= fst input /\ IsRandom (snd input)) inputs ->
  TreeInRange x0 t ->
  TreeInRange x0 (treeRun ObstacleTreeCapped.useFrame inputs t).
Proof.
  revert t. induction inputs as [|[delta rand] inputs IH]; intros t Hin Ht; [exact Ht|].
  inversion Hin as [|? ? [Hd Hr] Hrest]; subst. simpl in Hd, Hr.
  unfold treeRun. cbn [fold_left fst snd]. apply IH; [exact Hrest|].
  apply capped_frame_in_range; assumption.
Qed.

(** X12.  Capped revision: a frame of a mounted tree leaves its group at
    the advanced z when that is at least -15, with x and position state
    untouched; and otherwise recycles it at once to z = 120 on the lane
    floor(5 * random) of the five lanes x = -1.5, -0.9, -0.3, 0.3, 0.9,
    position state included.  So over any frames with nonnegative frame
    times a tree that starts with z in [-15, 120] keeps z in [-15, 120]
    and an x that is its first x or a lane. *)
Theorem X12_capped_tree_recycling (cb : bool) (delta rand x0 : Q) (inputs : list (Q * Q))
    (t : ObstacleTree.Tree) (o : Object3D) :
  ObstacleTree.treeRef t = Some o ->
  let z1 := position_z o - ObstacleTreeCapped.moveAmount delta in
  let t' := fst (ObstacleTreeCapped.useFrame cb delta rand t) in
  (-15 <= z1 ->
   ObstacleTree.treeRef t'
   = Some (mkObject3D (position_x o) (position_y o) z1 (scale_y o)) /\
   ObstacleTree.position t' = ObstacleTree.position t) /\
  (z1 < -15 ->
   ObstacleTree.treeRef t'
   = Some (mkObject3D (lane (Qfloor (rand * 5))) (position_y o) 120 (scale_y o)) /\
   ObstacleTree.position t' = (lane (Qfloor (rand * 5)), 0, 120) /\
   (IsRandom rand -> OnLane (lane (Qfloor (rand * 5))) /\
                     -1.5 <= lane (Qfloor (rand * 5)) <= 0.9)) /\
  (Forall (fun input => 0 <= fst input /\ IsRandom (snd input)) inputs ->
   TreeInRange x0 t -> TreeInRange x0 (treeRun ObstacleTreeCapped.useFrame inputs t)).
Proof.
  intros Ho z1 t'. destruct (capped_frame_tree cb delta rand t o Ho) as [Hstay Hreset].
  split; [exact Hstay|]. split; [|apply treeRun_in_range].
  intro Hlt. destruct (Hreset Hlt) as [E1 E2]. split; [exact E1|]. split; [exact E2|].
  intro Hr.
  assert (Hl : OnLane (lane (Qfloor (rand * 5)))).
  { exists (Qfloor (rand * 5)). split; [apply lane_of_random, Hr|reflexivity]. }
  split; [exact Hl|]. apply lane_bounds, Hl.
Qed.

(** A tree at z = -14.5 seen one capped frame later is back at z = 120,
    on lane 3 (x = 0.3) for a draw of 0.7. *)
Lemma X12_witness :
  let t := ObstacleTree.mkTree (1, 0, 120) (Some (mkObject3D 1 0 (-14.5) 1)) (mkPoint 0 120) in
  ObstacleTree.treeRef (fst (ObstacleTreeCapped.useFrame true 0.05 0.7 t))
  = Some (mkObject3D (lane 3) 0 120 1).
Proof.
  intro t.
  refine (proj1 (proj1 (proj2 (X12_capped_tree_recycling true 0.05 0.7 1 [] t
                                 (mkObject3D 1 0 (-14.5) 1) eq_refl)) _)).
  vm_compute. reflexivity.
Defined.

(** X13.  First revision: a frame of a mounted tree always leaves its
    group at the advanced z, also when that is below -15; in that case it
    only requests, through the position state, a respawn at z = 120 with
    x = 6 * random - 3, which lies in [-3, 3) and so within the player's
    reach; otherwise the position state is untouched. *)
Theorem X13_first_tree_recycling (cb : bool) (delta rand : Q)
    (t : ObstacleTree.Tree) (o : Object3D) :
  ObstacleTree.treeRef t = Some o ->
  let z1 := position_z o - ObstacleTree.moveAmount delta in
  let t' := fst (ObstacleTree.useFrame cb delta rand t) in
  ObstacleTree.treeRef t' = Some (mkObject3D (position_x o) (position_y o) z1 (scale_y o)) /\
  (-15 <= z1 -> ObstacleTree.position t' = ObstacleTree.position t) /\
  (z1 < -15 ->
   exists xPos, ObstacleTree.position t' = (xPos, 0, 120) /\
                xPos == 6 * rand - 3 /\
                (IsRandom rand -> -3 <= xPos /\ xPos < 3)).
Proof.
  intros Ho z1 t'. unfold t', ObstacleTree.useFrame, ObstacleTree.advance.
  rewrite Ho. cbn [position_x position_y position_z scale_y]. fold z1.
  assert (Hx : rand * (ObstacleTree.SLOPE_WIDTH - 4) - (ObstacleTree.SLOPE_WIDTH - 4) / 2
               == 6 * rand - 3).
  { unfold ObstacleTree.SLOPE_WIDTH. field. }
  destruct cb; cbn [ObstacleTree.treeRef ObstacleTree.position ObstacleTree.lastPositionRef];
    (destruct (JS.lt z1 (-15)) eqn:E;
     [apply JS_lt_iff in E|apply JS_lt_false_iff in E];
     unfold ObstacleTree.resetTree;
     cbn [ObstacleTree.treeRef ObstacleTree.position ObstacleTree.lastPositionRef];
     (split; [reflexivity|]);
     (split; intro H; try (exfalso; lra); try reflexivity);
     eexists; (split; [reflexivity|]); (split; [exact Hx|]);
     intros [H0 H1]; rewrite Hx; split; lra).
Qed.

Lemma X13_witness :
  let t := ObstacleTree.mkTree (1, 0, 120) (Some (mkObject3D 1 0 (-14.5) 1)) (mkPoint 0 120) in
  exists xPos,
    ObstacleTree.position (fst (ObstacleTree.useFrame true 0.05 0.7 t)) = (xPos, 0, 120) /\
    xPos == 1.2.
Proof.
  intro t.
  destruct (proj2 (proj2 (X13_first_tree_recycling true 0.05 0.7 t
                            (mkObject3D 1 0 (-14.5) 1) eq_refl)))
    as (xPos & E & Hx & _).
  - vm_compute. reflexivity.
  - exists xPos. split; [exact E|]. rewrite Hx. reflexivity.
Defined.

(** ** Obstacle trees: no tunnelling through the danger zone *)

Lemma capped_report_floor (delta rand : Q) (t : ObstacleTree.Tree) (o : Object3D) :
  ObstacleTree.treeRef t = Some o -> 0 <= position_z o ->
  exists p, snd (ObstacleTreeCapped.useFrame true delta rand t) = Some p /\
            x p = position_x o /\ -1.44 <= z p.
Proof.
  intros Ho Hz. unfold ObstacleTreeCapped.useFrame.
  rewrite (advance_report _ _ t o Ho). eexists. split; [reflexivity|].
  split; [reflexivity|]. cbn [z].
  set (move := ObstacleTreeCapped.moveAmount delta).
  pose proof (moveAmount_capped_bound delta) as Hb. fold move in Hb.
  unfold ObstacleTree.SLOPE_SPEED in Hb.
  set (z1 := position_z o - move).
  destruct (predictionFactor_bands (Qabs z1)) as (B1 & B2 & B3).
  pose proof (predictionFactor_range (Qabs z1)) as [F0 F1].
  destruct (Qlt_le_dec move 0) as [Hneg|Hpos].
  - (* the tree moved away: the prediction is ahead of it *)
    assert (0 <= (- move) * ObstacleTree.predictionFactor (Qabs z1))
      by (apply Qmult_le_0_compat; lra).
    unfold z1 in *. lra.
  - destruct (Qlt_le_dec z1 0) as [Hz1|Hz1].
    + assert (Hab : Qabs z1 < 5) by (apply Qabs_case; intros; unfold z1 in *; lra).
      rewrite (B1 Hab). unfold z1 in *. lra.
    + assert (0 <= move * (1 - ObstacleTree.predictionFactor (Qabs z1)))
        by (apply Qmult_le_0_compat; lra).
      lra.
Qed.

(** X14.  Capped revision: a tree that has not yet reached the player
    (z >= 0 before the frame) reports, whatever the frame time, a z of at
    least -1.44; so the first negative z it reports lies inside the danger
    zone (-COLLISION_Z_THRESHOLD, 0) of the collision engine: a tree cannot
    jump over the zone in one frame. *)
Theorem X14_capped_no_tunnelling (delta rand : Q) (t : ObstacleTree.Tree) (o : Object3D) :
  ObstacleTree.treeRef t = Some o -> 0 <= position_z o ->
  exists p, snd (ObstacleTreeCapped.useFrame true delta rand t) = Some p /\
            x p = position_x o /\ -1.44 <= z p /\
            (z p < 0 -> - Game.COLLISION_Z_THRESHOLD < z p /\ z p < 0).
Proof.
  intros Ho Hz. destruct (capped_report_floor delta rand t o Ho Hz) as (p & Hp & Hx & Hf).
  exists p. split; [exact Hp|]. split; [exact Hx|]. split; [exact Hf|].
  intro Hneg. unfold Game.COLLISION_Z_THRESHOLD. split; lra.
Qed.

Lemma X14_witness :
  exists p,
    snd (ObstacleTreeCapped.useFrame true 1 0.5
           (ObstacleTree.mkTree (0, 0, 120) (Some (mkObject3D 0 0 0.5 1)) (mkPoint 0 120)))
    = Some p /\ -1.44 <= z p.
Proof.
  destruct (X14_capped_no_tunnelling 1 0.5
              (ObstacleTree.mkTree (0, 0, 120) (Some (mkObject3D 0 0 0.5 1)) (mkPoint 0 120))
              (mkObject3D 0 0 0.5 1) eq_refl) as (p & Hp & _ & Hf & _).
  - vm_compute. discriminate.
  - exists p. split; [exact Hp|exact Hf].
Defined.

(** The first revision has no such bound: after a one-second frame a tree
    at z = 10 reports z = -26, beyond the danger zone. *)
Example first_revision_tunnels :
  exists p,
    snd (ObstacleTree.useFrame true 1 0.5
           (ObstacleTree.mkTree (0, 0, 120) (Some (mkObject3D 0 0 10 1)) (mkPoint 0 120)))
    = Some p /\ z p == -26 /\
    Game.scanObstacles 0 [p] = None.
Proof. eexists. split; [reflexivity|]. split; reflexivity. Qed.

(** ** From the tree to the crash *)

Lemma singleton_scan (playerX : Q) (p : Point) :
  (Hits playerX p -> Game.scanObstacles playerX [p] = Some p) /\
  (~ Hits playerX p -> Game.scanObstacles playerX [p] = None).
Proof.
  rewrite scanObstacles_cons. cbn [Game.scanObstacles].
  destruct (_ && _ && _) eqn:E.
  - split; [reflexivity|]. intro H. exfalso. apply H. apply hit_test_iff. exact E.
  - split; [|reflexivity]. intro H. apply hit_test_iff in H. congruence.
Qed.

(** X15.  A capped tree mounted in the slope of a game that is evaluating
    collisions: if the tree has not yet reached the player and is
    horizontally within COLLISION_DISTANCE of the player, then in the very
    frame in which its reported z becomes negative the game signals the
    crash into it (and, outside a yeti attack, is left crashed with score
    0); while the reported z is not negative no tree crash is signalled. *)
Theorem X15_tree_in_path_crashes (delta rand : Q) (t : ObstacleTree.Tree) (o : Object3D)
    (g : Game.State) :
  ObstacleTree.treeRef t = Some o -> 0 <= position_z o ->
  Evaluating g ->
  Qabs (Game.position (Game.hooks g) - position_x o) < Game.COLLISION_DISTANCE ->
  exists t' g' log p,
    Slope.obstacleFrame ObstacleTreeCapped.useFrame delta rand t g = (t', g', log) /\
    snd (ObstacleTreeCapped.useFrame true delta rand t) = Some p /\
    (z p < 0 ->
     In (Game.TreeCrash p) log /\
     (Game.yetiAttacking (Game.hooks g) = false ->
      Game.crashed (Game.hooks g') = true /\ Game.score (Game.hooks g') = 0%Z)) /\
    (0 <= z p -> forall o', ~ In (Game.TreeCrash o') log).
Proof.
  intros Ho Hz Hev Hdx.
  destruct (capped_report_floor delta rand t o Ho Hz) as (p & Hp & Hx & Hf).
  unfold Slope.obstacleFrame.
  destruct (ObstacleTreeCapped.useFrame true delta rand t) as [t' report] eqn:Hfr.
  cbn [snd] in Hp. subst report.
  unfold Slope.handleObstaclePositionUpdate.
  assert (Heta : mkPoint (x p) (z p) = p) by (destruct p; reflexivity).
  rewrite Heta.
  destruct (Game.updateObstaclePositions [p] g) as [g' log] eqn:Hupd.
  exists t', g', log, p. split; [reflexivity|]. split; [reflexivity|].
  assert (Hne : [p] <> []) by discriminate.
  pose proof (updateObstaclePositions_tree_log g [p] Hne Hev) as Hlog.
  pose proof (updateObstaclePositions_evaluating g [p] Hne Hev) as Hst.
  rewrite Hupd in Hlog, Hst. cbn [fst snd] in Hlog, Hst. cbv zeta in Hst.
  destruct (singleton_scan (Game.position (Game.hooks g)) p) as [Hhit Hmiss].
  split.
  - intro Hneg.
    assert (Hh : Hits (Game.position (Game.hooks g)) p).
    { unfold Hits, Game.COLLISION_Z_THRESHOLD. rewrite Hx.
      split; [lra|]. split; [exact Hneg|exact Hdx]. }
    rewrite (Hhit Hh) in Hlog, Hst. split.
    + apply In_TreeCrash_filter. rewrite Hlog. left. reflexivity.
    + intro Hatt.
      rewrite (yetiCollides_idle (Game.set_obstaclePositions [p] g)) in Hst by exact Hatt.
      destruct (handleCrash_effective (Game.set_obstaclePositions [p] g) Hatt)
        as (Hc & Hs & _).
      rewrite Hst. split; [exact Hc|exact Hs].
  - intros Hpos o' Hin.
    assert (Hh : ~ Hits (Game.position (Game.hooks g)) p).
    { intros (_ & Hlt & _). lra. }
    rewrite (Hmiss Hh) in Hlog.
    apply In_TreeCrash_filter in Hin. rewrite Hlog in Hin. destruct Hin.
Qed.

(** A capped tree at (0, 0.1) in front of a player at x = 0 on the first
    state of a session: 1/60 s later the crash is in the log. *)
Lemma X15_witness :
  exists t' g' log p,
    Slope.obstacleFrame ObstacleTreeCapped.useFrame (1 # 60) 0.5
      (ObstacleTree.mkTree (0, 0, 120) (Some (mkObject3D 0 0 0.1 1)) (mkPoint 0 120))
      (Game.init 1000) = (t', g', log) /\
    In (Game.TreeCrash p) log /\ Game.crashed (Game.hooks g') = true.
Proof.
  destruct (X15_tree_in_path_crashes (1 # 60) 0.5
              (ObstacleTree.mkTree (0, 0, 120) (Some (mkObject3D 0 0 0.1 1)) (mkPoint 0 120))
              (mkObject3D 0 0 0.1 1) (Game.init 1000) eq_refl)
    as (t' & g' & log & p & Hf & Hp & Hneg & _).
  - vm_compute. discriminate.
  - unfold Evaluating. simpl. repeat split; lia.
  - vm_compute. reflexivity.
  - exists t', g', log, p. split; [exact Hf|].
    vm_compute in Hp. injection Hp as <-.
    destruct Hneg as [Hin Hcr]; [vm_compute; reflexivity|].
    split; [exact Hin|]. apply Hcr. reflexivity.
Defined.

(** ** Scenery *)

(** X16.  Every pair of scenery trees that [TreeField] places stands off
    the slope: the left one at x <= -5.5, the right one at x >= 5.5 (the
    slope spans [-5, 5] and the player [-4, 4]), both at the same z in
    [-150, 250). *)
Theorem X16_side_trees_off_slope (rand1 rand2 rand3 : Q) :
  IsRandom rand1 -> IsRandom rand2 -> IsRandom rand3 ->
  let '((lx, _, lz), (rx, _, rz)) := Slope.treeFieldPair rand1 rand2 rand3 in
  lx <= -5.5 /\ 5.5 <= rx /\
  lx < - Slope.SLOPE_WIDTH / 2 /\ Slope.SLOPE_WIDTH / 2 < rx /\
  lz = rz /\ -150 <= lz /\ lz < 250.
Proof.
  intros [A0 A1] [B0 B1] [C0 C1]. unfold Slope.treeFieldPair, Slope.SLOPE_WIDTH.
  assert (E : (10 : Q) / 2 == 5) by reflexivity.
  assert (E' : - (10 : Q) / 2 == -5) by reflexivity.
  repeat split; try reflexivity; rewrite ?E, ?E'; lra.
Qed.

Lemma X16_witness :
  let '((lx, _, lz), (rx, _, rz)) := Slope.treeFieldPair 0.5 0 0.99 in
  lx <= -5.5 /\ 5.5 <= rx.
Proof.
  pose proof (X16_side_trees_off_slope 0.5 0 0.99) as H.
  cbv beta iota delta [Slope.treeFieldPair] in H |- *.
  destruct H as (H1 & H2 & _); [split; lra..|].
  split; [exact H1|exact H2].
Defined.

(** ** Interpolation *)

Lemma lerp_error (a b t : Q) : JS.lerp a b t - b == (1 - t) * (a - b).
Proof. unfold JS.lerp. ring. Qed.

Lemma lerp_between (a b t : Q) :
  0 <= t <= 1 -> a <= b -> a <= JS.lerp a b t /\ JS.lerp a b t <= b.
Proof.
  intros [H0 H1] Hab. unfold JS.lerp.
  assert (0 <= t * (b - a)) by (apply Qmult_le_0_compat; lra).
  assert (0 <= (1 - t) * (b - a)) by (apply Qmult_le_0_compat; lra).
  split; lra.
Qed.

Lemma lerp_between_rev (a b t : Q) :
  0 <= t <= 1 -> b <= a -> b <= JS.lerp a b t /\ JS.lerp a b t <= a.
Proof.
  intros [H0 H1] Hab. unfold JS.lerp.
  assert (0 <= t * (a - b)) by (apply Qmult_le_0_compat; lra).
  assert (0 <= (1 - t) * (a - b)) by (apply Qmult_le_0_compat; lra).
  split; lra.
Qed.

(** Blending with a factor of at most 1 never passes a bound that both
    the start and the target respect. *)
Lemma lerp_upper (a b t c : Q) : t <= 1 -> a <= b -> b <= c -> JS.lerp a b t <= c.
Proof.
  intros H1 Hab Hbc. unfold JS.lerp.
  assert (0 <= (1 - t) * (b - a)) by (apply Qmult_le_0_compat; lra).
  lra.
Qed.

(** X17.  [lerp start end t] leaves the fraction 1 - t of the gap to the
    end: it returns the start for t = 0 and the end for t = 1, and for t
    in [0, 1] a value between start and end, so it never overshoots. *)
Theorem X17_lerp_contracts (a b t : Q) :
  JS.lerp a b t - b == (1 - t) * (a - b) /\
  JS.lerp a b 0 == a /\ JS.lerp a b 1 == b /\
  (0 <= t <= 1 ->
   Qmin a b <= JS.lerp a b t /\ JS.lerp a b t <= Qmax a b /\
   Qabs (JS.lerp a b t - b) <= Qabs (a - b)).
Proof.
  split; [apply lerp_error|]. split; [unfold JS.lerp; ring|].
  split; [unfold JS.lerp; ring|]. intro Ht.
  assert (Habs : Qabs (JS.lerp a b t - b) <= Qabs (a - b)).
  { rewrite lerp_error, Qabs_Qmult.
    rewrite (Qabs_pos (1 - t)) by lra.
    assert (0 <= Qabs (a - b)) by apply Qabs_nonneg.
    assert (0 <= t * Qabs (a - b)) by (apply Qmult_le_0_compat; lra).
    lra. }
  destruct (Qlt_le_dec a b) as [Hab|Hab].
  - destruct (lerp_between a b t Ht) as [L U]; [lra|].
    rewrite (Q.min_l a b), (Q.max_r a b) by lra. split; [exact L|]. split; [exact U|exact Habs].
  - destruct (lerp_between_rev a b t Ht Hab) as [L U].
    rewrite (Q.min_r a b), (Q.max_l a b) by lra. split; [exact L|]. split; [exact U|exact Habs].
Qed.

Lemma X17_witness : Qabs (JS.lerp 0 4 0.1 - 4) <= Qabs (0 - 4).
Proof.
  refine (proj2 (proj2 (proj2 (proj2 (proj2 (X17_lerp_contracts 0 4 0.1))) _))).
  split; lra.
Defined.

(** ** Skiier *)

Lemma qpow_range (n : nat) : 0 <= qpow 0.9 n /\ qpow 0.9 n <= 1.
Proof.
  induction n as [|n [IH0 IH1]]; simpl; [split; lra|].
  assert (0 <= 0.9 * qpow 0.9 n) by (apply Qmult_le_0_compat; lra).
  split; lra.
Qed.

Lemma skiier_mount_settled (PI : Q) (p : Skiier.Props) : SkiierSettled (Skiier.mount PI p).
Proof.
  unfold SkiierSettled, Skiier.mount. eexists. split; [reflexivity|].
  cbn. repeat split; reflexivity.
Qed.

(** A render followed by the effect leaves the skier settled at the new x. *)
Lemma skiier_rerender_settled (p : Skiier.Props) (s : Skiier.State) :
  SkiierSettled s -> SkiierSettled (Skiier.positionEffect p (Skiier.render p s)).
Proof.
  intros (o & Ho & Hx & Ht & Hy & Hz).
  unfold SkiierSettled, Skiier.positionEffect, Skiier.render. rewrite Ho.
  cbn [Skiier.skiierRef Skiier.targetPositionX Skiier.rendered].
  destruct (Qeq_bool (Skiier.positionX p) (Skiier.positionX (Skiier.rendered s))) eqn:Ex;
    [destruct (Bool.eqb (Skiier.crashed p) (Skiier.crashed (Skiier.rendered s))) eqn:Ec|];
    cbn [andb]; eexists; (split; [reflexivity|]);
    cbn [Skiier.pose_x Skiier.pose_y Skiier.rotation_z].
  - apply Qeq_bool_iff in Ex. apply Bool.eqb_prop in Ec.
    split; [rewrite Hx, Ht, Ex; reflexivity|]. split; [reflexivity|].
    split; [rewrite Hy, Ec; reflexivity|exact Hz].
  - split; [reflexivity|]. split; [reflexivity|]. split; [reflexivity|exact Hz].
  - split; [reflexivity|]. split; [reflexivity|]. split; [reflexivity|exact Hz].
Qed.

(** A frame of a settled skier: x and roll stay, the pitch follows the
    crash state. *)
Lemma skiier_frame_settled (PI : Q) (s : Skiier.State) (o : Skiier.Pose) :
  SkiierSettled s -> Skiier.skiierRef s = Some o ->
  let s' := Skiier.useFrame PI (Skiier.crashed (Skiier.rendered s)) s in
  SkiierSettled s' /\
  Skiier.rendered s' = Skiier.rendered s /\
  exists o',
    Skiier.skiierRef s' = Some o' /\
    Skiier.pose_x o' == Skiier.pose_x o /\
    (Skiier.crashed (Skiier.rendered s) = true ->
     Skiier.rotation_x o' - (- PI / 2) == 0.9 * (Skiier.rotation_x o - (- PI / 2))) /\
    (Skiier.crashed (Skiier.rendered s) = false ->
     Skiier.rotation_x o' = Skiier.HILL_ANGLE_RAD PI).
Proof.
  intros (o0 & Ho0 & Hx & Ht & Hy & Hz) Ho. rewrite Ho in Ho0. injection Ho0 as <-.
  cbv zeta. unfold Skiier.useFrame. rewrite Ho.
  assert (Hnx : JS.lerp (Skiier.pose_x o) (Skiier.targetPositionX s) 0.1
                == Skiier.targetPositionX s) by (unfold JS.lerp; lra).
  destruct (Skiier.crashed (Skiier.rendered s)) eqn:Hc.
  - split; [|split; [reflexivity|]].
    + eexists. split; [reflexivity|].
      cbn [Skiier.pose_x Skiier.pose_y Skiier.rotation_z Skiier.targetPositionX
           Skiier.rendered].
      split; [exact Hnx|]. split; [exact Ht|]. split; [rewrite Hc; exact Hy|exact Hz].
    + eexists. split; [reflexivity|]. cbn [Skiier.pose_x Skiier.rotation_x].
      split; [rewrite Hnx, Hx; reflexivity|]. split; [|discriminate].
      intros _. rewrite lerp_error. ring.
  - split; [|split; [reflexivity|]].
    + eexists. split; [reflexivity|].
      cbn [Skiier.pose_x Skiier.pose_y Skiier.rotation_z Skiier.targetPositionX
           Skiier.rendered].
      split; [exact Hnx|]. split; [exact Ht|]. split; [rewrite Hc; exact Hy|].
      unfold JS.lerp in *. lra.
    + eexists. split; [reflexivity|]. cbn [Skiier.pose_x Skiier.rotation_x].
      split; [rewrite Hnx, Hx; reflexivity|]. split; [discriminate|]. reflexivity.
Qed.

Lemma skiier_step_settled (PI : Q) (s : Skiier.State) (e : Skiier.Event) :
  SkiierSettled s -> SkiierSettled (Skiier.step PI s e).
Proof.
  intro Hs. destruct e as [p|]; cbn [Skiier.step].
  - apply skiier_rerender_settled, Hs.
  - destruct Hs as (o & Ho & Hrest).
    exact (proj1 (skiier_frame_settled PI s o (ex_intro _ o (conj Ho Hrest)) Ho)).
Qed.

Lemma skiier_run_settled (PI : Q) (es : list Skiier.Event) (s : Skiier.State) :
  SkiierSettled s -> SkiierSettled (Skiier.run PI s es).
Proof.
  revert s. induction es as [|e es IH]; intros s Hs; [exact Hs|].
  change (Skiier.run PI s (e :: es)) with (Skiier.run PI (Skiier.step PI s e) es).
  apply IH, skiier_step_settled, Hs.
Qed.

(** [n] consecutive frames of a settled skier. *)
Lemma skiier_frames_settled (PI : Q) (n : nat) :
  forall (s : Skiier.State) (o : Skiier.Pose),
  SkiierSettled s -> Skiier.skiierRef s = Some o ->
  exists o',
    Skiier.skiierRef (Skiier.run PI s (repeat Skiier.AnimationFrame n)) = Some o' /\
    Skiier.pose_x o' == Skiier.pose_x o /\
    (Skiier.crashed (Skiier.rendered s) = true ->
     Skiier.rotation_x o' - (- PI / 2)
     == qpow 0.9 n * (Skiier.rotation_x o - (- PI / 2))) /\
    (Skiier.crashed (Skiier.rendered s) = false -> (1 <= n)%nat ->
     Skiier.rotation_x o' = Skiier.HILL_ANGLE_RAD PI).
Proof.
  induction n as [|n IH]; intros s o Hs Ho.
  - exists o. cbn [repeat Skiier.run fold_left qpow]. split; [exact Ho|].
    split; [reflexivity|]. split; [intros _; ring|intros _ H; lia].
  - destruct (skiier_frame_settled PI s o Hs Ho) as (Hs1 & Hr1 & o1 & Ho1 & Hx1 & Hc1 & Hu1).
    cbv zeta in Hs1, Hr1, Ho1.
    destruct (IH _ o1 Hs1 Ho1) as (o' & Ho' & Hx' & Hc' & Hu').
    rewrite Hr1 in Hc', Hu'.
    exists o'. cbn [repeat qpow].
    change (Skiier.run PI s (Skiier.AnimationFrame :: repeat Skiier.AnimationFrame n))
      with (Skiier.run PI (Skiier.useFrame PI (Skiier.crashed (Skiier.rendered s)) s)
              (repeat Skiier.AnimationFrame n)).
    split; [exact Ho'|]. split; [rewrite Hx', Hx1; reflexivity|]. split.
    + intro Hc. rewrite (Hc' Hc), (Hc1 Hc). ring.
    + intros Hc _. destruct n as [|n].
      * cbn [repeat Skiier.run fold_left] in Ho'. rewrite Ho1 in Ho'. injection Ho' as <-.
        exact (Hu1 Hc).
      * apply (Hu' Hc). lia.
Qed.

(** X18.  However the game re-renders the skier and whatever frames are
    displayed in between, the group's x equals the target, which is the x
    of the latest render: the render writes the new x to the group before
    a frame could interpolate towards it, so frames never move x and the
    roll towards the movement stays 0; the group's y is -0.3 when crashed
    and 0.1 otherwise.  Over n consecutive frames a crashed skier's pitch
    closes the gap to -PI/2 by the factor 0.9^n, and an upright skier's
    pitch is the hill angle from the first frame on. *)
Theorem X18_skiier_follows_position (PI : Q) (p0 : Skiier.Props) (es : list Skiier.Event)
    (n : nat) :
  let s := Skiier.run PI (Skiier.mount PI p0) es in
  exists o,
    Skiier.skiierRef s = Some o /\
    Skiier.pose_x o == Skiier.positionX (Skiier.rendered s) /\
    Skiier.targetPositionX s = Skiier.positionX (Skiier.rendered s) /\
    Skiier.pose_y o = Skiier.groupY (Skiier.crashed (Skiier.rendered s)) /\
    Skiier.rotation_z o == 0 /\
    exists o',
      Skiier.skiierRef (Skiier.run PI s (repeat Skiier.AnimationFrame n)) = Some o' /\
      Skiier.pose_x o' == Skiier.pose_x o /\
      (Skiier.crashed (Skiier.rendered s) = true ->
       Skiier.rotation_x o' - (- PI / 2)
       == qpow 0.9 n * (Skiier.rotation_x o - (- PI / 2))) /\
      (Skiier.crashed (Skiier.rendered s) = false -> (1 <= n)%nat ->
       Skiier.rotation_x o' = Skiier.HILL_ANGLE_RAD PI).
Proof.
  intro s.
  pose proof (skiier_run_settled PI es _ (skiier_mount_settled PI p0)) as Hs. fold s in Hs.
  destruct Hs as (o & Ho & Hx & Ht & Hy & Hz).
  exists o. split; [exact Ho|]. split; [rewrite Hx, Ht; reflexivity|].
  split; [exact Ht|]. split; [exact Hy|]. split; [exact Hz|].
  apply skiier_frames_settled; [|exact Ho].
  exists o. split; [exact Ho|]. split; [exact Hx|]. split; [exact Ht|]. split; assumption.
Qed.

(** A skier steered from x = 0 to x = 1 and then crashed there: the group
    is at x = 1, and two frames later 0.81 of the pitch gap is left. *)
Lemma X18_witness :
  let s := Skiier.run 3 (Skiier.mount 3 (Skiier.mkProps 0 false))
             [Skiier.AnimationFrame; Skiier.Rerender (Skiier.mkProps 1 false);
              Skiier.AnimationFrame; Skiier.Rerender (Skiier.mkProps 1 true)] in
  exists o o',
    Skiier.skiierRef s = Some o /\ Skiier.pose_x o == 1 /\
    Skiier.skiierRef (Skiier.run 3 s (repeat Skiier.AnimationFrame 2)) = Some o' /\
    Skiier.rotation_x o' - (- 3 / 2) == 0.81 * (Skiier.rotation_x o - (- 3 / 2)).
Proof.
  intro s.
  destruct (X18_skiier_follows_position 3 (Skiier.mkProps 0 false)
              [Skiier.AnimationFrame; Skiier.Rerender (Skiier.mkProps 1 false);
               Skiier.AnimationFrame; Skiier.Rerender (Skiier.mkProps 1 true)] 2)
    as (o & Ho & Hx & _ & _ & _ & o' & Ho' & _ & Hc & _).
  exists o, o'. split; [exact Ho|]. split; [exact Hx|]. split; [exact Ho'|].
  apply Hc. reflexivity.
Defined.

(** ** Yeti: ranges and pursuit *)

Section YetiPursuit.

Variable sin : Q -> Q.

(** What the phase switch leaves in chase speed, target z and jump height. *)
Lemma phaseSwitch_fields (p : Yeti.Props) (f : Yeti.Frame) (dt : Q) (o : Object3D)
    (s : Yeti.State) :
  let s1 := Yeti.phaseSwitch sin p f dt o s in
  Yeti.targetPositionZ s1 = phaseTargetZ (initialZ p) (Yeti.attackPhase s) /\
  Yeti.chaseSpeed s1 =
    match Yeti.attackPhase s with
    | Yeti.APPROACH => JS.lerp (Yeti.chaseSpeed s) 0.07 0.01
    | Yeti.CHASE => JS.lerp (Yeti.chaseSpeed s) 0.1 0.01
    | Yeti.ATTACK => 0.18
    end /\
  0 <= Yeti.jumpHeight s1 /\
  (Yeti.visibilityHeight s <= 1.015 -> dt <= 0.05 -> Yeti.visibilityHeight s1 <= 1.015).
Proof.
  unfold Yeti.phaseSwitch, initialZ.
  destruct (Yeti.initialPosition p) as [[ix iy] iz].
  destruct (Yeti.attackPhase s);
    cbn [Yeti.targetPositionZ Yeti.chaseSpeed Yeti.jumpHeight Yeti.visibilityHeight
         phaseTargetZ snd];
    (split; [reflexivity|]); (split; [reflexivity|]);
    (split; [apply Qmult_le_0_compat; [apply Qabs_nonneg|lra]|]); intros Hv Hd.
  - destruct (JS.lt (Yeti.visibilityHeight s) 1.0) eqn:E; [|exact Hv].
    apply JS_lt_iff in E. lra.
  - lra.
  - exact Hv.
Qed.

Lemma chaseSpeed_next (cs : Q) (ph : Yeti.AttackPhase) :
  0.05 <= cs -> cs <= 0.18 ->
  let cs' := match ph with
             | Yeti.APPROACH => JS.lerp cs 0.07 0.01
             | Yeti.CHASE => JS.lerp cs 0.1 0.01
             | Yeti.ATTACK => 0.18
             end in
  0.05 <= cs' /\ cs' <= 0.18.
Proof.
  intros H0 H1. destruct ph; unfold JS.lerp; cbv zeta; split; lra.
Qed.

(** A frame of a mounted, attacking yeti, in terms of the phase switch. *)
Lemma useFrame_moves (p : Yeti.Props) (f : Yeti.Frame) (s : Yeti.State) (o : Object3D) :
  Yeti.yetiRef s = Some o -> Yeti.attacking p = true ->
  let dt := Yeti.smoothDelta (Yeti.delta f) in
  let s1 := Yeti.phaseSwitch sin p f dt o s in
  let s' := fst (Yeti.useFrame sin p f s) in
  exists o',
    Yeti.yetiRef s' = Some o' /\
    position_z o' = JS.lerp (position_z o) (Yeti.targetPositionZ s1)
                      (Yeti.chaseSpeed s1 * dt * 60) /\
    position_y o' = Yeti.visibilityHeight s1 + Yeti.jumpHeight s1 /\
    Yeti.chaseSpeed s' = Yeti.chaseSpeed s1 /\
    Yeti.jumpHeight s' = Yeti.jumpHeight s1 /\
    Yeti.visibilityHeight s' = Yeti.visibilityHeight s1 /\
    Yeti.attackPhase s' = Yeti.attackPhase s1.
Proof.
  intros Ho Ha. unfold Yeti.useFrame. rewrite Ho, Ha. cbn [negb fst].
  eexists. repeat split; reflexivity.
Qed.

(** Ranges kept by every event. *)
Lemma yeti_ranges_step (s : Yeti.State) (e : Yeti.Event) :
  0.05 <= Yeti.chaseSpeed s /\ Yeti.chaseSpeed s <= 0.18 /\
  0 <= Yeti.jumpHeight s /\ Yeti.visibilityHeight s <= 1.015 ->
  0.05 <= Yeti.chaseSpeed (Yeti.step sin s e) /\
  Yeti.chaseSpeed (Yeti.step sin s e) <= 0.18 /\
  0 <= Yeti.jumpHeight (Yeti.step sin s e) /\
  Yeti.visibilityHeight (Yeti.step sin s e) <= 1.015.
Proof.
  intros (C0 & C1 & J & V).
  destruct e as [p|p|p player|p f]; cbn [Yeti.step].
  - unfold Yeti.mount. destruct (Yeti.initialPosition p) as [[? ?] ?]. simpl. tauto.
  - unfold Yeti.initialPositionEffect. destruct (Yeti.yetiRef s); [|tauto].
    destruct (Yeti.initialPosition p) as [[? ?] ?]. simpl. tauto.
  - unfold Yeti.attackingEffect. destruct (Yeti.attacking p); simpl; tauto.
  - destruct (Yeti.yetiRef s) as [o|] eqn:Ho;
      [|unfold Yeti.useFrame; rewrite Ho; simpl; tauto].
    destruct (Yeti.attacking p) eqn:Ha;
      [|unfold Yeti.useFrame; rewrite Ho, Ha; simpl; tauto].
    destruct (useFrame_moves p f s o Ho Ha) as (o' & _ & _ & _ & Ec & Ej & Ev & _).
    destruct (phaseSwitch_fields p f (Yeti.smoothDelta (Yeti.delta f)) o s)
      as (_ & Hcs & Hj & Hv).
    rewrite Ec, Ej, Ev, Hcs.
    destruct (chaseSpeed_next (Yeti.chaseSpeed s) (Yeti.attackPhase s) C0 C1) as [N0 N1].
    split; [exact N0|]. split; [exact N1|]. split; [exact Hj|].
    apply Hv; [exact V|]. apply yeti_smoothDelta_bound.
Qed.

Lemma yeti_ranges_run (es : list Yeti.Event) (s : Yeti.State) :
  0.05 <= Yeti.chaseSpeed s /\ Yeti.chaseSpeed s <= 0.18 /\
  0 <= Yeti.jumpHeight s /\ Yeti.visibilityHeight s <= 1.015 ->
  0.05 <= Yeti.chaseSpeed (Yeti.run sin s es) /\
  Yeti.chaseSpeed (Yeti.run sin s es) <= 0.18 /\
  0 <= Yeti.jumpHeight (Yeti.run sin s es) /\
  Yeti.visibilityHeight (Yeti.run sin s es) <= 1.015.
Proof.
  revert s. induction es as [|e es IH]; intros s H; [exact H|].
  change (Yeti.run sin s (e :: es)) with (Yeti.run sin (Yeti.step sin s e) es).
  apply IH, yeti_ranges_step, H.
Qed.

(** The blend factor of z for a chase speed in range. *)
Lemma z_blend_range (cs delta : Q) :
  0.05 <= cs -> cs <= 0.18 ->
  cs * Yeti.smoothDelta delta * 60 <= 0.54 /\
  (0 <= delta -> 0 <= cs * Yeti.smoothDelta delta * 60).
Proof.
  intros C0 C1. destruct (yeti_smoothDelta_bound delta) as (D1 & D0 & _).
  set (dt := Yeti.smoothDelta delta) in *. split.
  - assert (0 <= cs * (0.05 - dt)) by (apply Qmult_le_0_compat; lra). lra.
  - intro Hd. specialize (D0 Hd).
    assert (0 <= cs * dt) by (apply Qmult_le_0_compat; lra). lra.
Qed.

End YetiPursuit.

(** X19.  Whatever happens to a yeti (any events, frame times and props),
    its chase speed stays within [0.05, 0.18], its jump height is never
    negative and its visibility height never exceeds 1.015; so the blend
    factor chaseSpeed * smoothDelta * 60 of its z is at most 0.54, and not
    negative for a nonnegative frame time: a frame covers at most 54% of
    the gap to the target and never overshoots it. *)
Theorem X19_yeti_ranges (sin : Q -> Q) (p0 : Yeti.Props) (es : list Yeti.Event) (delta : Q) :
  let s := Yeti.run sin (Yeti.init p0) es in
  0.05 <= Yeti.chaseSpeed s /\ Yeti.chaseSpeed s <= 0.18 /\
  0 <= Yeti.jumpHeight s /\ Yeti.visibilityHeight s <= 1.015 /\
  Yeti.chaseSpeed s * Yeti.smoothDelta delta * 60 <= 0.54 /\
  (0 <= delta -> 0 <= Yeti.chaseSpeed s * Yeti.smoothDelta delta * 60).
Proof.
  intro s.
  assert (H0 : 0.05 <= Yeti.chaseSpeed (Yeti.init p0) /\
               Yeti.chaseSpeed (Yeti.init p0) <= 0.18 /\
               0 <= Yeti.jumpHeight (Yeti.init p0) /\
               Yeti.visibilityHeight (Yeti.init p0) <= 1.015).
  { unfold Yeti.init. destruct (Yeti.initialPosition p0) as [[? ?] ?]. simpl.
    repeat split; lra. }
  destruct (yeti_ranges_run sin es _ H0) as (C0 & C1 & J & V). fold s in C0, C1, J, V.
  destruct (z_blend_range (Yeti.chaseSpeed s) delta C0 C1) as [B1 B0].
  repeat split; assumption.
Qed.

Lemma X19_witness :
  0 <= Yeti.chaseSpeed (Yeti.run flatSin (Yeti.init (yetiProps true true)) [])
       * Yeti.smoothDelta (1 # 60) * 60.
Proof.
  refine (proj2 (proj2 (proj2 (proj2 (proj2
            (X19_yeti_ranges flatSin (yetiProps true true) [] (1 # 60)))))) _).
  lra.
Defined.

Section YetiChaseFacts.

Variable sin : Q -> Q.
Variable p : Yeti.Props.
Hypothesis p_attacking : Yeti.attacking p = true.
Hypothesis p_far : initialZ p <= -45.

(** One frame with a nonnegative frame time: the yeti stays behind the
    target of its new phase and does not move back. *)
Lemma chase_frame (f : Yeti.Frame) (s : Yeti.State) :
  0 <= Yeti.delta f -> YetiChase (initialZ p) s ->
  YetiChase (initialZ p) (fst (Yeti.useFrame sin p f s)) /\
  exists z0 z1, yetiZ s = Some z0 /\ yetiZ (fst (Yeti.useFrame sin p f s)) = Some z1 /\
                z0 <= z1.
Proof.
  intros Hd (o & Ho & C0 & C1 & Hz).
  destruct (useFrame_moves sin p f s o Ho p_attacking)
    as (o' & Ho' & Ez & _ & Ec & _ & _ & Ep).
  destruct (phaseSwitch_fields sin p f (Yeti.smoothDelta (Yeti.delta f)) o s)
    as (Et & Hcs & _ & _).
  destruct (chaseSpeed_next (Yeti.chaseSpeed s) (Yeti.attackPhase s) C0 C1) as [N0 N1].
  rewrite <- Hcs in N0, N1.
  destruct (z_blend_range _ (Yeti.delta f) N0 N1) as [B1 B0]. specialize (B0 Hd).
  rewrite Et in Ez.
  destruct (lerp_between (position_z o) (phaseTargetZ (initialZ p) (Yeti.attackPhase s))
              (Yeti.chaseSpeed (Yeti.phaseSwitch sin p f (Yeti.smoothDelta (Yeti.delta f)) o s)
               * Yeti.smoothDelta (Yeti.delta f) * 60)) as [L U];
    [split; lra|exact Hz|].
  rewrite <- Ez in L, U.
  split.
  - exists o'. split; [exact Ho'|]. rewrite Ec. split; [exact N0|]. split; [exact N1|].
    rewrite Ep.
    pose proof (useFrame_phase sin p f s) as Hph. rewrite Ho, p_attacking in Hph.
    rewrite <- Ep, Hph.
    destruct (Yeti.attackPhase s); cbn [phaseTargetZ] in *.
    + destruct (JS.lt (position_z o) (-40)); cbn [phaseTargetZ]; lra.
    + destruct (JS.lt (position_z o) (-7)); cbn [phaseTargetZ]; lra.
    + exact U.
  - exists (position_z o), (position_z o'). unfold yetiZ. rewrite Ho, Ho'.
    split; [reflexivity|]. split; [reflexivity|exact L].
Qed.

Lemma chase_frames (fs : list Yeti.Frame) (s : Yeti.State) :
  Forall (fun f => 0 <= Yeti.delta f) fs -> YetiChase (initialZ p) s ->
  YetiChase (initialZ p) (Yeti.run sin s (framesWith p fs)) /\
  exists z0 z1, yetiZ s = Some z0 /\ yetiZ (Yeti.run sin s (framesWith p fs)) = Some z1 /\
                z0 <= z1.
Proof.
  revert s. induction fs as [|f fs IH]; intros s Hfs Hs.
  - split; [exact Hs|]. destruct Hs as (o & Ho & _).
    exists (position_z o), (position_z o). unfold yetiZ. cbn [framesWith map Yeti.run fold_left].
    rewrite Ho. split; [reflexivity|]. split; [reflexivity|lra].
  - inversion Hfs as [|? ? Hd Hrest]; subst.
    destruct (chase_frame f s Hd Hs) as (Hs1 & z0 & z1 & E0 & E1 & H01).
    destruct (IH _ Hrest Hs1) as (Hs' & z1' & z2 & E1' & E2 & H12).
    change (Yeti.run sin s (framesWith p (f :: fs)))
      with (Yeti.run sin (fst (Yeti.useFrame sin p f s)) (framesWith p fs)).
    split; [exact Hs'|]. exists z0, z2. split; [exact E0|]. split; [exact E2|].
    rewrite E1 in E1'. injection E1' as <-. lra.
Qed.

Lemma spawned_chase (player : Point) : YetiChase (initialZ p) (yetiSpawned p player).
Proof.
  unfold yetiSpawned, Yeti.attackingEffect, Yeti.initialPositionEffect, Yeti.mount,
    Yeti.init, initialZ in *.
  rewrite p_attacking. destruct (Yeti.initialPosition p) as [[ix iy] iz].
  cbn in *. eexists. split; [reflexivity|]. cbn. repeat split; lra.
Qed.

End YetiChaseFacts.

Lemma framesWith_app (p : Yeti.Props) (fs1 fs2 : list Yeti.Frame) :
  framesWith p (fs1 ++ fs2) = framesWith p fs1 ++ framesWith p fs2.
Proof. apply map_app. Qed.

(** X20.  A yeti spawned at least 45 behind the player (the game spawns it
    at z = -120) and rendered attacking, over frames with nonnegative
    frame times: its z never decreases and never exceeds 0.8, the target
    of the ATTACK phase; and as long as it has not reached the ATTACK
    phase its z is at most -15, out of the catching range of the collision
    engine, so a yeti with z above -3 is in the ATTACK phase. *)
Theorem X20_yeti_pursuit (sin : Q -> Q) (p : Yeti.Props) (player : Point)
    (fs1 fs2 : list Yeti.Frame) :
  Yeti.attacking p = true -> initialZ p <= -45 ->
  Forall (fun f => 0 <= Yeti.delta f) (fs1 ++ fs2) ->
  let s1 := Yeti.run sin (yetiSpawned p player) (framesWith p fs1) in
  let s2 := Yeti.run sin (yetiSpawned p player) (framesWith p (fs1 ++ fs2)) in
  exists z1 z2,
    yetiZ s1 = Some z1 /\ yetiZ s2 = Some z2 /\
    z1 <= z2 /\ z2 <= 0.8 /\
    (Yeti.attackPhase s2 <> Yeti.ATTACK -> z2 <= -15) /\
    (-3 < z2 -> Yeti.attackPhase s2 = Yeti.ATTACK).
Proof.
  intros Ha Hfar Hfs s1 s2. apply Forall_app in Hfs. destruct Hfs as [H1 H2].
  destruct (chase_frames sin p Ha Hfar fs1 _ H1 (spawned_chase p Ha Hfar player))
    as (Hc1 & _). fold s1 in Hc1.
  destruct (chase_frames sin p Ha Hfar fs2 s1 H2 Hc1) as (Hc2 & z1 & z2 & E1 & E2 & Hle).
  assert (Es2 : Yeti.run sin s1 (framesWith p fs2) = s2).
  { unfold s2, s1. rewrite framesWith_app, yeti_run_app. reflexivity. }
  rewrite Es2 in Hc2, E2.
  exists z1, z2. split; [exact E1|]. split; [exact E2|]. split; [exact Hle|].
  destruct Hc2 as (o & Ho & _ & _ & Hz). unfold yetiZ in E2. rewrite Ho in E2.
  injection E2 as <-.
  assert (Hlim : Yeti.attackPhase s2 <> Yeti.ATTACK -> position_z o <= -15).
  { intro Hne. destruct (Yeti.attackPhase s2); cbn [phaseTargetZ] in Hz;
      [lra|exact Hz|congruence]. }
  split; [destruct (Yeti.attackPhase s2); cbn [phaseTargetZ] in Hz; lra|].
  split; [exact Hlim|].
  intro H3. destruct (Yeti.attackPhase s2) eqn:Hp; try reflexivity;
    exfalso; assert (position_z o <= -15) by (apply Hlim; discriminate); lra.
Qed.

Lemma X20_witness :
  exists z1 z2,
    yetiZ (Yeti.run flatSin (yetiSpawned (yetiProps true true) (mkPoint 0 0))
             (framesWith (yetiProps true true) [])) = Some z1 /\
    yetiZ (Yeti.run flatSin (yetiSpawned (yetiProps true true) (mkPoint 0 0))
             (framesWith (yetiProps true true) ([] ++ repeat (frameAt 1) 30))) = Some z2 /\
    z1 <= z2 /\ z2 <= 0.8.
Proof.
  destruct (X20_yeti_pursuit flatSin (yetiProps true true) (mkPoint 0 0)
              [] (repeat (frameAt 1) 30) eq_refl) as (z1 & z2 & E1 & E2 & H12 & H2 & _).
  - vm_compute. discriminate.
  - repeat constructor; vm_compute; discriminate.
  - exists z1, z2. split; [exact E1|]. split; [exact E2|]. split; assumption.
Defined.

(** X21.  A yeti spawned more than 40 behind the player (as in the game)
    and rendered attacking is in the CHASE phase after its first frame and
    in the ATTACK phase after its second, whatever the frame times and the
    player's positions: the APPROACH and CHASE phases last one frame each. *)
Theorem X21_yeti_rushes_to_attack (sin : Q -> Q) (p : Yeti.Props) (player : Point)
    (f1 f2 : Yeti.Frame) :
  Yeti.attacking p = true -> initialZ p < -40 ->
  Yeti.attackPhase (yetiSpawned p player) = Yeti.APPROACH /\
  Yeti.attackPhase (Yeti.run sin (yetiSpawned p player) (framesWith p [f1])) = Yeti.CHASE /\
  Yeti.attackPhase (Yeti.run sin (yetiSpawned p player) (framesWith p [f1; f2]))
  = Yeti.ATTACK.
Proof.
  intros Ha Hfar.
  set (s0 := yetiSpawned p player).
  assert (H0 : exists o, Yeti.yetiRef s0 = Some o /\ position_z o = initialZ p /\
                         Yeti.attackPhase s0 = Yeti.APPROACH /\ Yeti.chaseSpeed s0 = 0.05).
  { unfold s0, yetiSpawned, Yeti.attackingEffect, Yeti.initialPositionEffect, Yeti.mount,
      Yeti.init, initialZ. rewrite Ha. destruct (Yeti.initialPosition p) as [[ix iy] iz].
    cbn. eexists. repeat split; reflexivity. }
  destruct H0 as (o & Ho & Ez & Ep & Ec).
  split; [exact Ep|].
  cbn [framesWith map Yeti.run fold_left Yeti.step].
  set (s1 := fst (Yeti.useFrame sin p f1 s0)).
  assert (Hp1 : Yeti.attackPhase s1 = Yeti.CHASE).
  { unfold s1. rewrite useFrame_phase, Ho, Ha, Ep.
    rewrite (proj2 (JS_lt_iff (position_z o) (-40))); [reflexivity|]. rewrite Ez. exact Hfar. }
  split; [exact Hp1|].
  destruct (useFrame_moves sin p f1 s0 o Ho Ha) as (o1 & Ho1 & Ez1 & _).
  fold s1 in Ho1.
  destruct (phaseSwitch_fields sin p f1 (Yeti.smoothDelta (Yeti.delta f1)) o s0)
    as (Et & Hcs & _).
  rewrite Ep in Et, Hcs. cbn [phaseTargetZ] in Et. rewrite Ec in Hcs.
  assert (Hrange : 0.05 <= JS.lerp 0.05 0.07 0.01 /\ JS.lerp 0.05 0.07 0.01 <= 0.18)
    by (unfold JS.lerp; split; lra).
  destruct (z_blend_range _ (Yeti.delta f1) (proj1 Hrange) (proj2 Hrange)) as [B1 _].
  rewrite <- Hcs in B1.
  assert (Hz1 : position_z o1 <= initialZ p + 30).
  { rewrite Ez1, Et, Ez. apply lerp_upper; lra. }
  rewrite useFrame_phase, Ho1, Ha, Hp1.
  rewrite (proj2 (JS_lt_iff (position_z o1) (-7))); [reflexivity|lra].
Qed.

Lemma X21_witness :
  Yeti.attackPhase (Yeti.run flatSin (yetiSpawned (yetiProps true true) (mkPoint 0 0))
                      (framesWith (yetiProps true true) [frameAt 1; frameAt 2]))
  = Yeti.ATTACK.
Proof.
  refine (proj2 (proj2 (X21_yeti_rushes_to_attack flatSin (yetiProps true true) (mkPoint 0 0)
                          (frameAt 1) (frameAt 2) eq_refl _))).
  vm_compute. reflexivity.
Defined.
